(** * Spotlight backend: scoring, candidate generation, outcome learning, jobs

    A shallow embedding of the numeric core of the backend
    ([agents/scorer.py], [services/address_generator.py],
    [services/concept_learner.py], [services/job_manager.py],
    [services/trust_metrics.py]) together with the properties the
    specification states about it.

    Number model.  Python floats and ints that the code stores or returns are
    rationals ([Q], integers as [Z]); arithmetic on them is exact, so float
    rounding error is idealised away.  Where the code calls a function that
    leaves the rationals (square root, sine, cosine, arc tangent) the result is
    a real number ([R]) and comes back to [Q] only through [round]. *)

From Stdlib Require Import ZArith QArith Qround Reals Qreals Psatz List String Sorted.
From stdpp Require Import gmap strings pretty.

Local Open Scope Q_scope.

(** ** Python primitives *)

Module Py.

(** Exceptions the modelled code can raise. *)
Inductive exn : Type :=
| ValueError (msg : string)
| TypeError
| ZeroDivisionError
| AttributeError
| StatisticsError
| IntegrityError.

(** A call either returns a value or raises. *)
Inductive res (A : Type) : Type :=
| Ok (a : A)
| Raise (e : exn).
Arguments Ok {A} a.
Arguments Raise {A} e.

Definition bind {A B : Type} (m : res A) (k : A -> res B) : res B :=
  match m with
  | Ok a => k a
  | Raise e => Raise e
  end.

(** [res] is a monad in stdpp's sense, which gives [x ← m; k]. *)
#[export] Instance res_ret : MRet res := fun A a => Ok a.
#[export] Instance res_bind : MBind res := fun A B k m => bind m k.

Definition Qleb (a b : Q) : bool := Qle_bool a b.
Definition Qltb (a b : Q) : bool := negb (Qle_bool b a).
Definition Qeqb (a b : Q) : bool := Qeq_bool a b.

(** [max(a, b)] returns [a] unless [b] is strictly larger;
    [min(a, b)] returns [a] unless [b] is strictly smaller. *)
Definition max (a b : Q) : Q := if Qltb a b then b else a.
Definition min (a b : Q) : Q := if Qltb b a then b else a.

Definition abs (a : Q) : Q := if Qltb a 0 then - a else a.

(** True division [a / b]. *)
Definition div (a b : Q) : res Q :=
  if Qeqb b 0 then Raise ZeroDivisionError else Ok (a / b).

(** [int(x)]: truncation toward zero. *)
Definition int (x : Q) : Z := Z.quot (Qnum x) (Z.pos (Qden x)).

(** [round(x)]: nearest integer, ties to the even one. *)
Definition round (x : Q) : Z :=
  let f := Qfloor x in
  match Qcompare (x - inject_Z f) (1 # 2) with
  | Lt => f
  | Gt => (f + 1)%Z
  | Eq => if Z.even f then f else (f + 1)%Z
  end.

(** [round(x, nd)]: [x] rounded to [nd] decimals, again a float. *)
Definition round_nd (x : Q) (nd : nat) : Q :=
  inject_Z (round (x * inject_Z (10 ^ Z.of_nat nd))) / inject_Z (10 ^ Z.of_nat nd).

(** A value stored in a [Dict[str, Any]] of features: a number or [None]. *)
Definition value : Type := option Q.

(** [d.get(k, default)] used as a number: a key bound to [None] comes back
    as [None] and the first arithmetic use raises [TypeError]. *)
Definition get_num (d : gmap string value) (k : string) (default : Q) : res Q :=
  match d !! k with
  | None => Ok default
  | Some (Some q) => Ok q
  | Some None => Raise TypeError
  end.

(** [d.get(k)]: [None] when the key is absent or bound to [None]. *)
Definition get (d : gmap string value) (k : string) : option Q :=
  match d !! k with
  | Some v => v
  | None => None
  end.

(** [bool(s)] of an optional string: [None] and the empty string are falsy. *)
Definition truthy (s : option string) : bool :=
  match s with
  | Some s' => negb (String.eqb s' "")
  | None => false
  end.

(** [sum(l)] and [len(l)] on lists of floats. *)
Definition sum (l : list Q) : Q := fold_left Qplus l 0.
Definition len {A : Type} (l : list A) : Q := inject_Z (Z.of_nat (length l)).

End Py.

Import Py.

(** ** Python numerics that leave the rationals *)

Module PyReal.
Local Open Scope R_scope.

Definition Reqb (x y : R) : bool := if Req_EM_T x y then true else false.
Definition Rltb (x y : R) : bool := if Rlt_dec x y then true else false.

(** [round(x)] of a real: nearest integer, ties to the even one. *)
Definition round (x : R) : Z :=
  let f := Int_part x in
  if Rltb (x - IZR f) (1 / 2) then f
  else if Rltb (1 / 2) (x - IZR f) then (f + 1)%Z
  else if Z.even f then f else (f + 1)%Z.

(** [round(x, nd)]: the rounded value is a float again. *)
Definition round_nd (x : R) (nd : nat) : Q :=
  (inject_Z (round (x * IZR (10 ^ Z.of_nat nd))) / inject_Z (10 ^ Z.of_nat nd))%Q.

Definition sum (l : list R) : R := fold_left Rplus l 0.

(** [max(a, b)] and [min(a, b)] return [a] unless [b] is strictly larger,
    respectively smaller. *)
Definition max (a b : R) : R := if Rltb a b then b else a.
Definition min (a b : R) : R := if Rltb b a then b else a.

End PyReal.

(** ** Database rows ([models/database.py]) *)

Module Database.

(** The [weights] JSON column: one fraction per factor. *)
Record Weights : Type := mkWeights {
  w_population : Q;
  w_income : Q;
  w_access : Q;
  w_competition : Q;
  w_walkability : Q
}.

Record Concept : Type := mkConcept {
  c_id : string;
  c_customer_id : string;
  c_name : string;
  c_category : string;
  base_revenue_eur : Z;
  revenue_variance : Q;
  target_income_min : Z;
  target_income_max : Z;
  optimal_population_density : Z;
  target_competitors_per_1k : Q;
  weights : Weights;
  outcomes_count : Z;
  avg_prediction_error : option Q;
  last_trained_at : option Z;
  is_system_default : bool;
  is_active : bool
}.

Record Prediction : Type := mkPrediction {
  p_id : Z;
  p_concept_id : option string;
  p_score : Q;
  p_revenue_low : Q;
  p_revenue_mid : Q;
  p_revenue_high : Q;
  p_features : option (gmap string value)
}.

Record ConceptTrainingOutcome : Type := mkOutcome {
  o_id : Z;
  o_concept_id : string;
  o_prediction_id : Z;
  predicted_revenue_eur : Q;
  predicted_score : Q;
  features_used : option (gmap string value);
  actual_revenue_eur : Q;
  variance_pct : Q;
  opened_at : Z;
  used_in_training : bool;
  training_weight : Q
}.

End Database.

(** ** Scoring engine ([agents/scorer.py]) *)

Module Scorer.
Import Database.

(** The dictionary [_get_concept_config] hands to the scoring code. *)
Record ConceptConfig : Type := mkConfig {
  cfg_name : string;
  cfg_base_revenue_eur : Q;
  cfg_target_income_min : Q;
  cfg_target_income_max : Q;
  cfg_optimal_population_density : Q;
  cfg_target_competitors_per_1k : Q;
  cfg_weights : Weights
}.

(** The engine: an optional database session (the [concepts] table in query
    order) and the YAML defaults, which are not part of the sources and are
    therefore a field of the engine. *)
Record ScoringEngine : Type := mkEngine {
  db_session : option (list Concept);
  yaml_concepts : gmap string ConceptConfig
}.

Record ScoreComponents : Type := mkComponents {
  sc_population : Q;
  sc_income : Q;
  sc_access : Q;
  sc_competition : Q;
  sc_walkability : Q
}.

Record ScoreResult : Type := mkResult {
  score : Q;
  revenue_low : Z;
  revenue_mid : Z;
  revenue_high : Z;
  confidence : Q;
  score_components : ScoreComponents;
  concept_id : option string
}.

Definition _db_concept_to_config (c : Concept) : ConceptConfig :=
  {| cfg_name := c_name c;
     cfg_base_revenue_eur := inject_Z (base_revenue_eur c);
     cfg_target_income_min := inject_Z (target_income_min c);
     cfg_target_income_max := inject_Z (target_income_max c);
     cfg_optimal_population_density := inject_Z (optimal_population_density c);
     cfg_target_competitors_per_1k := target_competitors_per_1k c;
     cfg_weights := weights c |}.

(** [query.filter(...).first()] *)
Definition first {A : Type} (p : A -> bool) (rows : list A) : option A :=
  List.find p rows.

Definition _get_concept_config (self : ScoringEngine) (concept_category : string)
    (concept_id : option string) : option ConceptConfig * option string :=
  let yaml :=
    match yaml_concepts self !! concept_category with
    | Some cfg => (Some cfg, None)
    | None => (None, None)
    end in
  match db_session self with
  | Some rows =>
      let by_category :=
        match first (fun c => String.eqb (c_category c) concept_category
                              && is_system_default c && is_active c) rows with
        | Some c => (Some (_db_concept_to_config c), Some (c_id c))
        | None => yaml
        end in
      if truthy concept_id then
        match first (fun c => match concept_id with
                              | Some i => String.eqb (c_id c) i
                              | None => false
                              end && is_active c) rows with
        | Some c => (Some (_db_concept_to_config c), Some (c_id c))
        | None => by_category
        end
      else by_category
  | None => yaml
  end.

Definition _calculate_population_score (density optimal : Q) : res Q :=
  if Qleb optimal density then Ok 100
  else if Qleb density 0 then Ok 0
  else r ← div density optimal; Ok (r * 100).

Definition _calculate_income_score (median_income target_min target_max : Q) : res Q :=
  if Qltb median_income target_min then
    let gap := target_min - median_income in
    r ← div gap target_min;
    let penalty := min (r * 100) 50 in
    Ok (max (50 - penalty) 0)
  else if Qltb target_max median_income then
    let gap := median_income - target_max in
    r ← div gap target_max;
    let penalty := min (r * 50) 25 in
    Ok (max (75 - penalty) 50)
  else
    let middle := (target_min + target_max) / 2 in
    let distance_from_middle := abs (median_income - middle) in
    let max_distance := (target_max - target_min) / 2 in
    r ← div distance_from_middle max_distance;
    let score := 100 - r * 15 in
    Ok (max score 85).

Definition _calculate_access_score (metro_distance_m tram_distance_m : option Q) : Q :=
  let score := 50 in
  let score :=
    match metro_distance_m with
    | Some m =>
        if Qleb m 200 then score + 40
        else if Qleb m 500 then score + 30
        else if Qleb m 1000 then score + 15
        else score
    | None => score
    end in
  let score :=
    match tram_distance_m with
    | Some t =>
        if Qleb t 100 then score + 10
        else if Qleb t 300 then score + 5
        else score
    | None => score
    end in
  min score 100.

Definition _calculate_competition_score (competitors_per_1k target : Q) : res Q :=
  if Qeqb competitors_per_1k 0 then Ok 40
  else
    ratio ← div competitors_per_1k target;
    if Qleb (8 # 10) ratio && Qleb ratio (12 # 10) then Ok 100
    else if Qleb (5 # 10) ratio && Qltb ratio (8 # 10) then Ok 85
    else if Qltb (12 # 10) ratio && Qleb ratio (15 # 10) then Ok 75
    else if Qltb (15 # 10) ratio then
      let penalty := min ((ratio - (15 # 10)) * 30) 50 in
      Ok (max (50 - penalty) 20)
    else Ok 60.

Definition _calculate_walkability_score (poi_count : Q) : Q :=
  if Qleb 100 poi_count then 100
  else if Qleb 50 poi_count then 85
  else if Qleb 25 poi_count then 70
  else if Qleb 10 poi_count then 55
  else max (poi_count * 3) 20.

Definition _calculate_revenue (base_revenue population_density median_income
    competitors_per_1k : Q) (concept_config : ConceptConfig) : res Q :=
  r ← div population_density (cfg_optimal_population_density concept_config);
  let pop_multiplier := min r (15 # 10) in
  let target_mid :=
    (cfg_target_income_min concept_config + cfg_target_income_max concept_config) / 2 in
  income_multiplier ←
    (if Qltb 0 median_income then
       r ← div median_income target_mid;
       let income_multiplier := (7 # 10) + r * (3 # 10) in
       Ok (max (min income_multiplier (13 # 10)) (7 # 10))
     else Ok 1);
  let target_comp := cfg_target_competitors_per_1k concept_config in
  saturation_penalty ←
    (if Qltb target_comp competitors_per_1k then
       r ← div competitors_per_1k target_comp;
       Ok (min ((r - 1) * (3 # 10)) (4 # 10))
     else Ok 0);
  let revenue := base_revenue * pop_multiplier * income_multiplier * (1 - saturation_penalty) in
  Ok (max revenue (base_revenue * (5 # 10))).

Definition required_fields : list string :=
  ["population_density"; "median_income"; "competitors_count";
   "nearest_metro_distance_m"]%string.

Definition _calculate_confidence (features : gmap string value) : Q :=
  let present :=
    len (List.filter (fun field => bool_decide (is_Some (get features field)))
                     required_fields) in
  let completeness := present / len required_fields in
  (6 # 10) + completeness * (4 # 10).

(** The revenue band half-width, [band_percent] in [calculate_score]. *)
Definition band_percent (confidence : Q) : Q :=
  (15 # 100) + (15 # 100) * (1 - confidence).

Definition calculate_score (self : ScoringEngine) (features : gmap string value)
    (concept : string) (concept_id : option string) : res ScoreResult :=
  let '(concept_config, used_concept_id) := _get_concept_config self concept concept_id in
  match concept_config with
  | None => Raise (ValueError ("Unknown concept: " ++ concept))
  | Some concept_config =>
      density ← get_num features "population_density" 0;
      population_score ←
        _calculate_population_score density
          (cfg_optimal_population_density concept_config);
      median_income ← get_num features "median_income" 0;
      income_score ←
        _calculate_income_score median_income
          (cfg_target_income_min concept_config)
          (cfg_target_income_max concept_config);
      let access_score :=
        _calculate_access_score (get features "nearest_metro_distance_m")
                                (get features "nearest_tram_distance_m") in
      competitors_per_1k ← get_num features "competitors_per_1k_residents" 0;
      competition_score ←
        _calculate_competition_score competitors_per_1k
          (cfg_target_competitors_per_1k concept_config);
      poi_count ← get_num features "walkability_poi_count" 0;
      let walkability_score := _calculate_walkability_score poi_count in
      let weights := cfg_weights concept_config in
      let overall_score :=
        w_population weights * population_score +
        w_income weights * income_score +
        w_access weights * access_score +
        w_competition weights * competition_score +
        w_walkability weights * walkability_score in
      revenue_prediction ←
        _calculate_revenue (cfg_base_revenue_eur concept_config)
          density median_income competitors_per_1k concept_config;
      let confidence := _calculate_confidence features in
      let revenue_mid := revenue_prediction in
      let band_percent := band_percent confidence in
      let revenue_low := revenue_mid * (1 - band_percent) in
      let revenue_high := revenue_mid * (1 + band_percent) in
      Ok {| score := round_nd overall_score 1;
            revenue_low := round revenue_low;
            revenue_mid := round revenue_mid;
            revenue_high := round revenue_high;
            confidence := round_nd confidence 2;
            score_components :=
              {| sc_population := round_nd population_score 1;
                 sc_income := round_nd income_score 1;
                 sc_access := round_nd access_score 1;
                 sc_competition := round_nd competition_score 1;
                 sc_walkability := round_nd walkability_score 1 |};
            concept_id :=
              if truthy used_concept_id then used_concept_id else None |}
  end.

(** What [create_concept] ([routes/concepts.py]) accepts: each weight in
    [0, 1] (the [ConceptWeights] field bounds) and a sum within 0.95-1.05. *)
Definition total_weight (w : Weights) : Q :=
  w_population w + w_income w + w_access w + w_competition w + w_walkability w.

Definition weights_accepted (w : Weights) : Prop :=
  (0 <= w_population w <= 1) /\ (0 <= w_income w <= 1) /\
  (0 <= w_access w <= 1) /\ (0 <= w_competition w <= 1) /\
  (0 <= w_walkability w <= 1) /\
  (95 # 100) <= total_weight w <= (105 # 100).

(** The features [calculate_score] uses as numbers. *)
Definition numeric_keys : list string :=
  ["population_density"; "median_income"; "competitors_per_1k_residents";
   "walkability_poi_count"]%string.


End Scorer.

(** ** Candidate generation ([services/address_generator.py]) *)

Module AddressGenerator.

(** One feature of a reverse-geocoding answer: its [properties] object. *)
Record Feature : Type := mkFeature {
  properties : option (gmap string string)
}.

(** The answer of the geocoder: a JSON object that may have a [features]
    list. *)
Record GeoJSON : Type := mkGeoJSON {
  features : option (list Feature)
}.

(** The generator holds its collaborators; only the reverse geocoder is
    consulted by the code modelled here.  It may raise. *)
Record AddressGenerator : Type := mkGenerator {
  digitransit_reverse_geocode : Q -> Q -> res (option GeoJSON)
}.

Record Area : Type := mkArea {
  area_area_id : string;
  area_name : string;
  area_lat : Q;
  area_lng : Q;
  area_score : Q
}.

Record Candidate : Type := mkCandidate {
  address : string;
  lat : Q;
  lng : Q;
  area_id : option string;
  score : Q;
  revenue_min_eur : Z;
  revenue_max_eur : Z;
  confidence : Q;
  decision : string;
  rank : option Z
}.

Definition streets : list string :=
  ["Mannerheimintie"; "Aleksanterinkatu"; "Esplanadi"; "Fredrikinkatu";
   "Bulevardi"; "Lönnrotinkatu"; "Annankatu"; "Unioninkatu";
   "Kaivokatu"; "Mikonkatu"; "Pohjoisesplanadi"; "Eteläesplanadi"]%string.

Definition _generate_mock_address (self : AddressGenerator) (lat lng : Q) : string :=
  let street_idx := (int ((lat + lng) * 1000) mod Z.of_nat (length streets))%Z in
  let street := nth (Z.to_nat street_idx) streets ""%string in
  let house_num := (int (abs (lat - (601 # 10)) * 1000) mod 99 + 1)%Z in
  let postal := ("00" ++ pretty (100 + int (lng * 1000) mod 890)%Z)%string in
  (street ++ " " ++ pretty house_num ++ ", " ++ postal ++ " Helsinki")%string.

(** [properties.get(k, '')] *)
Definition prop (p : gmap string string) (k : string) : string :=
  default ""%string (p !! k).

Definition nonempty (s : string) : bool := negb (String.eqb s "").

Definition _reverse_geocode (self : AddressGenerator) (lat lng : Q) : option string :=
  match digitransit_reverse_geocode self lat lng with
  | Raise _ => Some (_generate_mock_address self lat lng)
  | Ok result =>
      match result with
      | Some {| features := Some (feature :: _) |} =>
          let properties := default ∅ (properties feature) in
          let street := prop properties "street" in
          let house_number := prop properties "housenumber" in
          let postal_code := prop properties "postalcode" in
          let locality := prop properties "locality" in
          if nonempty street && nonempty locality then
            if nonempty house_number then
              Some (street ++ " " ++ house_number ++ ", " ++ postal_code
                    ++ " " ++ locality)%string
            else
              Some (street ++ ", " ++ postal_code ++ " " ++ locality)%string
          else Some (_generate_mock_address self lat lng)
      | _ => Some (_generate_mock_address self lat lng)
      end
  end.

Section Haversine.
Local Open Scope R_scope.

Definition radians (x : R) : R := x * PI / 180.

(** [math.atan2(y, x)] *)
Definition atan2 (y x : R) : R :=
  if Rlt_dec 0 x then atan (y / x)
  else if Rlt_dec x 0 then
    if Rle_dec 0 y then atan (y / x) + PI else atan (y / x) - PI
  else if Rlt_dec 0 y then PI / 2
  else if Rlt_dec y 0 then - (PI / 2)
  else 0.

(** The quantity [a] of the haversine formula.  It always lies in
    [0, 1] (lemma [haversine_a_range] below), so neither [math.sqrt] call
    of the source leaves its domain. *)
Definition haversine_a (lat1 lng1 lat2 lng2 : Q) : R :=
  let lat1_rad := radians (Q2R lat1) in
  let lat2_rad := radians (Q2R lat2) in
  let delta_lat := radians (Q2R (lat2 - lat1)) in
  let delta_lng := radians (Q2R (lng2 - lng1)) in
  sin (delta_lat / 2) ^ 2 + cos lat1_rad * cos lat2_rad * sin (delta_lng / 2) ^ 2.

Definition _haversine_distance (lat1 lng1 lat2 lng2 : Q) : R :=
  let R := 6371000 in
  let a := haversine_a lat1 lng1 lat2 lng2 in
  let c := 2 * atan2 (sqrt a) (sqrt (1 - a)) in
  R * c.
End Haversine.

(** [sorted(candidates, key=lambda x: x['score'], reverse=True)]: a stable
    sort, so equal scores keep their input order. *)
Fixpoint insert_desc (x : Candidate) (l : list Candidate) : list Candidate :=
  match l with
  | [] => [x]
  | y :: ys => if Qleb (score y) (score x) then x :: y :: ys
               else y :: insert_desc x ys
  end.

Definition sorted_by_score_desc (l : list Candidate) : list Candidate :=
  fold_right insert_desc [] l.

(** The inner loop: is [candidate] closer than [min_distance_m] to some
    kept candidate? *)
Definition too_close (min_distance_m : Q) (candidate : Candidate)
    (kept : list Candidate) : bool :=
  existsb (fun kept_candidate =>
             PyReal.Rltb (_haversine_distance (lat candidate) (lng candidate)
                     (lat kept_candidate) (lng kept_candidate))
                  (Q2R min_distance_m)) kept.

(** The outer loop over the sorted candidates, threading [kept]. *)
Fixpoint dedup_loop (min_distance_m : Q) (sorted_candidates kept : list Candidate)
    : list Candidate :=
  match sorted_candidates with
  | [] => kept
  | candidate :: rest =>
      if too_close min_distance_m candidate kept
      then dedup_loop min_distance_m rest kept
      else dedup_loop min_distance_m rest (kept ++ [candidate])
  end.

Definition _deduplicate_by_distance (candidates : list Candidate)
    (min_distance_m : Q) : list Candidate :=
  match candidates with
  | [] => []
  | _ => dedup_loop min_distance_m (sorted_by_score_desc candidates) []
  end.

(** Great-circle distance between two candidates. *)
Definition dist (a b : Candidate) : R :=
  _haversine_distance (lat a) (lng a) (lat b) (lng b).

(** Two candidates are at least [m] metres apart. *)
Definition apart (m : Q) (a b : Candidate) : Prop :=
  (Q2R m <= dist a b)%R /\ (Q2R m <= dist b a)%R.

(** [l[:limit]] for an integer [limit] of either sign. *)
Definition slice_to {A : Type} (l : list A) (limit : Z) : list A :=
  if (0 <=? limit)%Z then firstn (Z.to_nat limit) l
  else firstn (Z.to_nat (Z.of_nat (length l) + limit)) l.

(** [for i, addr in enumerate(top_n): addr['rank'] = i + 1] *)
Fixpoint add_ranks (i : Z) (l : list Candidate) : list Candidate :=
  match l with
  | [] => []
  | addr :: rest =>
      {| address := address addr; lat := lat addr; lng := lng addr;
         area_id := area_id addr; score := score addr;
         revenue_min_eur := revenue_min_eur addr;
         revenue_max_eur := revenue_max_eur addr;
         confidence := confidence addr; decision := decision addr;
         rank := Some (i + 1)%Z |} :: add_ranks (i + 1) rest
  end.

(** [generate_candidates], with the two data-collecting steps
    ([_get_top_areas], [_generate_candidates_for_area]) given by their
    results. *)
Definition generate_candidates (top_areas : list Area)
    (candidates_for_area : Area -> list Candidate) (limit : Z) : list Candidate :=
  match top_areas with
  | [] => []
  | _ =>
      let all_candidates := flat_map candidates_for_area top_areas in
      let deduped := _deduplicate_by_distance all_candidates 80 in
      let deduped := sorted_by_score_desc deduped in
      let top_n := slice_to deduped limit in
      add_ranks 0 top_n
  end.

End AddressGenerator.

(** ** Outcome learning ([services/concept_learner.py]) *)

Module ConceptLearner.
Import Database.

(** The session: the three tables in query order and the next primary key
    of [concept_training_outcomes]. *)
Record DB : Type := mkDB {
  predictions : list Prediction;
  concepts : list Concept;
  outcomes : list ConceptTrainingOutcome;
  next_outcome_id : Z
}.

Record OutcomeResult : Type := mkOutcomeResult {
  training_outcome_id : option Z;
  r_variance_pct : Q;
  triggered_retraining : bool;
  new_accuracy : option Q;
  r_outcomes_count : option Z;
  message : option string
}.

Definition MIN_OUTCOMES_FOR_TRAINING : Z := 5.
Definition MIN_OUTCOMES_FOR_WEIGHTS : Z := 20.

Definition first {A : Type} (p : A -> bool) (rows : list A) : option A :=
  List.find p rows.

(** Attribute writes on the row fetched by primary key. *)
Fixpoint update_concept (rows : list Concept) (id : string)
    (f : Concept -> Concept) : list Concept :=
  match rows with
  | [] => []
  | c :: rest => if String.eqb (c_id c) id then f c :: rest
                 else c :: update_concept rest id f
  end.

Definition set_outcomes_count (n : Z) (c : Concept) : Concept :=
  {| c_id := c_id c; c_customer_id := c_customer_id c; c_name := c_name c;
     c_category := c_category c; base_revenue_eur := base_revenue_eur c;
     revenue_variance := revenue_variance c;
     target_income_min := target_income_min c;
     target_income_max := target_income_max c;
     optimal_population_density := optimal_population_density c;
     target_competitors_per_1k := target_competitors_per_1k c;
     weights := weights c; outcomes_count := n;
     avg_prediction_error := avg_prediction_error c;
     last_trained_at := last_trained_at c;
     is_system_default := is_system_default c; is_active := is_active c |}.

Definition set_trained (base : Z) (variance mape : Q) (now : Z)
    (new_weights : option Weights) (c : Concept) : Concept :=
  {| c_id := c_id c; c_customer_id := c_customer_id c; c_name := c_name c;
     c_category := c_category c; base_revenue_eur := base;
     revenue_variance := variance;
     target_income_min := target_income_min c;
     target_income_max := target_income_max c;
     optimal_population_density := optimal_population_density c;
     target_competitors_per_1k := target_competitors_per_1k c;
     weights := default (weights c) new_weights;
     outcomes_count := outcomes_count c;
     avg_prediction_error := Some mape;
     last_trained_at := Some now;
     is_system_default := is_system_default c; is_active := is_active c |}.

Definition mark_used (o : ConceptTrainingOutcome) : ConceptTrainingOutcome :=
  {| o_id := o_id o; o_concept_id := o_concept_id o;
     o_prediction_id := o_prediction_id o;
     predicted_revenue_eur := predicted_revenue_eur o;
     predicted_score := predicted_score o;
     features_used := features_used o;
     actual_revenue_eur := actual_revenue_eur o;
     variance_pct := variance_pct o; opened_at := opened_at o;
     used_in_training := true; training_weight := training_weight o |}.

(** [sorted(data)] on floats. *)
Fixpoint insert_asc (x : Q) (l : list Q) : list Q :=
  match l with
  | [] => [x]
  | y :: ys => if Qleb x y then x :: y :: ys else y :: insert_asc x ys
  end.

Definition sorted (l : list Q) : list Q := fold_right insert_asc [] l.

(** [statistics.median] *)
Definition median (data : list Q) : res Q :=
  let data := sorted data in
  let n := length data in
  if Nat.eqb n 0 then Raise StatisticsError
  else if Nat.eqb (n mod 2) 1 then Ok (nth (n / 2) data 0)
  else
    let i := (n / 2)%nat in
    Ok ((nth (i - 1) data 0 + nth i data 0) / 2).

(** [statistics.mean] *)
Definition mean (data : list Q) : res Q :=
  match data with
  | [] => Raise StatisticsError
  | _ => Ok (sum data / len data)
  end.

(** [d.get(k, default)] kept as a possibly-[None] value. *)
Definition get_default (d : gmap string value) (k : string) (default : Q) : value :=
  match d !! k with
  | Some v => v
  | None => Some default
  end.

(** Pearson correlation of the pairs whose [x] is not [None]. *)
Definition _calculate_correlation (x : list value) (y : list Q) : R :=
  if negb (Nat.eqb (length x) (length y)) || Nat.ltb (length x) 2 then 0%R
  else
    let pairs :=
      flat_map (fun p => match fst p with
                         | Some xi => [(xi, snd p)]
                         | None => []
                         end) (combine x y) in
    if Nat.ltb (length pairs) 2 then 0%R
    else
      let x_clean := map fst pairs in
      let y_clean := map snd pairs in
      let x_mean := sum x_clean / len x_clean in
      let y_mean := sum y_clean / len y_clean in
      let numerator :=
        sum (map (fun p => (fst p - x_mean) * (snd p - y_mean)) pairs) in
      let x_variance := sum (map (fun xi => (xi - x_mean) * (xi - x_mean)) x_clean) in
      let y_variance := sum (map (fun yi => (yi - y_mean) * (yi - y_mean)) y_clean) in
      let denominator := sqrt (Q2R (x_variance * y_variance)) in
      if PyReal.Reqb denominator 0 then 0%R
      else (Q2R numerator / denominator)%R.

Definition feature_names : list string :=
  ["population"; "income"; "access"; "competition"; "walkability"]%string.

(** The value series of one factor over the outcomes that carry features. *)
Definition feature_value (name : string) (features : gmap string value) : res value :=
  if String.eqb name "population" then Ok (get_default features "population_density" 0)
  else if String.eqb name "income" then Ok (get_default features "median_income" 0)
  else if String.eqb name "access" then
    match get_default features "nearest_metro_distance_m" 1000 with
    | None => Raise TypeError
    | Some d => r ← div 1 (d + 1); Ok (Some r)
    end
  else if String.eqb name "competition" then
    Ok (get_default features "competitors_per_1k_residents" 0)
  else Ok (get_default features "walkability_poi_count" 0).

(** [bool(features_used)]: [None] and the empty dictionary are falsy. *)
Definition usable_features (o : ConceptTrainingOutcome) : option (gmap string value) :=
  match features_used o with
  | Some f => if bool_decide (f = ∅) then None else Some f
  | None => None
  end.

Fixpoint collect (name : string) (outcomes : list ConceptTrainingOutcome)
    : res (list value) :=
  match outcomes with
  | [] => Ok []
  | o :: rest =>
      match usable_features o with
      | None => collect name rest
      | Some f =>
          v ← feature_value name f;
          vs ← collect name rest;
          Ok (v :: vs)
      end
  end.

(** [max(new_weights, key=new_weights.get)]: the first key, in insertion
    order, whose weight is maximal. *)
Fixpoint max_key (best : string * Q) (l : list (string * Q)) : string :=
  match l with
  | [] => fst best
  | kv :: rest => if Qltb (snd best) (snd kv) then max_key kv rest
                  else max_key best rest
  end.

Definition lookup_weight (l : list (string * Q)) (k : string) : Q :=
  match List.find (fun kv => String.eqb (fst kv) k) l with
  | Some kv => snd kv
  | None => 0
  end.

Definition to_weights (l : list (string * Q)) : Weights :=
  {| w_population := lookup_weight l "population";
     w_income := lookup_weight l "income";
     w_access := lookup_weight l "access";
     w_competition := lookup_weight l "competition";
     w_walkability := lookup_weight l "walkability" |}.

Fixpoint correlations_of (outcomes : list ConceptTrainingOutcome)
    (actual_revenues : list Q) (names : list string) : res (list (string * R)) :=
  match names with
  | [] => Ok []
  | name :: rest =>
      xs ← collect name outcomes;
      cs ← correlations_of outcomes actual_revenues rest;
      Ok ((name, Rabs (_calculate_correlation xs actual_revenues)) :: cs)
  end.

Definition _optimize_weights (outcomes : list ConceptTrainingOutcome)
    (current_weights : Weights) : res (option Weights) :=
  if (Z.of_nat (length outcomes) <? MIN_OUTCOMES_FOR_WEIGHTS)%Z then Ok None
  else
    let actual_revenues :=
      flat_map (fun o => match usable_features o with
                         | Some _ => [actual_revenue_eur o]
                         | None => []
                         end) outcomes in
    correlations ← correlations_of outcomes actual_revenues feature_names;
    let total_corr := PyReal.sum (map snd correlations) in
    if PyReal.Reqb total_corr 0 then Ok None
    else
      let new_weights :=
        map (fun kv => (fst kv, PyReal.round_nd (snd kv / total_corr)%R 2))
            correlations in
      let weight_sum := sum (map snd new_weights) in
      if negb (Qeqb weight_sum 1) then
        match new_weights with
        | [] => Ok (Some (to_weights new_weights))
        | kv :: rest =>
            let k := max_key kv rest in
            let adjusted :=
              round_nd (lookup_weight new_weights k + (1 - weight_sum)) 2 in
            Ok (Some (to_weights
                        (map (fun kv' => if String.eqb (fst kv') k
                                         then (fst kv', adjusted) else kv')
                             new_weights)))
        end
      else Ok (Some (to_weights new_weights)).

(** The uncertainty band chosen from the mean absolute percentage error. *)
Definition new_variance (mape : Q) (n : nat) : Q :=
  if Qltb mape 10 then 10 # 100
  else if Qltb mape 15 then 12 # 100
  else if Qltb mape 20 then 15 # 100
  else max ((20 # 100) - inject_Z (Z.of_nat n) * (5 # 1000)) (15 # 100).

Definition outcomes_of (db : DB) (concept_id : string) : list ConceptTrainingOutcome :=
  List.filter (fun o => String.eqb (o_concept_id o) concept_id) (outcomes db).

Definition _retrain_concept (db : DB) (concept_id : string) (now : Z) : res DB :=
  match first (fun c => String.eqb (c_id c) concept_id) (concepts db) with
  | None => Ok db
  | Some concept =>
      let outs := outcomes_of db concept_id in
      if (Z.of_nat (length outs) <? MIN_OUTCOMES_FOR_TRAINING)%Z then Ok db
      else
        let actual_revenues := map actual_revenue_eur outs in
        new_base_revenue ← median actual_revenues;
        let absolute_percent_errors := map (fun o => abs (variance_pct o)) outs in
        mape ← mean absolute_percent_errors;
        let new_variance := new_variance mape (length outs) in
        optimized_weights ←
          (if (MIN_OUTCOMES_FOR_WEIGHTS <=? Z.of_nat (length outs))%Z
           then _optimize_weights outs (weights concept)
           else Ok None);
        Ok {| predictions := predictions db;
              concepts :=
                update_concept (concepts db) concept_id
                  (set_trained (int new_base_revenue) new_variance mape now
                               optimized_weights);
              outcomes :=
                map (fun o => if String.eqb (o_concept_id o) concept_id
                              then mark_used o else o) (outcomes db);
              next_outcome_id := next_outcome_id db |}
  end.

Definition record_outcome (db : DB) (prediction_id : Z) (actual_revenue : Q)
    (opened_at now : Z) : res (DB * OutcomeResult) :=
  match first (fun p => (p_id p =? prediction_id)%Z) (predictions db) with
  | None => Raise (ValueError ("Prediction " ++ pretty prediction_id ++ " not found"))
  | Some prediction =>
      match p_concept_id prediction with
      | Some concept_id =>
          if truthy (Some concept_id) then
            r ← div (actual_revenue - p_revenue_mid prediction)
                    (p_revenue_mid prediction);
            let variance_pct := r * 100 in
            let training_outcome :=
              {| o_id := next_outcome_id db;
                 o_concept_id := concept_id;
                 o_prediction_id := prediction_id;
                 predicted_revenue_eur := p_revenue_mid prediction;
                 predicted_score := p_score prediction;
                 features_used := p_features prediction;
                 actual_revenue_eur := actual_revenue;
                 variance_pct := variance_pct;
                 opened_at := opened_at;
                 used_in_training := false;
                 training_weight := 1 |} in
            if existsb (fun o => (o_prediction_id o =? prediction_id)%Z) (outcomes db)
            then Raise IntegrityError
            else
              let db := {| predictions := predictions db;
                           concepts := concepts db;
                           outcomes := outcomes db ++ [training_outcome];
                           next_outcome_id := (next_outcome_id db + 1)%Z |} in
              match first (fun c => String.eqb (c_id c) concept_id) (concepts db) with
              | None => Raise AttributeError
              | Some concept =>
                  let count := (outcomes_count concept + 1)%Z in
                  let db := {| predictions := predictions db;
                               concepts := update_concept (concepts db) concept_id
                                             (set_outcomes_count count);
                               outcomes := outcomes db;
                               next_outcome_id := next_outcome_id db |} in
                  if (MIN_OUTCOMES_FOR_TRAINING <=? count)%Z then
                    db ← _retrain_concept db concept_id now;
                    let new_accuracy :=
                      match first (fun c => String.eqb (c_id c) concept_id)
                                  (concepts db) with
                      | Some c => avg_prediction_error c
                      | None => None
                      end in
                    Ok (db, {| training_outcome_id := Some (o_id training_outcome);
                               r_variance_pct := round_nd variance_pct 2;
                               triggered_retraining := true;
                               new_accuracy := new_accuracy;
                               r_outcomes_count := Some count;
                               message := None |})
                  else
                    Ok (db, {| training_outcome_id := Some (o_id training_outcome);
                               r_variance_pct := round_nd variance_pct 2;
                               triggered_retraining := false;
                               new_accuracy := None;
                               r_outcomes_count := Some count;
                               message := None |})
              end
          else
            Ok (db, {| training_outcome_id := None; r_variance_pct := 0;
                       triggered_retraining := false; new_accuracy := None;
                       r_outcomes_count := None;
                       message := Some "No concept linked to prediction - cannot learn"%string |})
      | None =>
          Ok (db, {| training_outcome_id := None; r_variance_pct := 0;
                     triggered_retraining := false; new_accuracy := None;
                     r_outcomes_count := None;
                     message := Some "No concept linked to prediction - cannot learn"%string |})
      end
  end.

End ConceptLearner.

(** ** Outcome submission ([main.py], [submit_outcome]) *)

Module Main.
Import Database ConceptLearner.








End Main.

(** ** Job manager ([services/job_manager.py]) *)

Module JobManager.

Module JobStatus.
Definition PENDING : string := "pending".
Definition RUNNING : string := "running".
Definition COMPLETE : string := "complete".
Definition FAILED : string := "failed".
Definition DEGRADED : string := "degraded".
End JobStatus.

Module StageStatus.
Definition IDLE : string := "idle".
Definition RUNNING : string := "running".
Definition DONE : string := "done".
Definition WARN : string := "warn".
Definition FAIL : string := "fail".
End StageStatus.

(** The final payload of a job, kept as serialised text. *)
Definition Payload : Type := string.

Record Stage : Type := mkStage {
  st_status : string;
  st_metrics : gmap string Z;
  st_ms : option Z;
  st_cached : bool;
  st_timestamp : Z
}.

Record Job : Type := mkJob {
  job_id : string;
  status : string;
  city : string;
  concept : string;
  limit : Z;
  include_crime : bool;
  created_at : Z;
  expires_at : Z;
  stages : gmap string Stage;
  degraded : list string;
  result : option Payload;
  error : option string;
  completed_at : option Z
}.

Inductive Event : Type :=
| StageEvent (job_id stage status : string) (metrics : gmap string Z)
             (ms : option Z) (cached : bool)
| CompletionEvent (job_id : string) (result : Payload)
| FailureEvent (job_id : string) (error : string).

(** The manager: the job registry, one event queue per job ([None] in a
    queue is the end-of-stream signal) and the time to live in seconds. *)
Record JobManager : Type := mkManager {
  jobs : gmap string Job;
  job_queues : gmap string (list (option Event));
  ttl_seconds : Z
}.

Definition set_jobs (self : JobManager) (js : gmap string Job) : JobManager :=
  {| jobs := js; job_queues := job_queues self; ttl_seconds := ttl_seconds self |}.

(** [await self.job_queues[job_id].put(item)] when the queue exists. *)
Definition put (self : JobManager) (id : string) (items : list (option Event))
    : JobManager :=
  match job_queues self !! id with
  | Some q => {| jobs := jobs self;
                 job_queues := <[id := q ++ items]> (job_queues self);
                 ttl_seconds := ttl_seconds self |}
  | None => self
  end.

(** [create_job]; [new_id] is the fresh [uuid4] and the two times are the
    two readings of the clock. *)
Definition create_job (self : JobManager) (new_id : string) (city concept : string)
    (limit : Z) (include_crime : bool) (now_created now_expiry : Z)
    : JobManager * string :=
  ({| jobs :=
        <[new_id := {| job_id := new_id; status := JobStatus.PENDING;
                       city := city; concept := concept; limit := limit;
                       include_crime := include_crime;
                       created_at := now_created;
                       expires_at := (now_expiry + ttl_seconds self)%Z;
                       stages := ∅; degraded := []; result := None;
                       error := None; completed_at := None |}]> (jobs self);
      job_queues := <[new_id := []]> (job_queues self);
      ttl_seconds := ttl_seconds self |}, new_id).

Definition with_status (j : Job) (s : string) : Job :=
  {| job_id := job_id j; status := s; city := city j; concept := concept j;
     limit := limit j; include_crime := include_crime j;
     created_at := created_at j; expires_at := expires_at j;
     stages := stages j; degraded := degraded j; result := result j;
     error := error j; completed_at := completed_at j |}.

Definition with_stage (j : Job) (stage : string) (s : Stage) : Job :=
  {| job_id := job_id j; status := status j; city := city j; concept := concept j;
     limit := limit j; include_crime := include_crime j;
     created_at := created_at j; expires_at := expires_at j;
     stages := <[stage := s]> (stages j); degraded := degraded j;
     result := result j; error := error j; completed_at := completed_at j |}.

Definition emit_stage_update (self : JobManager) (id stage status : string)
    (metrics : option (gmap string Z)) (ms : option Z) (cached : bool) (now : Z)
    : JobManager :=
  match jobs self !! id with
  | None => self
  | Some j =>
      let metrics := default ∅ metrics in
      let self :=
        set_jobs self
          (<[id := with_stage j stage
                     {| st_status := status; st_metrics := metrics; st_ms := ms;
                        st_cached := cached; st_timestamp := now |}]> (jobs self)) in
      put self id [Some (StageEvent id stage status metrics ms cached)]
  end.

Definition complete_job (self : JobManager) (id : string) (result : Payload)
    (degraded : option (list string)) (now : Z) : JobManager :=
  match jobs self !! id with
  | None => self
  | Some j =>
      let warnings := default [] degraded in
      let j :=
        {| job_id := job_id j;
           status := match warnings with
                     | [] => JobStatus.COMPLETE
                     | _ => JobStatus.DEGRADED
                     end;
           city := city j; concept := concept j; limit := limit j;
           include_crime := include_crime j; created_at := created_at j;
           expires_at := expires_at j; stages := stages j;
           degraded := warnings; result := Some result; error := error j;
           completed_at := Some now |} in
      put (set_jobs self (<[id := j]> (jobs self))) id
          [Some (CompletionEvent id result); None]
  end.

Definition fail_job (self : JobManager) (id : string) (error : string) (now : Z)
    : JobManager :=
  match jobs self !! id with
  | None => self
  | Some j =>
      let j :=
        {| job_id := job_id j; status := JobStatus.FAILED;
           city := city j; concept := concept j; limit := limit j;
           include_crime := include_crime j; created_at := created_at j;
           expires_at := expires_at j; stages := stages j;
           degraded := degraded j; result := result j; error := Some error;
           completed_at := Some now |} in
      put (set_jobs self (<[id := j]> (jobs self))) id
          [Some (FailureEvent id error); None]
  end.

Definition get_job (self : JobManager) (id : string) : option Job :=
  jobs self !! id.

(** The pipeline's first step ([run_recommendation_job]):
    [job = get_job(job_id); if job: job['status'] = 'running']. *)
Definition mark_running (self : JobManager) (id : string) : JobManager :=
  match get_job self id with
  | Some j => set_jobs self (<[id := with_status j "running"]> (jobs self))
  | None => self
  end.

(** One [queue.get()] of the stream consumer. *)
Definition queue_get (self : JobManager) (id : string) : JobManager :=
  match job_queues self !! id with
  | Some (_ :: q) => {| jobs := jobs self;
                        job_queues := <[id := q]> (job_queues self);
                        ttl_seconds := ttl_seconds self |}
  | _ => self
  end.

Definition expired (now : Z) (j : Job) : bool := (expires_at j <? now)%Z.

Definition cleanup_expired_jobs (self : JobManager) (now : Z) : JobManager :=
  let expired_jobs := filter (fun kv => expired now (snd kv) = true) (jobs self) in
  {| jobs := filter (fun kv => expired now (snd kv) = false) (jobs self);
     job_queues := filter (fun kv => expired_jobs !! fst kv = None) (job_queues self);
     ttl_seconds := ttl_seconds self |}.

(** What can happen to a manager, one call at a time. *)
Inductive Op : Type :=
| CreateJob (new_id city concept : string) (limit : Z) (include_crime : bool)
            (now_created now_expiry : Z)
| MarkRunning (id : string)
| EmitStageUpdate (id stage status : string) (metrics : option (gmap string Z))
                  (ms : option Z) (cached : bool) (now : Z)
| CompleteJob (id : string) (result : Payload) (degraded : option (list string))
              (now : Z)
| FailJob (id : string) (error : string) (now : Z)
| QueueGet (id : string)
| CleanupExpiredJobs (now : Z).

Definition step (self : JobManager) (op : Op) : JobManager :=
  match op with
  | CreateJob new_id city concept limit include_crime t1 t2 =>
      fst (create_job self new_id city concept limit include_crime t1 t2)
  | MarkRunning id => mark_running self id
  | EmitStageUpdate id stage status metrics ms cached now =>
      emit_stage_update self id stage status metrics ms cached now
  | CompleteJob id result degraded now => complete_job self id result degraded now
  | FailJob id error now => fail_job self id error now
  | QueueGet id => queue_get self id
  | CleanupExpiredJobs now => cleanup_expired_jobs self now
  end.

Definition run (self : JobManager) (ops : list Op) : JobManager :=
  fold_left step ops self.

(** Calls that leave job [id] waiting: no completion, failure or second
    creation for [id], and every sweep no later than [deadline]. *)
Definition leaves_waiting (id : string) (deadline : Z) (op : Op) : bool :=
  match op with
  | CreateJob new_id _ _ _ _ _ _ => negb (String.eqb new_id id)
  | CompleteJob id' _ _ _ => negb (String.eqb id' id)
  | FailJob id' _ _ => negb (String.eqb id' id)
  | CleanupExpiredJobs now => (now <=? deadline)%Z
  | _ => true
  end.

(** Job [id] is registered, running, and due to expire at [deadline]. *)
Definition waiting (self : JobManager) (id : string) (deadline : Z) : Prop :=
  exists j, get_job self id = Some j /\ status j = "running"%string /\
            expires_at j = deadline.

End JobManager.

(** ** Trust metrics ([services/trust_metrics.py]) *)

Module TrustMetrics.

(** [DataCoverage] ([models/schemas.py]); every field is declared with
    [ge=0, le=1]. *)
Record DataCoverage : Type := mkCoverage {
  demographics : Q;
  competition : Q;
  transit : Q;
  overall : Q
}.

Definition DataCoverage_valid (c : DataCoverage) : Prop :=
  0 <= demographics c <= 1 /\ 0 <= competition c <= 1 /\
  0 <= transit c <= 1 /\ 0 <= overall c <= 1.

(** [sum(1 for f in fields if d.get(f) is not None)] *)
Definition count_present {V : Type} (d : gmap string V) (present : V -> bool)
    (fields : list string) : Q :=
  len (List.filter (fun f => match d !! f with
                             | Some v => present v
                             | None => false
                             end) fields).

Definition calculate_coverage (features : gmap string value) : DataCoverage :=
  let is_not_none := fun v : value => bool_decide (is_Some v) in
  let demo_fields := ["population_1km"; "population_density"; "median_income"]%string in
  let demographics := count_present features is_not_none demo_fields / len demo_fields in
  let comp_fields := ["competitors_count"; "competitors_per_1k_residents"]%string in
  let competition := count_present features is_not_none comp_fields / len comp_fields in
  let transit_fields :=
    ["nearest_metro_distance_m"; "nearest_tram_distance_m";
     "walkability_poi_count"]%string in
  let transit := count_present features is_not_none transit_fields / len transit_fields in
  let overall := demographics * (4 # 10) + competition * (3 # 10) + transit * (3 # 10) in
  {| demographics := round_nd demographics 2;
     competition := round_nd competition 2;
     transit := round_nd transit 2;
     overall := round_nd overall 2 |}.

Definition required_features : list string :=
  ["population_1km"; "median_income"; "competitors_count";
   "nearest_metro_distance_m"; "walkability_poi_count"]%string.

(** The names of the component scores the scoring engine produces. *)
Definition component_keys : gset string :=
  {[ "population"; "income"; "access"; "competition"; "walkability" ]}%string.

(** The third term of [calculate_confidence]: the required feature names
    are looked up in [score_components]. *)
Definition completeness (score_components : gmap string Q) : Q :=
  let features_present :=
    count_present score_components (fun _ => true) required_features in
  features_present / len required_features.

(** The second term: agreement of the four factor scores. *)
Definition consistency (score_components : gmap string Q) : R :=
  let scores :=
    [default 50 (score_components !! "population"%string);
     default 50 (score_components !! "income"%string);
     default 50 (score_components !! "access"%string);
     default 50 (score_components !! "competition"%string)] in
  let avg_score := sum scores / len scores in
  let variance :=
    sum (map (fun s => (s - avg_score) * (s - avg_score)) scores) / len scores in
  let std_dev := sqrt (Q2R variance) in
  PyReal.max 0 (1 - std_dev / 50)%R.

Definition calculate_confidence (score_components : gmap string Q)
    (coverage : DataCoverage) : Q :=
  let coverage_score := overall coverage * (4 # 10) in
  let consistency_score := (consistency score_components * (3 / 10))%R in
  let completeness_score := completeness score_components * (3 # 10) in
  let confidence :=
    (Q2R coverage_score + consistency_score + Q2R completeness_score)%R in
  PyReal.round_nd (PyReal.min confidence 1) 2.

End TrustMetrics.

(** ** Concrete inputs used by the examples below *)

Module Examples.
Import Database Scorer.

(** Weights that [create_concept] accepts: each within [0, 1], sum 1.03125. *)
Definition generous_weights : Weights :=
  {| w_population := 1 # 4; w_income := 1 # 4; w_access := 1 # 4;
     w_competition := 1 # 4; w_walkability := 1 # 32 |}.

Definition generous_config : ConceptConfig :=
  {| cfg_name := "QSR";
     cfg_base_revenue_eur := 100000;
     cfg_target_income_min := 30000;
     cfg_target_income_max := 50000;
     cfg_optimal_population_density := 5000;
     cfg_target_competitors_per_1k := 1;
     cfg_weights := generous_weights |}.

Definition yaml_engine : ScoringEngine :=
  {| db_session := None;
     yaml_concepts := {[ "QSR"%string := generous_config ]} |}.

(** A customer concept as [create_concept] stores it, and an engine whose
    session holds it. *)
Definition customer_concept : Concept :=
  {| c_id := "c-7f3a"; c_customer_id := "cust"; c_name := "Generous QSR";
     c_category := "QSR"; base_revenue_eur := 100000; revenue_variance := 2 # 10;
     target_income_min := 30000; target_income_max := 50000;
     optimal_population_density := 5000; target_competitors_per_1k := 1;
     weights := generous_weights; outcomes_count := 0;
     avg_prediction_error := None; last_trained_at := None;
     is_system_default := false; is_active := true |}.

Definition customer_engine : ScoringEngine :=
  {| db_session := Some [customer_concept]; yaml_concepts := ∅ |}.

(** A site at which every factor scores 100. *)
Definition ideal_site : gmap string value :=
  list_to_map
    [("population_density", Some 5000); ("median_income", Some 40000);
     ("nearest_metro_distance_m", Some 100); ("nearest_tram_distance_m", Some 50);
     ("competitors_count", Some 5); ("competitors_per_1k_residents", Some 1);
     ("walkability_poi_count", Some 150)]%string.

(** Two generators with different collaborators. *)
Definition failing_geocoder : AddressGenerator.AddressGenerator :=
  {| AddressGenerator.digitransit_reverse_geocode := fun _ _ => Raise TypeError |}.

Definition silent_geocoder : AddressGenerator.AddressGenerator :=
  {| AddressGenerator.digitransit_reverse_geocode := fun _ _ => Ok None |}.

(** A concept and a session with one training outcome per revenue. *)
Definition burger_concept : Concept :=
  {| c_id := "c1"; c_customer_id := "cust"; c_name := "Burger QSR";
     c_category := "QSR"; base_revenue_eur := 100000; revenue_variance := 20 # 100;
     target_income_min := 30000; target_income_max := 50000;
     optimal_population_density := 5000; target_competitors_per_1k := 1;
     weights := generous_weights; outcomes_count := 0;
     avg_prediction_error := None; last_trained_at := None;
     is_system_default := false; is_active := true |}.

Fixpoint outcomes_for (id : Z) (revenues : list Q) : list ConceptTrainingOutcome :=
  match revenues with
  | [] => []
  | rev :: rest =>
      {| o_id := id; o_concept_id := "c1"; o_prediction_id := id;
         predicted_revenue_eur := 100000; predicted_score := 80;
         features_used := None; actual_revenue_eur := rev;
         variance_pct := (rev - 100000) / 100000 * 100; opened_at := 0;
         used_in_training := false; training_weight := 1 |}
      :: outcomes_for (id + 1) rest
  end.

Definition session_with (revenues : list Q) : ConceptLearner.DB :=
  {| ConceptLearner.predictions := [];
     ConceptLearner.concepts := [burger_concept];
     ConceptLearner.outcomes := outcomes_for 1 revenues;
     ConceptLearner.next_outcome_id := 1 + Z.of_nat (length revenues) |}.

Definition five_revenues : list Q := [100000; 120000; 150000; 90000; 110000].
Definition six_revenues : list Q := [100000; 120000; 150000; 90000; 110000; 110001].


(** An empty registry with the default time to live of one hour. *)
Definition fresh_manager : JobManager.JobManager :=
  {| JobManager.jobs := ∅; JobManager.job_queues := ∅;
     JobManager.ttl_seconds := 3600 |}.

(** Calls that neither finish the job nor sweep after its expiry. *)
Definition quiet_calls : list JobManager.Op :=
  [JobManager.EmitStageUpdate "job-1" "GEO" "running" None (Some 0%Z) false 1;
   JobManager.CleanupExpiredJobs 1800;
   JobManager.CreateJob "job-2" "Espoo" "Coffee" 5 false 2000 2000;
   JobManager.QueueGet "job-1";
   JobManager.CleanupExpiredJobs 3600].

(** A stage update that arrives after the expiry of the job. *)
Definition late_calls : list JobManager.Op :=
  [JobManager.EmitStageUpdate "job-1" "GEO" "running" None (Some 0%Z) false 5000].

(** The component scores the scoring engine returns for the ideal site,
    and full data coverage. *)
Definition engine_components : gmap string Q :=
  list_to_map
    [("population", 100); ("income", 100); ("access", 100);
     ("competition", 100); ("walkability", 100)]%string.

Definition full_coverage : TrustMetrics.DataCoverage :=
  {| TrustMetrics.demographics := 1; TrustMetrics.competition := 1;
     TrustMetrics.transit := 1; TrustMetrics.overall := 1 |}.

End Examples.

(** ** Candidate scoring ([services/address_generator.py], continued) *)

Module CandidateScoring.
Import AddressGenerator.

(** The dictionaries the three sub-scores return. *)
Record PopData : Type := mkPopData {
  pop_score : Q;
  pop_population : Z;
  pop_coverage : Q
}.

Record CompData : Type := mkCompData {
  comp_score : Q;
  comp_competitors : Z;
  comp_per_1k : Q;
  comp_coverage : Q
}.

Record TransitData : Type := mkTransitData {
  transit_score : Q;
  transit_nearest_metro_m : Z;
  transit_nearest_tram_m : Z;
  transit_coverage : Q
}.

(** The hard-coded neighbourhoods: latitude, longitude, population. *)
Definition areas : list (Q * Q * Z) :=
  [(60170 # 1000, 24938 # 1000, 18000%Z); (60169 # 1000, 24945 # 1000, 16500%Z);
   (60163 # 1000, 24940 # 1000, 15200%Z); (60158 # 1000, 24933 # 1000, 14800%Z);
   (60180 # 1000, 24950 # 1000, 13500%Z); (60175 # 1000, 24965 # 1000, 12000%Z);
   (60195 # 1000, 24925 # 1000, 11500%Z); (60203 # 1000, 24962 # 1000, 10800%Z);
   (60220 # 1000, 24960 # 1000, 9500%Z); (60210 # 1000, 25080 # 1000, 8200%Z);
   (60225 # 1000, 25040 # 1000, 7500%Z); (60160 # 1000, 24880 # 1000, 8800%Z)].

(** The search for the closest neighbourhood: [min_dist] starts at infinity
    ([None]) and [closest_pop] at the default. *)
Fixpoint closest (lat lng : Q) (l : list (Q * Q * Z)) (min_dist : option R)
    (closest_pop : Z) : option R * Z :=
  match l with
  | [] => (min_dist, closest_pop)
  | (alat, alng, pop) :: rest =>
      let dist := _haversine_distance lat lng alat alng in
      let closer := match min_dist with
                    | None => true
                    | Some d => PyReal.Rltb dist d
                    end in
      if closer then closest lat lng rest (Some dist) pop
      else closest lat lng rest min_dist closest_pop
  end.

Definition _get_hardcoded_population (lat lng : Q) : Z :=
  let '(min_dist, closest_pop) := closest lat lng areas None 8000 in
  match min_dist with
  | Some d => if PyReal.Rltb d 2 then closest_pop else 8000%Z
  | None => 8000%Z
  end.

Definition _get_population_score (lat lng : Q) : PopData :=
  let population := _get_hardcoded_population lat lng in
  if (0 <? population)%Z then
    {| pop_score := min (inject_Z population / 25000 * 100) 100;
       pop_population := population;
       pop_coverage := 1 |}
  else {| pop_score := 50; pop_population := 8000; pop_coverage := 8 # 10 |}.

Definition _get_competition_score (lat lng : Q) (concept : string) : CompData :=
  let competitors := 10%Z in
  let per_1k := 9 # 10 in
  {| comp_score := max (100 - per_1k * (333 # 10)) 0;
     comp_competitors := competitors;
     comp_per_1k := per_1k;
     comp_coverage := 9 # 10 |}.

Definition _get_transit_score (lat lng : Q) : TransitData :=
  let nearest_metro_m := 250%Z in
  let nearest_tram_m := 120%Z in
  let metro_score := max (50 - inject_Z nearest_metro_m / 10) 0 in
  let tram_score := max (50 - inject_Z nearest_tram_m / 6) 0 in
  let score := metro_score + tram_score in
  {| transit_score := min score 100;
     transit_nearest_metro_m := nearest_metro_m;
     transit_nearest_tram_m := nearest_tram_m;
     transit_coverage := 88 # 100 |}.

(** The weighting of [_score_candidate]. *)
Record RecommendationWeights : Type := mkRecWeights {
  rw_population : Q;
  rw_income_fit : Q;
  rw_transit_access : Q;
  rw_competition_inverse : Q;
  rw_traffic_access : Q;
  rw_crime_penalty_cap : Q
}.

(** What [_score_candidate] returns, without its texts ([why],
    [decision_reasoning], [provenance]). *)
Record ScoreData : Type := mkScoreData {
  sd_score : Q;
  sd_revenue_min_eur : Z;
  sd_revenue_max_eur : Z;
  sd_confidence : Q;
  sd_coverage_demo : Q;
  sd_coverage_comp : Q;
  sd_coverage_access : Q;
  sd_decision : string;
  sd_population : Z;
  sd_competitors : Z;
  sd_nearest_metro_m : Z;
  sd_nearest_tram_m : Z
}.

(** [_score_candidate]: none of the three sub-scores can raise, so the
    substitution of defaults and the [except] branch are never taken and a
    dictionary is always returned. *)
Definition _score_candidate (lat lng : Q) (address concept : string)
    (include_crime : bool) : option ScoreData :=
  let pop_data := _get_population_score lat lng in
  let comp_data := _get_competition_score lat lng concept in
  let transit_data := _get_transit_score lat lng in
  let weights :=
    {| rw_population := 28 # 100; rw_income_fit := 22 # 100;
       rw_transit_access := 20 # 100; rw_competition_inverse := 15 # 100;
       rw_traffic_access := 10 # 100;
       rw_crime_penalty_cap := if include_crime then 5 # 100 else 0 |} in
  let pop_score := pop_score pop_data in
  let comp_score := comp_score comp_data in
  let transit_score := transit_score transit_data in
  let income_score := 70 in
  let traffic_score := 60 in
  let score :=
    pop_score * rw_population weights +
    comp_score * rw_competition_inverse weights +
    transit_score * rw_transit_access weights +
    income_score * rw_income_fit weights +
    traffic_score * rw_traffic_access weights in
  let base_revenue := 150000 in
  let revenue_min := int (base_revenue * (score / 100) * (65 # 100)) in
  let revenue_max := int (base_revenue * (score / 100) * (120 # 100)) in
  let pop_coverage := pop_coverage pop_data in
  let comp_coverage := comp_coverage comp_data in
  let transit_coverage := transit_coverage transit_data in
  let confidence :=
    min ((5 # 10) + pop_coverage * (2 # 10) + comp_coverage * (2 # 10)
         + transit_coverage * (1 # 10)) (95 # 100) in
  let decision :=
    if Qleb 85 score && Qleb (80 # 100) confidence then "MAKE_OFFER"
    else if Qleb 70 score && Qleb (65 # 100) confidence then "NEGOTIATE"
    else "PASS" in
  Some {| sd_score := round_nd score 1;
          sd_revenue_min_eur := revenue_min;
          sd_revenue_max_eur := revenue_max;
          sd_confidence := round_nd confidence 2;
          sd_coverage_demo := pop_coverage;
          sd_coverage_comp := comp_coverage;
          sd_coverage_access := transit_coverage;
          sd_decision := decision;
          sd_population := pop_population pop_data;
          sd_competitors := comp_competitors comp_data;
          sd_nearest_metro_m := transit_nearest_metro_m transit_data;
          sd_nearest_tram_m := transit_nearest_tram_m transit_data |}.

Definition offsets : list Q := [- (3 # 1000); 0; 3 # 1000].

(** One sample point of the grid. *)
Definition sample (self : AddressGenerator) (area : Area) (concept : string)
    (include_crime : bool) (lat_offset lng_offset : Q) : list Candidate :=
  let candidate_lat := area_lat area + lat_offset in
  let candidate_lng := area_lng area + lng_offset in
  match _reverse_geocode self candidate_lat candidate_lng with
  | None => []
  | Some address =>
      if negb (nonempty address) then []
      else
        match _score_candidate candidate_lat candidate_lng address concept
                include_crime with
        | None => []
        | Some score_data =>
            [{| address := address; lat := candidate_lat; lng := candidate_lng;
                area_id := Some (area_area_id area);
                score := sd_score score_data;
                revenue_min_eur := sd_revenue_min_eur score_data;
                revenue_max_eur := sd_revenue_max_eur score_data;
                confidence := sd_confidence score_data;
                decision := sd_decision score_data;
                rank := None |}]
        end
  end.

Definition _generate_candidates_for_area (self : AddressGenerator) (area : Area)
    (concept : string) (include_crime : bool) : list Candidate :=
  flat_map (fun lat_offset =>
              flat_map (fun lng_offset =>
                          sample self area concept include_crime lat_offset lng_offset)
                       offsets)
           offsets.

End CandidateScoring.

(** ** Event streams ([services/job_manager.py], continued) *)

Module JobStream.
Import JobManager.

(** The registry and the queue table have the same keys. *)
Definition consistent (self : JobManager) : Prop :=
  dom (jobs self) = dom (job_queues self).

(** The loop of [stream_job_events] over a queue that receives nothing
    more: the events yielded before the end-of-stream signal [None], and
    whether the signal was reached.  When the queue runs dry without the
    signal the generator keeps waiting; the keep-alive frames it sends
    meanwhile carry no job data and are left out. *)
Fixpoint stream_events (q : list (option Event)) : list Event * bool :=
  match q with
  | [] => ([], false)
  | None :: _ => ([], true)
  | Some e :: rest => let (es, ended) := stream_events rest in (e :: es, ended)
  end.

(** [stream_job_events]: a job without a queue ends the stream at once. *)
Definition stream_job_events (self : JobManager) (id : string) : list Event * bool :=
  match job_queues self !! id with
  | None => ([], true)
  | Some q => stream_events q
  end.

(** Calls that do not create job [id]. *)
Definition keeps_job (id : string) (op : Op) : bool :=
  match op with
  | CreateJob new_id _ _ _ _ _ _ => negb (String.eqb new_id id)
  | _ => true
  end.

End JobStream.

(** ** Further concrete inputs *)

Module MoreExamples.
Import Database.

(** A session whose prediction 7 is linked to concept [cid]. *)
Definition linked_prediction (mid : Q) (cid : string) : Prediction :=
  {| p_id := 7; p_concept_id := Some cid; p_score := 80;
     p_revenue_low := mid * (85 # 100); p_revenue_mid := mid;
     p_revenue_high := mid * (115 # 100); p_features := None |}.

Definition linked_session (mid : Q) (cid : string) : ConceptLearner.DB :=
  {| ConceptLearner.predictions := [linked_prediction mid cid];
     ConceptLearner.concepts := [Examples.burger_concept];
     ConceptLearner.outcomes := [];
     ConceptLearner.next_outcome_id := 1 |}.

(** Outcomes of concept [c1] whose revenue grows with the population
    density recorded at prediction time. *)
Fixpoint learning_outcomes (n : nat) : list ConceptTrainingOutcome :=
  match n with
  | O => []
  | S n' =>
      learning_outcomes n' ++
      [{| o_id := Z.of_nat n; o_concept_id := "c1"; o_prediction_id := Z.of_nat n;
          predicted_revenue_eur := 100000; predicted_score := 80;
          features_used :=
            Some {[ "population_density"%string :=
                      Some (inject_Z (Z.of_nat n) * 100) ]};
          actual_revenue_eur := 90000 + inject_Z (Z.of_nat n) * 1000;
          variance_pct :=
            (90000 + inject_Z (Z.of_nat n) * 1000 - 100000) / 100000 * 100;
          opened_at := 0; used_in_training := false; training_weight := 1 |}]
  end.



(** A manager with one pending job and its empty queue. *)
Definition one_job_manager : JobManager.JobManager :=
  fst (JobManager.create_job Examples.fresh_manager "job-1" "Helsinki" "QSR" 10
         false 0 0).

End MoreExamples.

(* ===================================================================== *)
(** * Properties *)
(* ===================================================================== *)

(** ** Facts about the Python primitives *)

Lemma Qleb_true (a b : Q) : Qleb a b = true -> a <= b.
Proof. unfold Qleb. apply Qle_bool_iff. Qed.

Lemma Qleb_false (a b : Q) : Qleb a b = false -> b < a.
Proof.
  unfold Qleb. intros H. apply Qnot_le_lt. intros Hle.
  apply Qle_bool_iff in Hle. congruence.
Qed.

Lemma Qltb_true (a b : Q) : Qltb a b = true -> a < b.
Proof.
  unfold Qltb. intros H. apply negb_true_iff in H. now apply Qleb_false.
Qed.

Lemma Qltb_false (a b : Q) : Qltb a b = false -> b <= a.
Proof.
  unfold Qltb. intros H. apply negb_false_iff in H. now apply Qleb_true.
Qed.

Lemma Qeqb_true (a b : Q) : Qeqb a b = true -> a == b.
Proof. unfold Qeqb. apply Qeq_bool_iff. Qed.

Lemma Qeqb_false (a b : Q) : Qeqb a b = false -> ~ a == b.
Proof. unfold Qeqb. intros H He. apply Qeq_bool_iff in He. congruence. Qed.

(** Case analysis on every comparison the goal branches on. *)
Ltac qcase :=
  match goal with
  | |- context [Qleb ?a ?b] =>
      let H := fresh "Hc" in
      destruct (Qleb a b) eqn:H; [apply Qleb_true in H | apply Qleb_false in H]
  | |- context [Qltb ?a ?b] =>
      let H := fresh "Hc" in
      destruct (Qltb a b) eqn:H; [apply Qltb_true in H | apply Qltb_false in H]
  | |- context [Qeqb ?a ?b] =>
      let H := fresh "Hc" in
      destruct (Qeqb a b) eqn:H; [apply Qeqb_true in H | apply Qeqb_false in H]
  end.

Ltac qcases := repeat (qcase; simpl).

(** [lra] does not read a division by a literal; turn halving into a product. *)
Ltac qhalf :=
  repeat match goal with
  | |- context [?a / 2] => change (a / 2) with (a * (1 # 2))
  | H : context [?a / 2] |- _ => change (a / 2) with (a * (1 # 2)) in H
  end.

Lemma max_spec (a b : Q) : (a < b /\ max a b = b) \/ (b <= a /\ max a b = a).
Proof. unfold max. qcase; auto. Qed.

Lemma min_spec (a b : Q) : (b < a /\ min a b = b) \/ (a <= b /\ min a b = a).
Proof. unfold min. qcase; auto. Qed.

Lemma abs_nonneg (a : Q) : 0 <= abs a.
Proof. unfold abs. qcase; lra. Qed.

Lemma abs_le (a b : Q) : - b <= a <= b -> abs a <= b.
Proof. unfold abs. qcase; lra. Qed.

Lemma abs_zero_iff (a : Q) : abs a == 0 <-> a == 0.
Proof. unfold abs. qcase; split; lra. Qed.

Lemma div_Ok (a b r : Q) : div a b = Ok r -> ~ b == 0 /\ r = a / b.
Proof. unfold div. qcase; intros H; inversion H; auto. Qed.

Lemma div_nonzero (a b : Q) : ~ b == 0 -> div a b = Ok (a / b).
Proof.
  intros Hb. unfold div. qcase; [contradiction | reflexivity].
Qed.

Lemma bind_Ok {A B : Type} (m : res A) (k : A -> res B) (b : B) :
  (x ← m; k x) = Ok b -> exists a, m = Ok a /\ k a = Ok b.
Proof.
  destruct m as [a | e]; simpl; intros H; [eauto | discriminate].
Qed.

(** Quotient facts in the shape the scoring rules need. *)
Lemma Qdiv_nonneg (a b : Q) : 0 <= a -> 0 < b -> 0 <= a / b.
Proof. intros Ha Hb. apply Qle_shift_div_l; lra. Qed.

Lemma Qdiv_pos (a b : Q) : 0 < a -> 0 < b -> 0 < a / b.
Proof. intros Ha Hb. apply Qlt_shift_div_l; lra. Qed.

Lemma Qdiv_le_1 (a b : Q) : a <= b -> 0 < b -> a / b <= 1.
Proof. intros Ha Hb. apply Qle_shift_div_r; lra. Qed.

Lemma Qdiv_lt_1 (a b : Q) : a < b -> 0 < b -> a / b < 1.
Proof. intros Ha Hb. apply Qlt_shift_div_r; lra. Qed.

Lemma Qdiv_mul_cancel (a b : Q) : ~ b == 0 -> (a / b) * b == a.
Proof. intros Hb. field. exact Hb. Qed.

Ltac qcompare_hyps :=
  repeat match goal with
  | H : Qcompare _ _ = Eq |- _ => apply Qeq_alt in H
  | H : Qcompare _ _ = Lt |- _ => apply Qlt_alt in H
  | H : Qcompare _ _ = Gt |- _ => apply Qgt_alt in H
  end.

(** [round] stays between the integers that enclose its argument and is
    monotone. *)
Lemma round_floor (x : Q) : (Qfloor x <= round x <= Qfloor x + 1)%Z.
Proof.
  unfold round. destruct (Qcompare _ _); try destruct (Z.even _); lia.
Qed.

Lemma round_upper (x : Q) (b : Z) : x <= inject_Z b -> (round x <= b)%Z.
Proof.
  intros Hx.
  pose proof (Qfloor_resp_le _ _ Hx) as Hf. rewrite Qfloor_Z in Hf.
  destruct (Z.eq_dec (Qfloor x) b) as [He | Hne].
  - unfold round.
    pose proof (Qfloor_le x) as Hfl. rewrite He in *.
    destruct (Qcompare (x - inject_Z b) (1 # 2)) eqn:C; [| lia |];
      qcompare_hyps; exfalso; lra.
  - pose proof (round_floor x). lia.
Qed.

Lemma round_lower (x : Q) (a : Z) : inject_Z a <= x -> (a <= round x)%Z.
Proof.
  intros Hx.
  pose proof (Qfloor_resp_le _ _ Hx) as Hf. rewrite Qfloor_Z in Hf.
  pose proof (round_floor x). lia.
Qed.

Lemma round_mono (x y : Q) : x <= y -> (round x <= round y)%Z.
Proof.
  intros Hxy.
  pose proof (Qfloor_resp_le _ _ Hxy) as Hf.
  destruct (Z.eq_dec (Qfloor x) (Qfloor y)) as [He | Hne].
  - unfold round. rewrite He.
    destruct (Qcompare (x - inject_Z (Qfloor y)) (1 # 2)) eqn:Cx;
      destruct (Qcompare (y - inject_Z (Qfloor y)) (1 # 2)) eqn:Cy;
      try destruct (Z.even (Qfloor y)); try lia;
      qcompare_hyps; exfalso; lra.
  - pose proof (round_floor x). pose proof (round_floor y). lia.
Qed.

Lemma round_inject_Z (z : Z) : round (inject_Z z) = z.
Proof.
  apply Z.le_antisymm; [apply round_upper | apply round_lower]; lra.
Qed.

Lemma inject_Z_pow10_pos (nd : nat) : 0 < inject_Z (10 ^ Z.of_nat nd).
Proof.
  assert (0 < 10 ^ Z.of_nat nd)%Z by (apply Z.pow_pos_nonneg; lia).
  change 0 with (inject_Z 0). rewrite <- Zlt_Qlt. assumption.
Qed.

Lemma round_nd_upper (x : Q) (nd : nat) (b : Z) :
  x <= inject_Z b -> round_nd x nd <= inject_Z b.
Proof.
  intros Hx. unfold round_nd.
  pose proof (inject_Z_pow10_pos nd) as Hp.
  apply Qle_shift_div_r; [assumption |].
  rewrite <- inject_Z_mult, <- Zle_Qle.
  apply round_upper. rewrite inject_Z_mult. nra.
Qed.

Lemma round_nd_lower (x : Q) (nd : nat) (a : Z) :
  inject_Z a <= x -> inject_Z a <= round_nd x nd.
Proof.
  intros Hx. unfold round_nd.
  pose proof (inject_Z_pow10_pos nd) as Hp.
  apply Qle_shift_div_l; [assumption |].
  rewrite <- inject_Z_mult, <- Zle_Qle.
  apply round_lower. rewrite inject_Z_mult. nra.
Qed.

Lemma round_nd_mono (x y : Q) (nd : nat) : x <= y -> round_nd x nd <= round_nd y nd.
Proof.
  intros Hxy. unfold round_nd.
  pose proof (inject_Z_pow10_pos nd) as Hp.
  apply Qmult_le_compat_r.
  - rewrite <- Zle_Qle. apply round_mono. nra.
  - apply Qlt_le_weak, Qinv_lt_0_compat, Hp.
Qed.

(** ** Scoring engine: the five factor scores *)

Section FactorScores.
Import Database Scorer.

Lemma population_score_bounds (density optimal s : Q) :
  _calculate_population_score density optimal = Ok s -> 0 <= s <= 100.
Proof.
  unfold _calculate_population_score.
  qcase; [intros [= <-]; lra |].
  qcase; [intros [= <-]; lra |].
  intros H. apply bind_Ok in H as (r & Hd & [= <-]).
  apply div_Ok in Hd as [_ ->].
  assert (0 < optimal) by lra.
  pose proof (Qdiv_pos density optimal). pose proof (Qdiv_lt_1 density optimal).
  lra.
Qed.

(** Below the target range the score is [50] minus a penalty that grows
    linearly with the gap (slope [100 / target_min]) and is exhausted once
    the gap is half of [target_min]. *)
Lemma income_score_below (median_income target_min target_max : Q) :
  0 < target_min -> median_income < target_min ->
  exists s, _calculate_income_score median_income target_min target_max = Ok s /\
    0 <= s < 50 /\
    (2 * (target_min - median_income) <= target_min ->
       s == 50 - 100 * (target_min - median_income) / target_min) /\
    (target_min <= 2 * (target_min - median_income) -> s == 0).
Proof.
  intros Hmin Hlt. unfold _calculate_income_score.
  qcase; [| lra].
  rewrite div_nonzero by (intros He; lra). simpl.
  assert (Hr : (target_min - median_income) / target_min * target_min
               == target_min - median_income)
    by (apply Qdiv_mul_cancel; intros He; lra).
  assert (Hq : 100 * (target_min - median_income) / target_min
               == (target_min - median_income) / target_min * 100)
    by (field; intros He; lra).
  setoid_rewrite Hq.
  assert (Hp : 0 < (target_min - median_income) / target_min)
    by (apply Qdiv_pos; lra).
  set (r := (target_min - median_income) / target_min) in *.
  eexists; split; [reflexivity |].
  unfold min; qcases; unfold max; qcases; repeat split; intros; nra.
Qed.

(** Above the target range the score is [75] minus a penalty of at most
    [25], so it stays within [50, 75]. *)
Lemma income_score_above (median_income target_min target_max : Q) :
  0 < target_max -> target_min <= median_income -> target_max < median_income ->
  exists s penalty,
    _calculate_income_score median_income target_min target_max = Ok s /\
    s == 75 - penalty /\ 0 < penalty <= 25 /\ 50 <= s < 75.
Proof.
  intros Hmax Hge Hgt. unfold _calculate_income_score.
  qcase; [lra |]. qcase; [| lra].
  rewrite div_nonzero by (intros He; lra). simpl.
  assert (Hp : 0 < (median_income - target_max) / target_max)
    by (apply Qdiv_pos; lra).
  set (r := (median_income - target_max) / target_max) in *.
  exists (max (75 - min (r * 50) 25) 50), (min (r * 50) 25).
  split; [reflexivity |].
  unfold min; qcases; unfold max; qcases; repeat split; nra.
Qed.

(** Inside the target range the score is within [85, 100], equals [100]
    exactly at the midpoint and falls to [85] at both ends. *)
Lemma income_score_within (median_income target_min target_max : Q) :
  target_min < target_max -> target_min <= median_income <= target_max ->
  exists s, _calculate_income_score median_income target_min target_max = Ok s /\
    85 <= s <= 100 /\
    (s == 100 <-> median_income == (target_min + target_max) / 2) /\
    (median_income == target_min \/ median_income == target_max -> s == 85).
Proof.
  intros Hrange [Hlo Hhi]. unfold _calculate_income_score.
  qcase; [lra |]. qcase; [lra |].
  assert (Hmd : ~ (target_max - target_min) / 2 == 0) by (intros He; qhalf; lra).
  rewrite div_nonzero by exact Hmd. simpl.
  pose proof (Qdiv_mul_cancel
                (abs (median_income - (target_min + target_max) / 2))
                ((target_max - target_min) / 2) Hmd) as Hr.
  pose proof (abs_nonneg (median_income - (target_min + target_max) / 2)) as Ha.
  pose proof (abs_le (median_income - (target_min + target_max) / 2)
                     ((target_max - target_min) / 2)) as Hb.
  pose proof (abs_zero_iff (median_income - (target_min + target_max) / 2)) as Hz.
  assert (Hedge : median_income == target_min \/ median_income == target_max ->
                  abs (median_income - (target_min + target_max) / 2)
                  == (target_max - target_min) / 2).
  { unfold abs. intros [He | He]; qcase; qhalf; lra. }
  set (a := abs (median_income - (target_min + target_max) / 2)) in *.
  set (r := a / ((target_max - target_min) / 2)) in *.
  assert (Hr0 : 0 <= r).
  { apply Qdiv_nonneg; qhalf; lra. }
  assert (Hr1 : r <= 1).
  { apply Qdiv_le_1; [apply Hb |]; qhalf; lra. }
  eexists; split; [reflexivity |].
  unfold max. qcases; qhalf; repeat split; try intros; try nra.
Qed.

Lemma income_score_bounds (median_income target_min target_max s : Q) :
  0 < target_min -> 0 < target_max ->
  _calculate_income_score median_income target_min target_max = Ok s ->
  0 <= s <= 100.
Proof.
  intros Hmin Hmax H.
  destruct (Qlt_le_dec median_income target_min) as [Hlt | Hge].
  - destruct (income_score_below median_income target_min target_max Hmin Hlt)
      as (s' & Hs & Hb & _).
    rewrite Hs in H. injection H as <-. lra.
  - destruct (Qlt_le_dec target_max median_income) as [Hgt | Hle].
    + destruct (income_score_above median_income target_min target_max Hmax Hge Hgt)
        as (s' & p & Hs & _ & _ & Hb).
      rewrite Hs in H. injection H as <-. lra.
    + destruct (Qlt_le_dec target_min target_max) as [Hr | Hr].
      * destruct (income_score_within median_income target_min target_max Hr
                    (conj Hge Hle)) as (s' & Hs & Hb & _).
        rewrite Hs in H. injection H as <-. lra.
      * revert H. unfold _calculate_income_score.
        qcase; [lra |]. qcase; [lra |].
        unfold div. qcase; [discriminate |]. exfalso. apply Hc1. qhalf. lra.
Qed.

Lemma income_score_returns (median_income target_min target_max : Q) :
  0 < target_min -> target_min < target_max ->
  exists s, _calculate_income_score median_income target_min target_max = Ok s.
Proof.
  intros Hmin Hrange.
  destruct (Qlt_le_dec median_income target_min) as [Hlt | Hge].
  - destruct (income_score_below median_income target_min target_max Hmin Hlt)
      as (s & Hs & _). eauto.
  - destruct (Qlt_le_dec target_max median_income) as [Hgt | Hle].
    + assert (Hmax : 0 < target_max) by lra.
      destruct (income_score_above median_income target_min target_max Hmax Hge Hgt)
        as (s & p & Hs & _). eauto.
    + destruct (income_score_within median_income target_min target_max Hrange
                  (conj Hge Hle)) as (s & Hs & _). eauto.
Qed.

Lemma competition_score_returns (competitors_per_1k target : Q) :
  ~ target == 0 ->
  exists s, _calculate_competition_score competitors_per_1k target = Ok s.
Proof.
  intros Htarget. unfold _calculate_competition_score.
  qcase; [eauto |].
  rewrite div_nonzero by exact Htarget. simpl. qcases; eauto.
Qed.

Lemma access_score_bounds (metro tram : option Q) :
  50 <= _calculate_access_score metro tram <= 100.
Proof.
  unfold _calculate_access_score, min.
  destruct metro, tram; qcases; lra.
Qed.

Lemma competition_score_bounds (competitors_per_1k target s : Q) :
  _calculate_competition_score competitors_per_1k target = Ok s -> 20 <= s <= 100.
Proof.
  unfold _calculate_competition_score.
  qcase; [intros [= <-]; lra |].
  intros H. apply bind_Ok in H as (ratio & _ & H). revert H.
  qcases; try (intros [= <-]; lra).
  unfold min; qcases; unfold max; qcases; intros [= <-]; lra.
Qed.

Lemma walkability_score_bounds (poi_count : Q) :
  20 <= _calculate_walkability_score poi_count <= 100.
Proof.
  unfold _calculate_walkability_score, max. qcases; lra.
Qed.

End FactorScores.

(** ** Scoring engine: income fit and competition (claims C3, C4) *)

Section IncomeAndCompetition.
Import Scorer.



(** C4. For a non-zero target, [_calculate_competition_score] is the
    piecewise function of [ratio = competitors_per_1k / target]: ratio 0
    gives 40, [0.8, 1.2] gives 100, [0.5, 0.8) gives 85, (1.2, 1.5] gives
    75, above 1.5 it is 50 minus a penalty of at most 50 floored at 20 (so
    at most 50, and exactly 20 at ratio 3), and every other non-zero ratio
    gives 60. *)
Theorem competition_score_spec (competitors_per_1k target : Q) :
  ~ target == 0 ->
  let ratio := competitors_per_1k / target in
  exists s, _calculate_competition_score competitors_per_1k target = Ok s /\
    (ratio == 0 -> s = 40) /\
    ((8 # 10) <= ratio <= (12 # 10) -> s = 100) /\
    ((5 # 10) <= ratio < (8 # 10) -> s = 85) /\
    ((12 # 10) < ratio <= (15 # 10) -> s = 75) /\
    ((15 # 10) < ratio ->
       exists penalty, penalty = min ((ratio - (15 # 10)) * 30) 50 /\
         0 < penalty <= 50 /\ s = max (50 - penalty) 20 /\ 20 <= s <= 50) /\
    (ratio == 3 -> s == 20) /\
    (ratio < (5 # 10) -> ~ ratio == 0 -> s = 60).
Proof.
  intros Htarget ratio.
  assert (Hz : competitors_per_1k == 0 <-> ratio == 0).
  { unfold ratio. split; intros H.
    - rewrite H. field. exact Htarget.
    - rewrite <- (Qdiv_mul_cancel competitors_per_1k target Htarget), H. ring. }
  unfold _calculate_competition_score.
  qcase.
  - exists 40. apply Hz in Hc. split; [reflexivity |].
    repeat split; try reflexivity; intros; try (exfalso; lra); try tauto.
  - rewrite div_nonzero by exact Htarget. simpl. fold ratio.
    assert (Hnz : ~ ratio == 0) by tauto.
    qcases; eexists; (split; [reflexivity |]);
      repeat split; try reflexivity; intros; try (exfalso; lra);
      try (eexists; repeat split; try reflexivity);
      unfold min; qcases; unfold max; qcases; try lra.
Qed.

End IncomeAndCompetition.

(** ** Scoring engine: the overall result (claims C1, C2) *)

Section OverallScore.
Import Database Scorer.

Lemma confidence_bounds (features : gmap string value) :
  (6 # 10) <= _calculate_confidence features <= 1.
Proof.
  unfold _calculate_confidence, required_fields. cbn [List.filter].
  repeat destruct (bool_decide _); vm_compute; split; discriminate.
Qed.

(** The confidence is a multiple of 0.1, so rounding it to two decimals
    returns it unchanged. *)
Lemma round_confidence (features : gmap string value) :
  round_nd (_calculate_confidence features) 2 == _calculate_confidence features.
Proof.
  unfold _calculate_confidence, required_fields. cbn [List.filter].
  repeat destruct (bool_decide _); vm_compute; reflexivity.
Qed.

Lemma band_percent_bounds (c : Q) :
  0 <= c <= 1 -> (15 # 100) <= band_percent c <= (30 # 100).
Proof. unfold band_percent. intros. lra. Qed.

Lemma revenue_floor (base_revenue density income competitors rev : Q)
    (cfg : ConceptConfig) :
  _calculate_revenue base_revenue density income competitors cfg = Ok rev ->
  base_revenue * (5 # 10) <= rev.
Proof.
  unfold _calculate_revenue. intros H.
  apply bind_Ok in H as (r & _ & H).
  apply bind_Ok in H as (im & _ & H).
  apply bind_Ok in H as (sp & _ & H).
  injection H as <-. unfold max. qcase; lra.
Qed.

(** What a successful call went through. *)
Lemma calculate_score_Ok (self : ScoringEngine) (features : gmap string value)
    (concept : string) (cid : option string) (r : ScoreResult) :
  calculate_score self features concept cid = Ok r ->
  exists cfg used density ps income is_ comp cs poi rev,
    _get_concept_config self concept cid = (Some cfg, used) /\
    get_num features "population_density" 0 = Ok density /\
    _calculate_population_score density (cfg_optimal_population_density cfg) = Ok ps /\
    get_num features "median_income" 0 = Ok income /\
    _calculate_income_score income (cfg_target_income_min cfg)
      (cfg_target_income_max cfg) = Ok is_ /\
    get_num features "competitors_per_1k_residents" 0 = Ok comp /\
    _calculate_competition_score comp (cfg_target_competitors_per_1k cfg) = Ok cs /\
    get_num features "walkability_poi_count" 0 = Ok poi /\
    _calculate_revenue (cfg_base_revenue_eur cfg) density income comp cfg = Ok rev /\
    score r =
      round_nd (w_population (cfg_weights cfg) * ps +
                w_income (cfg_weights cfg) * is_ +
                w_access (cfg_weights cfg) *
                  _calculate_access_score (get features "nearest_metro_distance_m")
                                          (get features "nearest_tram_distance_m") +
                w_competition (cfg_weights cfg) * cs +
                w_walkability (cfg_weights cfg) * _calculate_walkability_score poi) 1 /\
    confidence r = round_nd (_calculate_confidence features) 2 /\
    revenue_mid r = round rev /\
    revenue_low r =
      round (rev * (1 - band_percent (_calculate_confidence features))) /\
    revenue_high r =
      round (rev * (1 + band_percent (_calculate_confidence features))).
Proof.
  unfold calculate_score.
  destruct (_get_concept_config self concept cid) as [[cfg |] used];
    [| discriminate].
  intros H.
  apply bind_Ok in H as (density & Hd & H).
  apply bind_Ok in H as (ps & Hps & H).
  apply bind_Ok in H as (income & Hi & H).
  apply bind_Ok in H as (is_ & His & H).
  apply bind_Ok in H as (comp & Hc & H).
  apply bind_Ok in H as (cs & Hcs & H).
  apply bind_Ok in H as (poi & Hp & H).
  apply bind_Ok in H as (rev & Hrev & H).
  injection H as <-.
  exists cfg, used, density, ps, income, is_, comp, cs, poi, rev.
  repeat split; assumption || reflexivity.
Qed.

(** A concept with a proper income range and positive density and
    competition targets scores every feature dictionary whose numeric
    entries are numbers. *)
Lemma calculate_score_returns (self : ScoringEngine) (features : gmap string value)
    (concept : string) (cid : option string) (cfg : ConceptConfig)
    (used : option string) :
  _get_concept_config self concept cid = (Some cfg, used) ->
  0 < cfg_target_income_min cfg < cfg_target_income_max cfg ->
  0 < cfg_optimal_population_density cfg ->
  0 < cfg_target_competitors_per_1k cfg ->
  (forall k, features !! k <> Some None) ->
  exists r, calculate_score self features concept cid = Ok r.
Proof.
  intros Hcfg [Hmin Hrange] Hopt Hcomp Hnum.
  assert (Hget : forall k d, exists q, get_num features k d = Ok q).
  { intros k d. unfold get_num. specialize (Hnum k).
    destruct (features !! k) as [[q |] |]; eauto. congruence. }
  unfold calculate_score. rewrite Hcfg.
  destruct (Hget "population_density"%string 0) as [density ->].
  destruct (Hget "median_income"%string 0) as [income ->].
  destruct (Hget "competitors_per_1k_residents"%string 0) as [comp ->].
  destruct (Hget "walkability_poi_count"%string 0) as [poi ->].
  cbn [mbind res_bind bind].
  assert (Hps : exists ps,
             _calculate_population_score density
               (cfg_optimal_population_density cfg) = Ok ps).
  { unfold _calculate_population_score. qcases; eauto.
    rewrite div_nonzero by (intros He; lra). simpl. eauto. }
  destruct Hps as [ps ->]. cbn [mbind res_bind bind].
  destruct (income_score_returns income _ _ Hmin Hrange) as (is_ & ->).
  cbn [mbind res_bind bind].
  assert (Hnz : ~ cfg_target_competitors_per_1k cfg == 0) by (intros He; lra).
  destruct (competition_score_returns comp _ Hnz) as (cs & ->).
  cbn [mbind res_bind bind].
  assert (Hrev : exists rev,
             _calculate_revenue (cfg_base_revenue_eur cfg) density income comp cfg
             = Ok rev).
  { unfold _calculate_revenue.
    rewrite (div_nonzero density) by (intros He; lra). simpl.
    rewrite (div_nonzero income) by (intros He; qhalf; lra).
    rewrite (div_nonzero comp) by exact Hnz.
    qcases; eauto. }
  destruct Hrev as [rev ->]. cbn [mbind res_bind bind]. eauto.
Qed.

End OverallScore.

Section ScoreClaims.
Import Database Scorer Examples.

(** Bounds that do hold for every configuration [create_concept] accepts
    (each weight in [0, 1], the sum of weights within 0.95-1.05, positive
    income targets): a call that returns gives [0 <= score <= 105], with
    [score <= 100] whenever the weights sum to at most 1, and
    [0.6 <= confidence <= 1]. *)
Lemma score_and_confidence_bounds (self : ScoringEngine)
    (features : gmap string value) (concept : string) (cid : option string)
    (cfg : ConceptConfig) (used : option string) (r : ScoreResult) :
  _get_concept_config self concept cid = (Some cfg, used) ->
  weights_accepted (cfg_weights cfg) ->
  0 < cfg_target_income_min cfg -> 0 < cfg_target_income_max cfg ->
  calculate_score self features concept cid = Ok r ->
  0 <= score r <= 105 /\
  (total_weight (cfg_weights cfg) <= 1 -> score r <= 100) /\
  (6 # 10) <= confidence r <= 1.
Proof.
  intros Hcfg Hw Hmin Hmax Hr.
  apply calculate_score_Ok in Hr
    as (cfg' & used' & density & ps & income & is_ & comp & cs & poi & rev &
        Hcfg' & _ & Hps & _ & His & _ & Hcs & _ & _ & Hscore & Hconf & _).
  rewrite Hcfg in Hcfg'. injection Hcfg' as <- <-.
  apply population_score_bounds in Hps.
  apply income_score_bounds in His; [| assumption | assumption].
  apply competition_score_bounds in Hcs.
  pose proof (access_score_bounds (get features "nearest_metro_distance_m")
                                  (get features "nearest_tram_distance_m")) as Hacc.
  pose proof (walkability_score_bounds poi) as Hwalk.
  destruct Hw as (Hw1 & Hw2 & Hw3 & Hw4 & Hw5 & Hsum).
  unfold total_weight in *.
  rewrite Hscore, Hconf.
  set (a := _calculate_access_score _ _) in *.
  set (w := _calculate_walkability_score _) in *.
  clearbody a w.
  destruct (cfg_weights cfg) as [w1 w2 w3 w4 w5]. simpl in *.
  assert (H1 : 0 <= w1 * ps <= 100 * w1) by nra.
  assert (H2 : 0 <= w2 * is_ <= 100 * w2) by nra.
  assert (H3 : 0 <= w3 * a <= 100 * w3) by nra.
  assert (H4 : 0 <= w4 * cs <= 100 * w4) by nra.
  assert (H5 : 0 <= w5 * w <= 100 * w5) by nra.
  repeat split.
  - change 0 with (inject_Z 0). apply round_nd_lower.
    change (inject_Z 0) with 0. lra.
  - change 105 with (inject_Z 105). apply round_nd_upper.
    change (inject_Z 105) with 105. lra.
  - intros Hle. change 100 with (inject_Z 100). apply round_nd_upper.
    change (inject_Z 100) with 100. lra.
  - rewrite round_confidence. apply confidence_bounds.
  - rewrite round_confidence. apply confidence_bounds.
Qed.

(** C1. The claim [0 <= score <= 100] does not hold of the code: for the
    concept [customer_concept], whose weights [create_concept] accepts (each
    within [0, 1], sum 1.03125), and a site at which every factor scores 100,
    [calculate_score] called with the concept's id returns the score 103.1,
    which is above 100; the confidence it returns, 1, is within [0, 1]. *)
Theorem score_can_exceed_100 :
  weights_accepted (weights customer_concept) /\
  exists r,
    calculate_score customer_engine ideal_site "QSR" (Some "c-7f3a"%string) = Ok r /\
    score r == 1031 # 10 /\ ~ (score r <= 100) /\ 0 <= confidence r <= 1.
Proof.
  split.
  - unfold weights_accepted, total_weight; simpl; lra.
  - eexists. split; [vm_compute; reflexivity |]. simpl.
    split; [reflexivity |]. split.
    + intros H; vm_compute in H; apply H; reflexivity.
    + split; discriminate.
Qed.

(** C2. For every scoring call on a concept with non-negative base revenue
    that returns, the revenue band half-width is
    [0.15 + 0.15 * (1 - confidence)] for the returned confidence, it lies
    within [0.15, 0.30], the low and high revenues are the rounded
    [mid * (1 - band)] and [mid * (1 + band)] for the same unrounded
    [mid >= 0], and [revenue_low <= revenue_mid <= revenue_high]. *)
Theorem revenue_band_ordered (self : ScoringEngine)
    (features : gmap string value) (concept : string) (cid : option string)
    (cfg : ConceptConfig) (used : option string) (r : ScoreResult) :
  _get_concept_config self concept cid = (Some cfg, used) ->
  0 <= cfg_base_revenue_eur cfg ->
  calculate_score self features concept cid = Ok r ->
  let band := band_percent (_calculate_confidence features) in
  band == (15 # 100) + (15 # 100) * (1 - confidence r) /\
  (15 # 100) <= band <= (30 # 100) /\
  (exists mid, 0 <= mid /\
     revenue_mid r = round mid /\
     revenue_low r = round (mid * (1 - band)) /\
     revenue_high r = round (mid * (1 + band)) /\
     mid - mid * (1 - band) == mid * (1 + band) - mid) /\
  (revenue_low r <= revenue_mid r <= revenue_high r)%Z.
Proof.
  intros Hcfg Hbase Hr band.
  apply calculate_score_Ok in Hr
    as (cfg' & used' & density & ps & income & is_ & comp & cs & poi & rev &
        Hcfg' & _ & _ & _ & _ & _ & _ & _ & Hrev & _ & Hconf & Hmid & Hlow & Hhigh).
  rewrite Hcfg in Hcfg'. injection Hcfg' as <- <-.
  apply revenue_floor in Hrev.
  pose proof (confidence_bounds features) as Hc.
  assert (Hb : (15 # 100) <= band <= (30 # 100)).
  { apply band_percent_bounds. lra. }
  assert (Hrev0 : 0 <= rev) by lra.
  split; [| split; [exact Hb | split]].
  - rewrite Hconf, round_confidence. reflexivity.
  - exists rev. repeat split; try assumption. ring.
  - rewrite Hmid, Hlow, Hhigh. fold band.
    split; apply round_mono; nra.
Qed.

Lemma revenue_band_ordered_witness :
  exists r, calculate_score yaml_engine ideal_site "QSR" None = Ok r /\
    (revenue_low r <= revenue_mid r <= revenue_high r)%Z.
Proof.
  eexists. split; [vm_compute; reflexivity |].
  pose proof (revenue_band_ordered yaml_engine ideal_site "QSR" None
                generous_config None) as H.
  edestruct H as (_ & _ & _ & Ho).
  - reflexivity.
  - simpl; lra.
  - vm_compute; reflexivity.
  - exact Ho.
Defined.


Lemma competition_score_spec_witness :
  exists s, _calculate_competition_score 3 1 = Ok s /\ s == 20.
Proof.
  destruct (competition_score_spec 3 1) as (s & Hs & _ & _ & _ & _ & _ & H3 & _).
  - discriminate.
  - exists s. split; [exact Hs |]. apply H3. reflexivity.
Defined.

End ScoreClaims.

(** ** Candidate generation: great-circle distance *)

Section HaversineFacts.
Import AddressGenerator.
Local Open Scope R_scope.

Lemma haversine_a_sym (lat1 lng1 lat2 lng2 : Q) :
  haversine_a lat1 lng1 lat2 lng2 = haversine_a lat2 lng2 lat1 lng1.
Proof.
  unfold haversine_a, radians. rewrite !Q2R_minus.
  replace ((Q2R lat1 - Q2R lat2) * PI / 180 / 2)
    with (- ((Q2R lat2 - Q2R lat1) * PI / 180 / 2)) by lra.
  replace ((Q2R lng1 - Q2R lng2) * PI / 180 / 2)
    with (- ((Q2R lng2 - Q2R lng1) * PI / 180 / 2)) by lra.
  rewrite !sin_neg. ring.
Qed.

(** The distance does not depend on the order of the two points. *)
Lemma haversine_sym (lat1 lng1 lat2 lng2 : Q) :
  _haversine_distance lat1 lng1 lat2 lng2 = _haversine_distance lat2 lng2 lat1 lng1.
Proof.
  unfold _haversine_distance. rewrite (haversine_a_sym lat1 lng1 lat2 lng2).
  reflexivity.
Qed.

Lemma sin_cos_sq (x : R) : cos x * cos x = 1 - sin x * sin x.
Proof. pose proof (sin2_cos2 x) as H. unfold Rsqr in H. lra. Qed.

(** [a] stays within [0, 1]: both square roots of the source are taken of
    non-negative numbers. *)
Lemma haversine_a_range (lat1 lng1 lat2 lng2 : Q) :
  0 <= haversine_a lat1 lng1 lat2 lng2 <= 1.
Proof.
  unfold haversine_a, radians. rewrite !Q2R_minus.
  set (u := (Q2R lat2 - Q2R lat1) * PI / 180 / 2).
  set (v := (Q2R lat2 + Q2R lat1) * PI / 180 / 2).
  replace (Q2R lat1 * PI / 180) with (v - u) by (unfold u, v; lra).
  replace (Q2R lat2 * PI / 180) with (v + u) by (unfold u, v; lra).
  rewrite cos_minus, cos_plus.
  set (w := (Q2R lng2 - Q2R lng1) * PI / 180 / 2).
  pose proof (sin_cos_sq u) as Hu. pose proof (sin_cos_sq v) as Hv.
  pose proof (sin_cos_sq w) as Hw.
  assert (E : (cos v * cos u + sin v * sin u) * (cos v * cos u - sin v * sin u)
              = 1 - sin u * sin u - sin v * sin v).
  { transitivity ((cos v * cos v) * (cos u * cos u)
                  - (sin v * sin v) * (sin u * sin u)); [ring |].
    rewrite Hu, Hv. ring. }
  rewrite E. simpl pow. rewrite !Rmult_1_r.
  assert (HA : 0 <= sin u * sin u <= 1).
  { split; [nra |]. pose proof (Rle_0_sqr (cos u)) as Hc. unfold Rsqr in Hc. lra. }
  assert (HB : 0 <= sin v * sin v <= 1).
  { split; [nra |]. pose proof (Rle_0_sqr (cos v)) as Hc. unfold Rsqr in Hc. lra. }
  assert (HS : 0 <= sin w * sin w <= 1).
  { split; [nra |]. pose proof (Rle_0_sqr (cos w)) as Hc. unfold Rsqr in Hc. lra. }
  set (A := sin u * sin u) in *. set (B := sin v * sin v) in *.
  set (S := sin w * sin w) in *. clearbody A B S.
  split; nra.
Qed.

Lemma Q2R_80 : Q2R 80 = 80.
Proof. unfold Q2R. simpl. lra. Qed.

Lemma Rltb_true (x y : R) : PyReal.Rltb x y = true -> x < y.
Proof. unfold PyReal.Rltb. destruct (Rlt_dec x y); [auto | discriminate]. Qed.

Lemma Rltb_false (x y : R) : PyReal.Rltb x y = false -> y <= x.
Proof. unfold PyReal.Rltb. destruct (Rlt_dec x y); [discriminate | lra]. Qed.

End HaversineFacts.

(** ** Candidate generation: deduplication (claims C5, C6) *)

Section Deduplication.
Import AddressGenerator.

Lemma dist_sym (a b : Candidate) : dist a b = dist b a.
Proof. apply haversine_sym. Qed.

Lemma apart_sym (m : Q) (a b : Candidate) : apart m a b -> apart m b a.
Proof. unfold apart. tauto. Qed.

Lemma too_close_false (m : Q) (c : Candidate) (kept : list Candidate) :
  too_close m c kept = false -> Forall (fun k => apart m k c) kept.
Proof.
  unfold too_close. induction kept as [| k kept IH]; simpl; intros H.
  - constructor.
  - apply orb_false_iff in H as [Hk Hrest]. constructor; [| auto].
    apply Rltb_false in Hk. fold (dist c k) in Hk.
    split; [rewrite dist_sym |]; exact Hk.
Qed.

Lemma too_close_true (m : Q) (c : Candidate) (kept : list Candidate) :
  too_close m c kept = true ->
  Exists (fun k => (dist c k < Q2R m)%R) kept.
Proof.
  unfold too_close. induction kept as [| k kept IH]; simpl; intros H.
  - discriminate.
  - apply orb_true_iff in H as [Hk | Hrest].
    + left. apply Rltb_true in Hk. exact Hk.
    + right. auto.
Qed.

(** Pairwise properties of lists. *)
Lemma pairs_snoc {A : Type} (P : A -> A -> Prop) (l : list A) (x : A) :
  ForallOrdPairs P l -> Forall (fun k => P k x) l -> ForallOrdPairs P (l ++ [x]).
Proof.
  induction 1 as [| k l Hk Hl IH]; simpl; intros Hx.
  - repeat constructor.
  - inversion Hx as [| ? ? Hkx Hlx]; subst. constructor.
    + apply List.Forall_app. split; [exact Hk | repeat constructor; exact Hkx].
    + auto.
Qed.

Lemma in_firstn {A : Type} (x : A) (n : nat) (l : list A) :
  In x (firstn n l) -> In x l.
Proof.
  revert n. induction l as [| y l IH]; intros [| n]; simpl; try tauto.
  intros [-> | H]; eauto.
Qed.

Lemma pairs_firstn {A : Type} (P : A -> A -> Prop) (n : nat) (l : list A) :
  ForallOrdPairs P l -> ForallOrdPairs P (firstn n l).
Proof.
  intros H. revert n. induction H as [| k l Hk Hl IH]; intros [| n]; simpl;
    try constructor.
  - apply List.Forall_forall. intros y Hy.
    rewrite List.Forall_forall in Hk. apply Hk.
    eapply in_firstn. exact Hy.
  - apply IH.
Qed.

Lemma in_insert_desc (x y : Candidate) (l : list Candidate) :
  In y (insert_desc x l) <-> y = x \/ In y l.
Proof.
  induction l as [| z l IH]; simpl.
  - intuition.
  - destruct (Qleb (score z) (score x)); simpl; [intuition |].
    rewrite IH. intuition.
Qed.

Lemma in_sorted_by_score_desc (y : Candidate) (l : list Candidate) :
  In y (sorted_by_score_desc l) <-> In y l.
Proof.
  induction l as [| x l IH]; simpl; [tauto |].
  rewrite in_insert_desc, IH. intuition.
Qed.

Lemma pairs_insert_desc (m : Q) (x : Candidate) (l : list Candidate) :
  ForallOrdPairs (apart m) l -> Forall (apart m x) l ->
  ForallOrdPairs (apart m) (insert_desc x l).
Proof.
  induction 1 as [| z l Hz Hl IH]; simpl; intros Hx.
  - repeat constructor.
  - inversion Hx as [| ? ? Hxz Hxl]; subst.
    destruct (Qleb (score z) (score x)).
    + constructor; [exact Hx | constructor; assumption].
    + constructor; [| auto].
      apply List.Forall_forall. intros y Hy. apply in_insert_desc in Hy as [-> | Hy].
      * apply apart_sym. exact Hxz.
      * rewrite List.Forall_forall in Hz. auto.
Qed.

Lemma pairs_sorted_by_score_desc (m : Q) (l : list Candidate) :
  ForallOrdPairs (apart m) l -> ForallOrdPairs (apart m) (sorted_by_score_desc l).
Proof.
  induction 1 as [| x l Hx Hl IH]; simpl; [constructor |].
  apply pairs_insert_desc; [exact IH |].
  apply List.Forall_forall. intros y Hy.
  apply (proj1 (in_sorted_by_score_desc y l)) in Hy.
  rewrite List.Forall_forall in Hx. auto.
Qed.

(** The ranked copies keep their coordinates. *)
Lemma Forall_add_ranks (m : Q) (x : Candidate) (i : Z) (l : list Candidate) :
  Forall (apart m x) l -> Forall (apart m x) (add_ranks i l).
Proof.
  intros H. revert i. induction H as [| y l Hy Hl IH]; intros i; simpl;
    constructor; auto.
Qed.

Lemma pairs_add_ranks (m : Q) (i : Z) (l : list Candidate) :
  ForallOrdPairs (apart m) l -> ForallOrdPairs (apart m) (add_ranks i l).
Proof.
  intros H. revert i. induction H as [| x l Hx Hl IH]; intros i; simpl;
    constructor; [| auto].
  apply Forall_add_ranks with (i := (i + 1)%Z) in Hx.
  revert Hx. apply List.Forall_impl. intros y Hy. exact Hy.
Qed.

(** The loop keeps [kept] pairwise apart. *)
Lemma dedup_loop_apart (m : Q) (sorted_candidates kept : list Candidate) :
  ForallOrdPairs (apart m) kept ->
  ForallOrdPairs (apart m) (dedup_loop m sorted_candidates kept).
Proof.
  revert kept. induction sorted_candidates as [| c rest IH]; simpl; intros kept Hk.
  - exact Hk.
  - destruct (too_close m c kept) eqn:Hc.
    + auto.
    + apply IH. apply pairs_snoc; [exact Hk |].
      apply too_close_false. exact Hc.
Qed.

Lemma deduplicate_apart (candidates : list Candidate) (m : Q) :
  ForallOrdPairs (apart m) (_deduplicate_by_distance candidates m).
Proof.
  unfold _deduplicate_by_distance. destruct candidates; [constructor |].
  apply dedup_loop_apart. constructor.
Qed.

(** Descending order of the stable sort. *)
Lemma sorted_insert_desc (x : Candidate) (l : list Candidate) :
  StronglySorted (fun a b => score b <= score a) l ->
  StronglySorted (fun a b => score b <= score a) (insert_desc x l).
Proof.
  induction 1 as [| z l Hl IH Hz]; simpl.
  - repeat constructor.
  - destruct (Qleb (score z) (score x)) eqn:Hc.
    + apply Qleb_true in Hc. constructor; [constructor; assumption |].
      constructor; [exact Hc |].
      revert Hz. apply List.Forall_impl. intros y Hy. lra.
    + apply Qleb_false in Hc. constructor; [exact IH |].
      apply List.Forall_forall. intros y Hy. apply in_insert_desc in Hy as [-> | Hy].
      * lra.
      * rewrite List.Forall_forall in Hz. auto.
Qed.

Lemma sorted_by_score_desc_sorted (l : list Candidate) :
  StronglySorted (fun a b => score b <= score a) (sorted_by_score_desc l).
Proof.
  induction l as [| x l IH]; simpl; [constructor |].
  apply sorted_insert_desc. exact IH.
Qed.

Lemma dedup_loop_keeps (m : Q) (sorted_candidates kept : list Candidate)
    (k : Candidate) :
  In k kept -> In k (dedup_loop m sorted_candidates kept).
Proof.
  revert kept. induction sorted_candidates as [| c rest IH]; simpl; intros kept Hk.
  - exact Hk.
  - destruct (too_close m c kept); apply IH; [exact Hk |].
    apply in_or_app. left. exact Hk.
Qed.

(** Whatever the loop drops lies within [m] of a kept candidate that scores
    at least as high. *)
Lemma dedup_loop_dropped (m : Q) (sorted_candidates kept : list Candidate) :
  StronglySorted (fun a b => score b <= score a) sorted_candidates ->
  (forall k d, In k kept -> In d sorted_candidates -> score d <= score k) ->
  Forall (fun d =>
            In d (dedup_loop m sorted_candidates kept) \/
            Exists (fun k => (dist d k < Q2R m)%R /\ score d <= score k)
                   (dedup_loop m sorted_candidates kept))
         sorted_candidates.
Proof.
  intros Hs. revert kept.
  induction Hs as [| c rest Hrest IH Hc]; simpl; intros kept Hinv.
  - constructor.
  - destruct (too_close m c kept) eqn:Htc.
    + constructor.
      * right. apply too_close_true in Htc.
        apply List.Exists_exists in Htc as (k & Hk & Hclose).
        apply List.Exists_exists. exists k. split.
        -- apply dedup_loop_keeps. exact Hk.
        -- split; [exact Hclose |]. apply Hinv; simpl; auto.
      * apply IH. intros k d Hk Hd. apply Hinv; simpl; auto.
    + constructor.
      * left. apply dedup_loop_keeps. apply in_or_app. right. simpl. auto.
      * apply IH. intros k d Hk Hd.
        apply in_app_or in Hk as [Hk | [<- | []]].
        -- apply Hinv; simpl; auto.
        -- rewrite List.Forall_forall in Hc. auto.
Qed.

Lemma deduplicate_dropped (candidates : list Candidate) (m : Q) :
  Forall (fun d =>
            In d (_deduplicate_by_distance candidates m) \/
            Exists (fun k => (dist d k < Q2R m)%R /\ score d <= score k)
                   (_deduplicate_by_distance candidates m))
         candidates.
Proof.
  unfold _deduplicate_by_distance.
  destruct candidates as [| c0 cs]; [constructor |].
  set (l := c0 :: cs).
  pose proof (dedup_loop_dropped m (sorted_by_score_desc l) []
                (sorted_by_score_desc_sorted l)) as H.
  rewrite List.Forall_forall in H |- *. intros d Hd.
  apply H.
  - intros k d' [].
  - apply in_sorted_by_score_desc. exact Hd.
Qed.

End Deduplication.

Section CandidateClaims.
Import AddressGenerator.

Lemma pairs_impl {A : Type} (P P' : A -> A -> Prop) (l : list A) :
  (forall a b, P a b -> P' a b) -> ForallOrdPairs P l -> ForallOrdPairs P' l.
Proof.
  intros HP. induction 1 as [| x l Hx Hl IH]; constructor; [| exact IH].
  revert Hx. apply List.Forall_impl. intros y. apply HP.
Qed.

Lemma pairs_slice_to {A : Type} (P : A -> A -> Prop) (l : list A) (limit : Z) :
  ForallOrdPairs P l -> ForallOrdPairs P (slice_to l limit).
Proof.
  intros H. unfold slice_to. destruct (0 <=? limit)%Z; apply pairs_firstn, H.
Qed.

(** C5. Whatever the areas and their candidates, any two candidates at
    different positions of the list [generate_candidates] returns are at
    least 80 m apart under the haversine distance (Earth radius
    6,371,000 m), and every generated candidate is either kept by
    [_deduplicate_by_distance] or lies within 80 m of a kept candidate
    whose score is at least as high. *)
Theorem generated_candidates_apart (top_areas : list Area)
    (candidates_for_area : Area -> list Candidate) (limit : Z) :
  let all_candidates := flat_map candidates_for_area top_areas in
  let kept := _deduplicate_by_distance all_candidates 80 in
  ForallOrdPairs (fun a b => (80 <= dist a b)%R /\ (80 <= dist b a)%R)
    (generate_candidates top_areas candidates_for_area limit) /\
  Forall (fun d =>
            In d kept \/
            Exists (fun k => (dist d k < 80)%R /\ score d <= score k) kept)
         all_candidates.
Proof.
  intros all_candidates kept. split.
  - apply pairs_impl with (P := apart 80).
    { unfold apart. rewrite Q2R_80. tauto. }
    unfold generate_candidates. destruct top_areas as [| a0 areas]; [constructor |].
    apply pairs_add_ranks, pairs_slice_to, pairs_sorted_by_score_desc,
      deduplicate_apart.
  - pose proof (deduplicate_dropped all_candidates 80) as H.
    rewrite Q2R_80 in H. exact H.
Qed.

(** Truncation and absolute value depend on the value of a rational only,
    not on how the fraction is written. *)
Lemma int_Qeq (x y : Q) : x == y -> int x = int y.
Proof.
  unfold int, Qeq. destruct x as [a b], y as [c d]. simpl. intros H.
  rewrite <- (Z.quot_mul_cancel_r a (Z.pos b) (Z.pos d)) by lia.
  rewrite <- (Z.quot_mul_cancel_r c (Z.pos d) (Z.pos b)) by lia.
  rewrite H. f_equal. lia.
Qed.

Lemma abs_Qeq (x y : Q) : x == y -> abs x == abs y.
Proof. intros H. unfold abs. qcases; lra. Qed.

(** C6. The synthetic address is a function of the coordinates alone: two
    calls with equal coordinates return the same string, whichever
    generator (with whatever collaborators and state) they are made on. *)
Theorem mock_address_deterministic (self1 self2 : AddressGenerator)
    (lat1 lng1 lat2 lng2 : Q) :
  lat1 == lat2 -> lng1 == lng2 ->
  _generate_mock_address self1 lat1 lng1 = _generate_mock_address self2 lat2 lng2.
Proof.
  intros Hlat Hlng. unfold _generate_mock_address.
  assert (H1 : int ((lat1 + lng1) * 1000) = int ((lat2 + lng2) * 1000)).
  { apply int_Qeq. rewrite Hlat, Hlng. reflexivity. }
  assert (H2 : int (abs (lat1 - (601 # 10)) * 1000)
               = int (abs (lat2 - (601 # 10)) * 1000)).
  { apply int_Qeq.
    assert (Ha : abs (lat1 - (601 # 10)) == abs (lat2 - (601 # 10)))
      by (apply abs_Qeq; rewrite Hlat; reflexivity).
    rewrite Ha. reflexivity. }
  assert (H3 : int (lng1 * 1000) = int (lng2 * 1000)).
  { apply int_Qeq. rewrite Hlng. reflexivity. }
  rewrite H1, H2, H3. reflexivity.
Qed.

Lemma mock_address_deterministic_witness :
  _generate_mock_address Examples.failing_geocoder (6017 # 100) (24938 # 1000)
  = _generate_mock_address Examples.silent_geocoder (12034 # 200) (49876 # 2000)
  /\ _generate_mock_address Examples.failing_geocoder (6017 # 100) (24938 # 1000)
     = "Bulevardi 71, 00118 Helsinki"%string.
Proof.
  split; [| vm_compute; reflexivity].
  apply mock_address_deterministic; reflexivity.
Defined.

(** The fallback is what [_reverse_geocode] returns whenever the geocoder
    raises or has no answer. *)
Lemma reverse_geocode_fallback (self : AddressGenerator) (lat lng : Q) :
  (exists e, digitransit_reverse_geocode self lat lng = Raise e) \/
  digitransit_reverse_geocode self lat lng = Ok None ->
  _reverse_geocode self lat lng = Some (_generate_mock_address self lat lng).
Proof.
  unfold _reverse_geocode. intros [[e ->] | ->]; reflexivity.
Qed.

End CandidateClaims.

(** ** Outcome learning (claims C7, C8) *)

Section Learning.
Import Database ConceptLearner Examples.

Lemma length_insert_asc (x : Q) (l : list Q) :
  length (insert_asc x l) = S (length l).
Proof.
  induction l as [| y l IH]; simpl; [reflexivity |].
  destruct (Qleb x y); simpl; congruence.
Qed.

Lemma length_sorted (l : list Q) : length (sorted l) = length l.
Proof.
  induction l as [| x l IH]; simpl; [reflexivity |].
  rewrite length_insert_asc. congruence.
Qed.

Lemma median_returns (data : list Q) :
  data <> [] -> exists m, median data = Ok m.
Proof.
  intros Hne. unfold median. rewrite length_sorted.
  destruct data as [| x data]; [congruence |]. simpl length.
  cbn [Nat.eqb]. destruct (Nat.eqb (S (length data) mod 2) 1); eauto.
Qed.

Lemma mean_returns (data : list Q) :
  data <> [] -> exists m, mean data = Ok m.
Proof. destruct data; [congruence | simpl; eauto]. Qed.

(** Reading a row back after writing its attributes. *)
Lemma first_update_concept (rows : list Concept) (id : string)
    (f : Concept -> Concept) (c : Concept) :
  (forall c0, c_id (f c0) = c_id c0) ->
  first (fun c0 => String.eqb (c_id c0) id) rows = Some c ->
  first (fun c0 => String.eqb (c_id c0) id) (update_concept rows id f) = Some (f c).
Proof.
  intros Hid. unfold first.
  induction rows as [| c0 rows IH]; simpl; [discriminate |].
  destruct (String.eqb (c_id c0) id) eqn:He; simpl.
  - intros [= <-]. rewrite Hid, He. reflexivity.
  - rewrite He. exact IH.
Qed.

Lemma int_inject_Z (z : Z) : int (inject_Z z) = z.
Proof. unfold int. simpl. apply Z.quot_1_r. Qed.

(** A write of the trained attributes, for any outcome of the steps before. *)
Lemma retrain_concept_Ok (db db' : DB) (concept_id : string) (now : Z)
    (c : Concept) :
  first (fun c0 => String.eqb (c_id c0) concept_id) (concepts db) = Some c ->
  (5 <= length (outcomes_of db concept_id))%nat ->
  _retrain_concept db concept_id now = Ok db' ->
  exists m mape w,
    median (map actual_revenue_eur (outcomes_of db concept_id)) = Ok m /\
    concepts db' =
      update_concept (concepts db) concept_id
        (set_trained (int m)
           (new_variance mape (length (outcomes_of db concept_id))) mape now w).
Proof.
  intros Hc Hn. unfold _retrain_concept. rewrite Hc.
  destruct (Z.of_nat (length (outcomes_of db concept_id))
            <? MIN_OUTCOMES_FOR_TRAINING)%Z eqn:Hlt.
  { apply Z.ltb_lt in Hlt. unfold MIN_OUTCOMES_FOR_TRAINING in Hlt. lia. }
  intros H.
  apply bind_Ok in H as (m & Hm & H).
  apply bind_Ok in H as (mape & Hmape & H).
  apply bind_Ok in H as (w & Hw & H).
  injection H as <-. simpl. eauto.
Qed.

Lemma retrain_concept_returns (db : DB) (concept_id : string) (now : Z) :
  (length (outcomes_of db concept_id) < 20)%nat ->
  exists db', _retrain_concept db concept_id now = Ok db'.
Proof.
  intros Hn. unfold _retrain_concept.
  destruct (first _ (concepts db)); [| eauto].
  destruct (Z.of_nat (length (outcomes_of db concept_id))
            <? MIN_OUTCOMES_FOR_TRAINING)%Z eqn:Hlt; [eauto |].
  apply Z.ltb_ge in Hlt. unfold MIN_OUTCOMES_FOR_TRAINING in Hlt.
  assert (Hne : outcomes_of db concept_id <> []).
  { intros He. rewrite He in Hlt. simpl in Hlt. lia. }
  destruct (median_returns (map actual_revenue_eur (outcomes_of db concept_id)))
    as [m ->].
  { intros He. apply map_eq_nil in He. contradiction. }
  destruct (mean_returns (map (fun o => abs (variance_pct o))
                              (outcomes_of db concept_id))) as [mape ->].
  { intros He. apply map_eq_nil in He. contradiction. }
  cbn [mbind res_bind bind].
  destruct (MIN_OUTCOMES_FOR_WEIGHTS <=? Z.of_nat (length (outcomes_of db concept_id)))%Z
    eqn:Hw.
  { apply Z.leb_le in Hw. unfold MIN_OUTCOMES_FOR_WEIGHTS in Hw. lia. }
  cbn [mbind res_bind bind]. eauto.
Qed.

(** C7 (as amended). Whenever retraining runs on an existing concept with
    at least 5 outcomes and returns, the concept's base revenue afterwards
    is the median of the actual revenues of all its outcomes truncated to
    an integer, [int(median)]; it is the median itself exactly when the
    median is a whole number.  With fewer than 20 outcomes retraining
    always returns. *)
Theorem retrain_sets_base_revenue (db : DB) (concept_id : string) (now : Z)
    (c : Concept) :
  first (fun c0 => String.eqb (c_id c0) concept_id) (concepts db) = Some c ->
  (5 <= length (outcomes_of db concept_id))%nat ->
  exists m, median (map actual_revenue_eur (outcomes_of db concept_id)) = Ok m /\
    (forall db', _retrain_concept db concept_id now = Ok db' ->
       exists c', first (fun c0 => String.eqb (c_id c0) concept_id) (concepts db')
                  = Some c' /\
         base_revenue_eur c' = int m /\
         (forall z, m == inject_Z z -> base_revenue_eur c' = z)) /\
    ((length (outcomes_of db concept_id) < 20)%nat ->
       exists db', _retrain_concept db concept_id now = Ok db').
Proof.
  intros Hc Hn.
  destruct (median_returns (map actual_revenue_eur (outcomes_of db concept_id)))
    as [m Hm].
  { intros He. apply map_eq_nil in He. rewrite He in Hn. simpl in Hn. lia. }
  exists m. split; [exact Hm |]. split.
  - intros db' Hdb.
    destruct (retrain_concept_Ok db db' concept_id now c Hc Hn Hdb)
      as (m' & mape & w & Hm' & Hcs).
    rewrite Hm in Hm'. injection Hm' as <-.
    eexists. split.
    + rewrite Hcs. apply first_update_concept; [reflexivity | exact Hc].
    + simpl. split; [reflexivity |].
      intros z Hz. rewrite (int_Qeq _ _ Hz). apply int_inject_Z.
  - apply retrain_concept_returns.
Qed.

(** The outcomes of the specification's example: revenues 100000, 120000,
    150000, 90000, 110000 give a base revenue of exactly 110000. *)
Lemma retrain_sets_base_revenue_witness :
  exists db' c',
    _retrain_concept (session_with five_revenues) "c1" 0 = Ok db' /\
    first (fun c0 => String.eqb (c_id c0) "c1") (concepts db') = Some c' /\
    base_revenue_eur c' = 110000%Z.
Proof.
  destruct (retrain_sets_base_revenue (session_with five_revenues) "c1" 0
              burger_concept) as (m & Hm & Hset & Hret).
  - reflexivity.
  - vm_compute. lia.
  - destruct Hret as [db' Hdb]; [vm_compute; lia |].
    destruct (Hset db' Hdb) as (c' & Hc' & _ & Hz).
    exists db', c'. split; [exact Hdb |]. split; [exact Hc' |].
    apply Hz. vm_compute in Hm. injection Hm as <-. reflexivity.
Defined.

(** C7 fails as stated: with the six revenues 100000, 120000, 150000,
    90000, 110000, 110001 the median is 110000.5 and the stored base
    revenue is 110000. *)
Lemma base_revenue_is_not_the_median :
  exists db' c' m,
    _retrain_concept (session_with six_revenues) "c1" 0 = Ok db' /\
    median (map actual_revenue_eur (outcomes_of (session_with six_revenues) "c1"))
    = Ok m /\
    first (fun c0 => String.eqb (c_id c0) "c1") (concepts db') = Some c' /\
    m == 220001 # 2 /\
    base_revenue_eur c' = 110000%Z /\
    ~ inject_Z (base_revenue_eur c') == m.
Proof.
  eexists. eexists. eexists.
  split; [vm_compute; reflexivity |].
  split; [vm_compute; reflexivity |].
  split; [vm_compute; reflexivity |].
  split; [reflexivity |]. split; [reflexivity |].
  simpl. intros H. vm_compute in H. discriminate.
Qed.



End Learning.

(** ** Job lifecycle (claim C9) *)

Section JobLifecycle.
Import JobManager.

Lemma jobs_put (self : JobManager) (id : string) (items : list (option Event)) :
  jobs (put self id items) = jobs self.
Proof. unfold put. destruct (job_queues self !! id); reflexivity. Qed.

Lemma eqb_neq (a b : string) : negb (String.eqb a b) = true -> a <> b.
Proof.
  intros H. apply negb_true_iff in H. apply String.eqb_neq. exact H.
Qed.

Lemma step_waiting (self : JobManager) (id : string) (deadline : Z) (op : Op) :
  leaves_waiting id deadline op = true ->
  waiting self id deadline -> waiting (step self op) id deadline.
Proof.
  unfold waiting, get_job.
  intros Hop (j & Hj & Hs & He).
  destruct op as [new_id c k l ic t1 t2 | id' | id' stage st metrics ms cached now
                 | id' res dg now | id' err now | id' | now]; simpl in *.
  - apply eqb_neq in Hop. rewrite lookup_insert_ne by exact Hop. eauto.
  - unfold mark_running, get_job.
    destruct (jobs self !! id') as [j' |] eqn:Hj'; [| eauto]. simpl.
    destruct (decide (id' = id)) as [-> | Hne].
    + rewrite lookup_insert_eq. rewrite Hj in Hj'. injection Hj' as <-.
      eexists. split; [reflexivity |]. simpl. auto.
    + rewrite lookup_insert_ne by exact Hne. eauto.
  - unfold emit_stage_update.
    destruct (jobs self !! id') as [j' |] eqn:Hj'; [| eauto].
    rewrite jobs_put. simpl.
    destruct (decide (id' = id)) as [-> | Hne].
    + rewrite lookup_insert_eq. rewrite Hj in Hj'. injection Hj' as <-.
      eexists. split; [reflexivity |]. simpl. auto.
    + rewrite lookup_insert_ne by exact Hne. eauto.
  - apply eqb_neq in Hop. unfold complete_job.
    destruct (jobs self !! id') as [j' |]; [| eauto].
    rewrite jobs_put. simpl. rewrite lookup_insert_ne by exact Hop. eauto.
  - apply eqb_neq in Hop. unfold fail_job.
    destruct (jobs self !! id') as [j' |]; [| eauto].
    rewrite jobs_put. simpl. rewrite lookup_insert_ne by exact Hop. eauto.
  - unfold queue_get. destruct (job_queues self !! id') as [[| ? ?] |]; eauto.
  - exists j. split; [| auto].
    apply map_lookup_filter_Some. split; [exact Hj |]. simpl.
    unfold expired. apply Z.ltb_ge. apply Z.leb_le in Hop. lia.
Qed.

Lemma run_waiting (ops : list Op) (self : JobManager) (id : string) (deadline : Z) :
  forallb (leaves_waiting id deadline) ops = true ->
  waiting self id deadline -> waiting (run self ops) id deadline.
Proof.
  unfold run. revert self.
  induction ops as [| op ops IH]; simpl; intros self Hops Hw; [exact Hw |].
  apply andb_true_iff in Hops as [Hop Hops].
  apply IH; [exact Hops |]. apply step_waiting; assumption.
Qed.

Lemma created_and_started (self : JobManager) (id c k : string) (l : Z)
    (ic : bool) (t1 t2 : Z) :
  waiting (mark_running (fst (create_job self id c k l ic t1 t2)) id) id
          (t2 + ttl_seconds self).
Proof.
  unfold waiting, mark_running, get_job, create_job. simpl.
  rewrite lookup_insert_eq. simpl. rewrite lookup_insert_eq.
  eexists. split; [reflexivity |]. simpl. auto.
Qed.

Lemma cleanup_removes (self : JobManager) (id : string) (deadline now : Z) :
  waiting self id deadline -> (deadline < now)%Z ->
  get_job (cleanup_expired_jobs self now) id = None.
Proof.
  unfold waiting, get_job. intros (j & Hj & _ & He) Hlt. simpl.
  apply map_lookup_filter_None. right. intros j' Hj'. simpl.
  rewrite Hj in Hj'. injection Hj' as <-.
  unfold expired. intros Hf. apply Z.ltb_ge in Hf. lia.
Qed.

(** C9 (as amended). A job that has been created and started and then
    sees any calls other than its own completion, its failure or a
    re-creation under its id, with every sweep of [cleanup_expired_jobs]
    run no later than its expiry timestamp, is returned by [get_job] with
    status "running"; and a sweep of [cleanup_expired_jobs] run after the
    expiry timestamp removes it, so that [get_job] returns nothing. *)
Theorem running_job_until_sweep (self : JobManager) (id c k : string) (l : Z)
    (ic : bool) (t1 t2 : Z) (ops : list Op) :
  let deadline := (t2 + ttl_seconds self)%Z in
  let started := mark_running (fst (create_job self id c k l ic t1 t2)) id in
  forallb (leaves_waiting id deadline) ops = true ->
  (exists j, get_job (run started ops) id = Some j /\
             status j = "running"%string /\ expires_at j = deadline) /\
  (forall now, (deadline < now)%Z ->
     get_job (cleanup_expired_jobs (run started ops) now) id = None).
Proof.
  intros deadline started Hops.
  assert (Hw : waiting (run started ops) id deadline).
  { apply run_waiting; [exact Hops |]. apply created_and_started. }
  split; [exact Hw |].
  intros now Hnow. eapply cleanup_removes; eassumption.
Qed.

Lemma running_job_until_sweep_witness :
  (exists j, get_job (run (mark_running
                             (fst (create_job Examples.fresh_manager "job-1"
                                     "Helsinki" "QSR" 10 false 0 0)) "job-1")
                          Examples.quiet_calls) "job-1" = Some j /\
             status j = "running"%string /\ expires_at j = 3600%Z) /\
  get_job (cleanup_expired_jobs
             (run (mark_running
                     (fst (create_job Examples.fresh_manager "job-1"
                             "Helsinki" "QSR" 10 false 0 0)) "job-1")
                  Examples.quiet_calls) 3601) "job-1" = None.
Proof.
  destruct (running_job_until_sweep Examples.fresh_manager "job-1" "Helsinki"
              "QSR" 10 false 0 0 Examples.quiet_calls) as [Hrun Hgone].
  - vm_compute. reflexivity.
  - split; [exact Hrun |]. apply Hgone. vm_compute. reflexivity.
Defined.

(** C9 fails as stated: [get_job] never looks at the clock, so a job whose
    expiry (3600) has passed — here a stage update arrives at time 5000 —
    is still returned as running until a sweep is run. *)
Lemma expired_job_still_retrievable :
  exists j, get_job (run (mark_running
                            (fst (create_job Examples.fresh_manager "job-1"
                                    "Helsinki" "QSR" 10 false 0 0)) "job-1")
                         Examples.late_calls) "job-1" = Some j /\
            status j = "running"%string /\ expires_at j = 3600%Z /\
            (expires_at j < 5000)%Z.
Proof.
  eexists. split; [vm_compute; reflexivity |]. simpl.
  repeat split; reflexivity.
Qed.

End JobLifecycle.

(** ** Trust metrics (claim C10) *)

Section Trust.
Import TrustMetrics.

Lemma real_round_upper (x : R) (b : Z) : (x <= IZR b)%R -> (PyReal.round x <= b)%Z.
Proof.
  intros Hx. unfold PyReal.round.
  destruct (base_Int_part x) as [Hlo Hhi].
  assert (Hf : (Int_part x <= b)%Z).
  { apply le_IZR. lra. }
  destruct (Z.eq_dec (Int_part x) b) as [He | Hne].
  - unfold PyReal.Rltb.
    destruct (Rlt_dec (x - IZR (Int_part x)) (1 / 2)) as [_ | Hn]; [lia |].
    exfalso. apply Hn. rewrite He. lra.
  - unfold PyReal.Rltb.
    destruct (Rlt_dec _ _); [lia |].
    destruct (Rlt_dec _ _); [lia |].
    destruct (Z.even _); lia.
Qed.

Lemma real_round_nd_upper (x : R) (b : Z) :
  (x * 100 <= IZR b)%R -> PyReal.round_nd x 2 <= inject_Z b / 100.
Proof.
  intros Hx. unfold PyReal.round_nd.
  change (inject_Z (10 ^ Z.of_nat 2)) with 100.
  change (IZR (10 ^ Z.of_nat 2)) with 100%R.
  apply Qmult_le_compat_r; [| discriminate].
  rewrite <- Zle_Qle. apply real_round_upper. exact Hx.
Qed.

Lemma consistency_le_1 (score_components : gmap string Q) :
  (consistency score_components <= 1)%R.
Proof.
  unfold consistency, PyReal.max, PyReal.Rltb.
  destruct (Rlt_dec _ _); [| lra].
  match goal with |- context [sqrt ?v] => pose proof (sqrt_pos v) end. lra.
Qed.

Lemma completeness_zero (score_components : gmap string Q) :
  dom score_components ⊆ component_keys ->
  completeness score_components == 0.
Proof.
  intros Hdom.
  assert (Hnone : forall f, f ∉ component_keys -> score_components !! f = None).
  { intros f Hf. apply not_elem_of_dom. set_solver. }
  unfold completeness, count_present, required_features. cbn [List.filter].
  rewrite !Hnone by (refine (bool_decide_unpack _ _); vm_compute; exact I).
  reflexivity.
Qed.

(** C10. For every input of [calculate_confidence] whose score components
    carry only the component-score keys (population, income, access,
    competition, walkability) and whose coverage is a valid [DataCoverage],
    the completeness term is 0, because the required feature names are
    looked up in the score components, and the returned confidence is at
    most 0.7. *)
Theorem confidence_capped_without_features (score_components : gmap string Q)
    (coverage : DataCoverage) :
  dom score_components ⊆ component_keys ->
  DataCoverage_valid coverage ->
  completeness score_components == 0 /\
  calculate_confidence score_components coverage <= 7 # 10.
Proof.
  intros Hdom (_ & _ & _ & Hov).
  pose proof (completeness_zero score_components Hdom) as Hc.
  split; [exact Hc |].
  unfold calculate_confidence.
  assert (H70 : (7 # 10) == inject_Z 70 / 100) by reflexivity.
  rewrite H70. apply real_round_nd_upper.
  assert (Hcov : (Q2R (overall coverage * (4 # 10)) <= 4 / 10)%R).
  { replace (4 / 10)%R with (Q2R (4 # 10)) by (unfold Q2R; simpl; lra).
    apply Qle_Rle. lra. }
  assert (Hcomp : Q2R (completeness score_components * (3 # 10)) = 0%R).
  { replace 0%R with (Q2R 0) by (unfold Q2R; simpl; lra).
    apply Qeq_eqR. rewrite Hc. reflexivity. }
  pose proof (consistency_le_1 score_components) as Hcons.
  rewrite Hcomp.
  unfold PyReal.min, PyReal.Rltb. destruct (Rlt_dec _ _); lra.
Qed.

Lemma confidence_capped_without_features_witness :
  completeness Examples.engine_components == 0 /\
  calculate_confidence Examples.engine_components Examples.full_coverage <= 7 # 10.
Proof.
  apply confidence_capped_without_features.
  - refine (bool_decide_unpack _ _). vm_compute. exact I.
  - unfold DataCoverage_valid; simpl. repeat split; discriminate.
Defined.

End Trust.

(* ===================================================================== *)
(** * Further properties of the modelled code *)
(* ===================================================================== *)

(** ** Scoring engine *)

Section MoreScoring.
Import Database Scorer.

(** X1. [_calculate_population_score] never raises, whatever the density and
    the optimum (the division is only reached when [0 < density < optimal]):
    it returns 100 from the optimum on, 0 for a density of at most 0, and
    [density / optimal * 100], strictly between 0 and 100, in between. *)
Theorem population_score_total (density optimal : Q) :
  exists s, _calculate_population_score density optimal = Ok s /\
    0 <= s <= 100 /\
    (optimal <= density -> s = 100) /\
    (density < optimal -> density <= 0 -> s = 0) /\
    (0 < density < optimal -> s = density / optimal * 100 /\ 0 < s < 100).
Proof.
  unfold _calculate_population_score.
  qcase.
  - exists 100. repeat split; try reflexivity; intros; lra.
  - qcase.
    + exists 0. repeat split; try reflexivity; intros; lra.
    + rewrite div_nonzero by (intros He; lra). simpl.
      assert (Hp : 0 < density / optimal) by (apply Qdiv_pos; lra).
      assert (Hl : density / optimal < 1) by (apply Qdiv_lt_1; lra).
      eexists. split; [reflexivity |].
      repeat split; intros; try lra.
Qed.

(** X2. The access and walkability scores never get worse when the site
    gets better.  [_calculate_access_score] stays within [50, 100], and for
    metro distances [m <= m'] and tram distances [t <= t'] the score at
    [(m, t)] is at least the score at [(m', t')]; a known distance never
    scores below a missing one.  [_calculate_walkability_score] stays
    within [20, 100] and is monotone in the number of points of interest. *)
Theorem access_and_walkability_monotone (m m' t t' p p' : Q) :
  m <= m' -> t <= t' -> p <= p' ->
  (_calculate_access_score (Some m') (Some t') <= _calculate_access_score (Some m) (Some t) /\
   _calculate_access_score None (Some t) <= _calculate_access_score (Some m) (Some t) /\
   _calculate_access_score (Some m) None <= _calculate_access_score (Some m) (Some t) /\
   _calculate_access_score None None == 50 /\
   50 <= _calculate_access_score (Some m) (Some t) <= 100) /\
  (_calculate_walkability_score p <= _calculate_walkability_score p' /\
   20 <= _calculate_walkability_score p <= 100).
Proof.
  intros Hm Ht Hp. split.
  - unfold _calculate_access_score, min. repeat split; qcases; lra.
  - unfold _calculate_walkability_score, max. repeat split; qcases; lra.
Qed.

Lemma access_and_walkability_monotone_witness :
  _calculate_access_score (Some 600) (Some 250) <= _calculate_access_score (Some 150) (Some 80) /\
  _calculate_walkability_score 8 <= _calculate_walkability_score 30.
Proof.
  destruct (access_and_walkability_monotone 150 600 80 250 8 30)
    as ((Ha & _) & (Hw & _)); [discriminate | discriminate | discriminate |].
  split; assumption.
Defined.

(** X3. For a non-negative base revenue and a positive competition target,
    the revenue [_calculate_revenue] returns lies between 50% and 195% of the
    base revenue (the population multiplier is capped at 1.5, the income
    multiplier at 1.3, and the saturation penalty is never negative). *)
Theorem revenue_within_band_of_base (base density income competitors rev : Q)
    (cfg : ConceptConfig) :
  0 <= base -> 0 < cfg_target_competitors_per_1k cfg ->
  _calculate_revenue base density income competitors cfg = Ok rev ->
  base * (5 # 10) <= rev <= base * (195 # 100).
Proof.
  intros Hbase Htarget. unfold _calculate_revenue. intros H.
  apply bind_Ok in H as (r & _ & H).
  apply bind_Ok in H as (im & Him & H).
  apply bind_Ok in H as (sp & Hsp & H).
  injection H as <-.
  assert (Him' : (7 # 10) <= im <= (13 # 10)).
  { revert Him. qcase.
    - intros Him. apply bind_Ok in Him as (r' & _ & [= <-]).
      unfold min; qcases; unfold max; qcases; lra.
    - intros [= <-]. lra. }
  assert (Hsp' : 0 <= sp <= (4 # 10)).
  { revert Hsp. qcase.
    - intros Hsp. apply bind_Ok in Hsp as (r' & Hd & [= <-]).
      apply div_Ok in Hd as [_ ->].
      assert (1 < competitors / cfg_target_competitors_per_1k cfg).
      { apply Qlt_shift_div_l; lra. }
      unfold min; qcases; lra.
    - intros [= <-]. lra. }
  assert (Hpm : min r (15 # 10) <= 15 # 10) by (unfold min; qcase; lra).
  set (pm := min r (15 # 10)) in *. clearbody pm.
  assert (Ht : 0 <= im * (1 - sp) <= 13 # 10) by nra.
  assert (Hbt : 0 <= base * (im * (1 - sp)) <= base * (13 # 10)) by nra.
  assert (Hrev : base * pm * im * (1 - sp) <= base * (195 # 100)).
  { assert (E : base * pm * im * (1 - sp) == base * (im * (1 - sp)) * pm) by ring.
    rewrite E.
    set (bt := base * (im * (1 - sp))) in *. clearbody bt. nra. }
  unfold max. qcase; lra.
Qed.

Lemma revenue_within_band_of_base_witness :
  exists rev,
    _calculate_revenue 100000 9000 60000 3 Examples.generous_config = Ok rev /\
    100000 * (5 # 10) <= rev <= 100000 * (195 # 100).
Proof.
  eexists. split; [vm_compute; reflexivity |].
  apply (revenue_within_band_of_base 100000 9000 60000 3 _ Examples.generous_config).
  - discriminate.
  - reflexivity.
  - vm_compute. reflexivity.
Defined.

(** X4. A concept whose income range is a single point makes income scoring
    fail: with [target_min = target_max], a site whose median income equals
    that value raises [ZeroDivisionError]. *)
Theorem degenerate_income_range_raises (median_income target_min target_max : Q) :
  target_min == target_max -> median_income == target_min ->
  _calculate_income_score median_income target_min target_max = Raise ZeroDivisionError.
Proof.
  intros Hr Hi. unfold _calculate_income_score.
  qcase; [lra |]. qcase; [lra |].
  unfold div. qcase; [reflexivity |].
  exfalso. apply Hc1. qhalf. lra.
Qed.

Lemma degenerate_income_range_raises_witness :
  _calculate_income_score 40000 40000 40000 = Raise ZeroDivisionError.
Proof.
  apply degenerate_income_range_raises; reflexivity.
Defined.

End MoreScoring.

Section ScoringFailures.
Import Database Scorer.

Lemma bind_Raise {A B : Type} (m : res A) (k : A -> res B) (e : exn) :
  (x ← m; k x) = Raise e -> m = Raise e \/ exists a, m = Ok a /\ k a = Raise e.
Proof.
  destruct m as [a | e']; simpl; intros H; [eauto |].
  injection H as ->. auto.
Qed.

Lemma get_num_Raise (d : gmap string value) (k : string) (x : Q) (e : exn) :
  get_num d k x = Raise e -> e = TypeError /\ d !! k = Some None.
Proof.
  unfold get_num. destruct (d !! k) as [[q |] |]; intros [= <-]; auto.
Qed.

Lemma get_num_Ok (d : gmap string value) (k : string) (x q : Q) :
  get_num d k x = Ok q -> d !! k <> Some None.
Proof.
  unfold get_num. destruct (d !! k) as [[q' |] |]; congruence.
Qed.

Lemma get_num_returns (d : gmap string value) (k : string) (x : Q) :
  d !! k <> Some None -> exists q, get_num d k x = Ok q.
Proof.
  unfold get_num. destruct (d !! k) as [[q' |] |]; eauto. congruence.
Qed.

Lemma div_Raise (a b : Q) (e : exn) : div a b = Raise e -> e = ZeroDivisionError.
Proof. unfold div. destruct (Qeqb b 0); intros [= <-]; reflexivity. Qed.

(** A step that can only fail by a division fails with [ZeroDivisionError]. *)
Ltac div_only :=
  repeat match goal with
  | |- (if ?c then _ else _) = Raise _ -> _ => destruct c
  | |- Ok _ = Raise _ -> _ => discriminate
  | |- (_ ← div _ _; _) = Raise _ -> _ =>
      let H := fresh in
      intros H; apply bind_Raise in H as [H | (? & _ & H)];
      [apply div_Raise in H; exact H | revert H]
  | |- (_ ← _; _) = Raise _ -> _ =>
      let H := fresh in
      intros H; apply bind_Raise in H as [H | (? & _ & H)]; revert H
  end.

Lemma population_score_Raise (density optimal : Q) (e : exn) :
  _calculate_population_score density optimal = Raise e -> e = ZeroDivisionError.
Proof. unfold _calculate_population_score. div_only. Qed.

Lemma income_score_Raise (i a b : Q) (e : exn) :
  _calculate_income_score i a b = Raise e -> e = ZeroDivisionError.
Proof. unfold _calculate_income_score. div_only. Qed.

Lemma competition_score_Raise (c t : Q) (e : exn) :
  _calculate_competition_score c t = Raise e -> e = ZeroDivisionError.
Proof. unfold _calculate_competition_score. div_only. Qed.

Lemma revenue_Raise (b d i c : Q) (cfg : ConceptConfig) (e : exn) :
  _calculate_revenue b d i c cfg = Raise e -> e = ZeroDivisionError.
Proof. unfold _calculate_revenue. div_only. Qed.

(** X5. [calculate_score] fails in three ways only: with [ValueError]
    "Unknown concept: ..." exactly when no configuration is resolved, with
    [TypeError] when one of the four numeric features is bound to [None],
    and with [ZeroDivisionError] otherwise. *)
Theorem calculate_score_failures (self : ScoringEngine) (features : gmap string value)
    (concept : string) (cid : option string) (e : exn) :
  calculate_score self features concept cid = Raise e ->
  (fst (_get_concept_config self concept cid) = None /\
   e = ValueError ("Unknown concept: " ++ concept)) \/
  (fst (_get_concept_config self concept cid) <> None /\
   ((e = TypeError /\ exists k, In k numeric_keys /\ features !! k = Some None) \/
    e = ZeroDivisionError)).
Proof.
  unfold calculate_score.
  destruct (_get_concept_config self concept cid) as [[cfg |] used]; simpl.
  - intros H. right. split; [discriminate |].
    apply bind_Raise in H as [H | (density & _ & H)].
    { left. apply get_num_Raise in H as [-> Hk]. split; [reflexivity |].
      eexists. split; [| exact Hk]. simpl. auto. }
    apply bind_Raise in H as [H | (ps & _ & H)].
    { right. eapply population_score_Raise, H. }
    apply bind_Raise in H as [H | (income & _ & H)].
    { left. apply get_num_Raise in H as [-> Hk]. split; [reflexivity |].
      eexists. split; [| exact Hk]. simpl. auto. }
    apply bind_Raise in H as [H | (is_ & _ & H)].
    { right. eapply income_score_Raise, H. }
    apply bind_Raise in H as [H | (comp & _ & H)].
    { left. apply get_num_Raise in H as [-> Hk]. split; [reflexivity |].
      eexists. split; [| exact Hk]. simpl. auto. }
    apply bind_Raise in H as [H | (cs & _ & H)].
    { right. eapply competition_score_Raise, H. }
    apply bind_Raise in H as [H | (poi & _ & H)].
    { left. apply get_num_Raise in H as [-> Hk]. split; [reflexivity |].
      eexists. split; [| exact Hk]. simpl. auto 6. }
    apply bind_Raise in H as [H | (rev & _ & H)].
    { right. eapply revenue_Raise, H. }
    discriminate.
  - intros [= <-]. left. auto.
Qed.

Lemma calculate_score_failures_witness :
  calculate_score Examples.yaml_engine Examples.ideal_site "Sushi" None
  = Raise (ValueError "Unknown concept: Sushi").
Proof.
  destruct (calculate_score Examples.yaml_engine Examples.ideal_site "Sushi" None)
    as [r | e] eqn:H; [vm_compute in H; discriminate |].
  destruct (calculate_score_failures _ _ _ _ _ H) as [[_ ->] | [Hcfg _]].
  - reflexivity.
  - exfalso. apply Hcfg. vm_compute. reflexivity.
Defined.

(** X6. For a concept with a proper income range [0 < min < max], a positive
    optimal density and a positive competition target, [calculate_score]
    returns a result exactly when none of the four numeric features
    (population_density, median_income, competitors_per_1k_residents,
    walkability_poi_count) is bound to [None]; absent features default to 0. *)
Theorem calculate_score_succeeds_iff (self : ScoringEngine)
    (features : gmap string value) (concept : string) (cid : option string)
    (cfg : ConceptConfig) (used : option string) :
  _get_concept_config self concept cid = (Some cfg, used) ->
  0 < cfg_target_income_min cfg < cfg_target_income_max cfg ->
  0 < cfg_optimal_population_density cfg ->
  0 < cfg_target_competitors_per_1k cfg ->
  (exists r, calculate_score self features concept cid = Ok r) <->
  (forall k, In k numeric_keys -> features !! k <> Some None).
Proof.
  intros Hcfg [Hmin Hrange] Hopt Hcomp. split.
  - intros [r Hr].
    apply calculate_score_Ok in Hr
      as (cfg' & used' & density & ps & income & is_ & comp & cs & poi & rev &
          _ & Hd & _ & Hi & _ & Hc & _ & Hp & _).
    apply get_num_Ok in Hd, Hi, Hc, Hp.
    intros k [<- | [<- | [<- | [<- | []]]]]; assumption.
  - intros Hnum.
    unfold calculate_score. rewrite Hcfg.
    destruct (get_num_returns features "population_density" 0) as [density ->];
      [apply Hnum; simpl; auto |].
    destruct (get_num_returns features "median_income" 0) as [income ->];
      [apply Hnum; simpl; auto |].
    destruct (get_num_returns features "competitors_per_1k_residents" 0) as [comp ->];
      [apply Hnum; simpl; auto |].
    destruct (get_num_returns features "walkability_poi_count" 0) as [poi ->];
      [apply Hnum; simpl; auto 6 |].
    cbn [mbind res_bind bind].
    assert (Hps : exists ps,
               _calculate_population_score density
                 (cfg_optimal_population_density cfg) = Ok ps).
    { unfold _calculate_population_score. qcases; eauto.
      rewrite div_nonzero by (intros He; lra). simpl. eauto. }
    destruct Hps as [ps ->]. cbn [mbind res_bind bind].
    destruct (income_score_returns income _ _ Hmin Hrange) as (is_ & ->).
    cbn [mbind res_bind bind].
    assert (Hnz : ~ cfg_target_competitors_per_1k cfg == 0) by (intros He; lra).
    destruct (competition_score_returns comp _ Hnz) as (cs & ->).
    cbn [mbind res_bind bind].
    assert (Hrev : exists rev,
               _calculate_revenue (cfg_base_revenue_eur cfg) density income comp cfg
               = Ok rev).
    { unfold _calculate_revenue.
      rewrite (div_nonzero density) by (intros He; lra). simpl.
      rewrite (div_nonzero income) by (intros He; qhalf; lra).
      rewrite (div_nonzero comp) by exact Hnz.
      qcases; eauto. }
    destruct Hrev as [rev ->]. cbn [mbind res_bind bind]. eauto.
Qed.

Lemma calculate_score_succeeds_iff_witness :
  exists r, calculate_score Examples.yaml_engine Examples.ideal_site "QSR" None = Ok r.
Proof.
  apply (calculate_score_succeeds_iff Examples.yaml_engine Examples.ideal_site "QSR"
           None Examples.generous_config None).
  - reflexivity.
  - split; reflexivity.
  - reflexivity.
  - reflexivity.
  - intros k [<- | [<- | [<- | [<- | []]]]]; vm_compute; discriminate.
Defined.

(** X7. A configuration that [_get_concept_config] reports with a concept
    id always comes from an active row of the session: either the active row
    with the requested id, or an active system default of the requested
    category.  An inactive (soft-deleted) concept is never used. *)
Theorem resolved_concept_is_active (self : ScoringEngine) (category : string)
    (cid : option string) (cfg : ConceptConfig) (i : string) :
  _get_concept_config self category cid = (Some cfg, Some i) ->
  exists rows c,
    db_session self = Some rows /\ In c rows /\ is_active c = true /\
    c_id c = i /\ cfg = _db_concept_to_config c /\
    (cid = Some i \/ (c_category c = category /\ is_system_default c = true)).
Proof.
  unfold _get_concept_config, first.
  destruct (db_session self) as [rows |].
  2: { destruct (yaml_concepts self !! category); discriminate. }
  assert (Hcat :
    match find (fun c => String.eqb (c_category c) category
                         && is_system_default c && is_active c) rows with
    | Some c => (Some (_db_concept_to_config c), Some (c_id c))
    | None => match yaml_concepts self !! category with
              | Some cfg0 => (Some cfg0, None)
              | None => (None, None)
              end
    end = (Some cfg, Some i) ->
    exists rows0 c,
      Some rows = Some rows0 /\ In c rows0 /\ is_active c = true /\
      c_id c = i /\ cfg = _db_concept_to_config c /\
      (cid = Some i \/ (c_category c = category /\ is_system_default c = true))).
  { destruct (find _ rows) as [c |] eqn:Hf.
    - intros [= <- <-]. apply find_some in Hf as [Hin Hp].
      apply andb_true_iff in Hp as [Hp Hact].
      apply andb_true_iff in Hp as [Hc Hdef].
      apply String.eqb_eq in Hc.
      exists rows, c. repeat split; auto.
    - destruct (yaml_concepts self !! category); discriminate. }
  destruct (truthy cid) eqn:Ht; [| exact Hcat].
  destruct (find (fun c => match cid with
                           | Some i0 => String.eqb (c_id c) i0
                           | None => false
                           end && is_active c) rows) as [c |] eqn:Hf; [| exact Hcat].
  intros [= <- <-]. apply find_some in Hf as [Hin Hp].
  apply andb_true_iff in Hp as [Hc Hact].
  destruct cid as [i0 |]; [| discriminate].
  apply String.eqb_eq in Hc. subst i0.
  exists rows, c. repeat split; auto.
Qed.

Lemma resolved_concept_is_active_witness :
  exists c, In c [Examples.customer_concept] /\ is_active c = true /\
            c_id c = "c-7f3a"%string.
Proof.
  destruct (resolved_concept_is_active Examples.customer_engine "QSR"
              (Some "c-7f3a"%string)
              (_db_concept_to_config Examples.customer_concept) "c-7f3a")
    as (rows & c & Hrows & Hin & Hact & Hid & _).
  - reflexivity.
  - injection Hrows as <-. exists c. auto.
Defined.

(** The completeness-based confidence is [0.6] plus [0.1] for each of
    the four required fields (population_density, median_income,
    competitors_count, nearest_metro_distance_m) that is present and not
    [None]; it is 1 exactly when all four are present. *)
Lemma confidence_steps (features : gmap string value) :
  exists k : Z,
    (0 <= k <= 4)%Z /\
    _calculate_confidence features == (6 # 10) + inject_Z k * (1 # 10) /\
    (k = 4%Z <-> forall f, In f required_fields -> is_Some (get features f)).
Proof.
  unfold _calculate_confidence, required_fields. cbn [List.filter].
  destruct (bool_decide (is_Some (get features "population_density"))) eqn:H1;
  destruct (bool_decide (is_Some (get features "median_income"))) eqn:H2;
  destruct (bool_decide (is_Some (get features "competitors_count"))) eqn:H3;
  destruct (bool_decide (is_Some (get features "nearest_metro_distance_m"))) eqn:H4;
  match goal with
  | |- context [len ?l] => exists (Z.of_nat (length l))
  end;
  (split; [simpl; lia |]); (split; [vm_compute; reflexivity |]);
  (split;
   [ intros Hk; try (simpl in Hk; lia);
     apply bool_decide_eq_true in H1, H2, H3, H4;
     intros f [<- | [<- | [<- | [<- | []]]]]; assumption
   | intros Hall;
     try reflexivity;
     exfalso;
     first
       [ apply bool_decide_eq_false in H1; apply H1, Hall; simpl; auto
       | apply bool_decide_eq_false in H2; apply H2, Hall; simpl; auto
       | apply bool_decide_eq_false in H3; apply H3, Hall; simpl; auto
       | apply bool_decide_eq_false in H4; apply H4, Hall; simpl; auto 6 ] ]).
Qed.

End ScoringFailures.

(** ** Candidate generation *)

Section MoreHaversine.
Import AddressGenerator.
Local Open Scope R_scope.

Lemma atan2_quadrant (y x : R) : 0 <= y -> 0 <= x -> 0 <= atan2 y x <= PI / 2.
Proof.
  intros Hy Hx. unfold atan2. pose proof PI_RGT_0 as Hpi.
  destruct (Rlt_dec 0 x) as [Hpos | Hnpos].
  - pose proof (atan_bound (y / x)) as [_ Hub].
    split; [| lra].
    destruct (Req_dec y 0) as [-> | Hne].
    + unfold Rdiv. rewrite Rmult_0_l, atan_0. lra.
    + assert (0 < y / x) by (apply Rdiv_lt_0_compat; lra).
      pose proof (atan_increasing 0 (y / x) H) as Hinc. rewrite atan_0 in Hinc. lra.
  - destruct (Rlt_dec x 0); [lra |].
    destruct (Rlt_dec 0 y); [lra |].
    destruct (Rlt_dec y 0); lra.
Qed.

(** X8. The haversine distance is symmetric, is 0 from a point to itself,
    and always lies between 0 and half the circumference of the sphere,
    [PI * 6371000] metres. *)
Theorem haversine_distance_facts (lat1 lng1 lat2 lng2 : Q) :
  _haversine_distance lat1 lng1 lat2 lng2 = _haversine_distance lat2 lng2 lat1 lng1 /\
  _haversine_distance lat1 lng1 lat1 lng1 = 0 /\
  0 <= _haversine_distance lat1 lng1 lat2 lng2 <= PI * 6371000.
Proof.
  split; [apply haversine_sym |]. split.
  - unfold _haversine_distance, haversine_a, radians.
    rewrite !Q2R_minus.
    replace ((Q2R lat1 - Q2R lat1) * PI / 180 / 2) with 0 by lra.
    replace ((Q2R lng1 - Q2R lng1) * PI / 180 / 2) with 0 by lra.
    rewrite sin_0. simpl pow.
    replace (0 * (0 * 1) + cos (Q2R lat1 * PI / 180) * cos (Q2R lat1 * PI / 180)
             * (0 * (0 * 1))) with 0 by ring.
    rewrite sqrt_0. replace (1 - 0) with 1 by lra. rewrite sqrt_1.
    unfold atan2. destruct (Rlt_dec 0 1); [| lra].
    unfold Rdiv. rewrite Rmult_0_l, atan_0. ring.
  - unfold _haversine_distance.
    pose proof (haversine_a_range lat1 lng1 lat2 lng2) as [Ha0 Ha1].
    pose proof (atan2_quadrant (sqrt (haversine_a lat1 lng1 lat2 lng2))
                  (sqrt (1 - haversine_a lat1 lng1 lat2 lng2))
                  (sqrt_pos _) (sqrt_pos _)) as [Hc0 Hc1].
    split; nra.
Qed.

End MoreHaversine.

Section MoreAddresses.
Import AddressGenerator.

Lemma append_nonempty_l (s1 s2 : string) : s1 <> ""%string -> (s1 ++ s2)%string <> ""%string.
Proof. destruct s1; [congruence | discriminate]. Qed.

Lemma append_nonempty_r (s1 s2 : string) : s2 <> ""%string -> (s1 ++ s2)%string <> ""%string.
Proof. destruct s1; simpl; [auto | discriminate]. Qed.

Lemma nonempty_true (s : string) : nonempty s = true -> s <> ""%string.
Proof.
  unfold nonempty. intros H. apply negb_true_iff in H.
  apply String.eqb_neq. exact H.
Qed.

Lemma mock_address_nonempty (self : AddressGenerator) (lat lng : Q) :
  _generate_mock_address self lat lng <> ""%string.
Proof.
  unfold _generate_mock_address.
  apply append_nonempty_r, append_nonempty_l. discriminate.
Qed.

Lemma reverse_geocode_nonempty (self : AddressGenerator) (lat lng : Q) :
  exists a, _reverse_geocode self lat lng = Some a /\ a <> ""%string.
Proof.
  unfold _reverse_geocode.
  destruct (digitransit_reverse_geocode self lat lng) as [[[[[| f fs] |]] |] | e];
    try (eexists; split; [reflexivity | apply mock_address_nonempty]).
  destruct (nonempty (prop (default ∅ (properties f)) "street")) eqn:Hs; simpl;
    [| eexists; split; [reflexivity | apply mock_address_nonempty]].
  destruct (nonempty (prop (default ∅ (properties f)) "locality")); simpl;
    [| eexists; split; [reflexivity | apply mock_address_nonempty]].
  apply nonempty_true in Hs.
  destruct (nonempty (prop (default ∅ (properties f)) "housenumber"));
    eexists; (split; [reflexivity | apply append_nonempty_l; exact Hs]).
Qed.

(** X9. [_reverse_geocode] always produces an address and never an empty
    one, whatever the geocoder answers or raises; when the geocoder raises
    or has no answer the address is the synthetic one. *)
Theorem reverse_geocode_always_answers (self : AddressGenerator) (lat lng : Q) :
  (exists a, _reverse_geocode self lat lng = Some a /\ a <> ""%string) /\
  (forall e, digitransit_reverse_geocode self lat lng = Raise e ->
     _reverse_geocode self lat lng = Some (_generate_mock_address self lat lng)) /\
  (digitransit_reverse_geocode self lat lng = Ok None ->
     _reverse_geocode self lat lng = Some (_generate_mock_address self lat lng)).
Proof.
  split; [apply reverse_geocode_nonempty |].
  unfold _reverse_geocode. split.
  - intros e ->. reflexivity.
  - intros ->. reflexivity.
Qed.

(** X10. Every synthetic address has the shape
    "<street> <house>, 00<postal> Helsinki" with a street from the fixed list
    of twelve, a house number from 1 to 99 and a postal number from 100 to
    989, for all coordinates, negative ones included. *)
Theorem mock_address_shape (self : AddressGenerator) (lat lng : Q) :
  exists street house postal,
    In street streets /\ (1 <= house <= 99)%Z /\ (100 <= postal <= 989)%Z /\
    _generate_mock_address self lat lng
    = (street ++ " " ++ pretty house ++ ", " ++ ("00" ++ pretty postal)
       ++ " Helsinki")%string.
Proof.
  unfold _generate_mock_address.
  eexists. eexists. eexists.
  split; [| split; [| split; [| reflexivity]]].
  - apply nth_In.
    pose proof (Z.mod_pos_bound (int ((lat + lng) * 1000))
                  (Z.of_nat (length streets))) as Hb.
    simpl length in *. lia.
  - pose proof (Z.mod_pos_bound (int (abs (lat - (601 # 10)) * 1000)) 99). lia.
  - pose proof (Z.mod_pos_bound (int (lng * 1000)) 890). lia.
Qed.

End MoreAddresses.

Section MoreDeduplication.
Import AddressGenerator.

Local Abbreviation desc := (fun a b : Candidate => score b <= score a).

Lemma dedup_loop_subset (m : Q) (s kept : list Candidate) (k : Candidate) :
  In k (dedup_loop m s kept) -> In k kept \/ In k s.
Proof.
  revert kept. induction s as [| c rest IH]; simpl; intros kept Hk; [auto |].
  destruct (too_close m c kept).
  - apply IH in Hk as [Hk | Hk]; auto.
  - apply IH in Hk as [Hk | Hk]; [| auto].
    apply in_app_or in Hk as [Hk | [<- | []]]; auto.
Qed.

Lemma sorted_remove_middle (l1 l2 : list Candidate) (x : Candidate) :
  StronglySorted desc (l1 ++ x :: l2) -> StronglySorted desc (l1 ++ l2).
Proof.
  induction l1 as [| y l1 IH]; simpl; intros H.
  - inversion H; assumption.
  - inversion H as [| ? ? Hs Hf]; subst. constructor; [auto |].
    rewrite List.Forall_forall in *. intros z Hz. apply Hf.
    apply in_app_or in Hz as [Hz | Hz]; apply in_or_app; simpl; auto.
Qed.

Lemma dedup_loop_sorted (m : Q) (s kept : list Candidate) :
  StronglySorted desc (kept ++ s) -> StronglySorted desc (dedup_loop m s kept).
Proof.
  revert kept. induction s as [| c rest IH]; simpl; intros kept H.
  - rewrite app_nil_r in H. exact H.
  - destruct (too_close m c kept).
    + apply IH. eapply sorted_remove_middle, H.
    + apply IH. rewrite <- app_assoc. exact H.
Qed.

Lemma sorted_is_fixed (l : list Candidate) :
  StronglySorted desc l -> sorted_by_score_desc l = l.
Proof.
  induction 1 as [| x l Hl IH Hx]; simpl; [reflexivity |].
  rewrite IH. destruct l as [| y ys]; simpl; [reflexivity |].
  inversion Hx as [| ? ? Hxy _]; subst.
  unfold Qleb. apply Qle_bool_iff in Hxy. rewrite Hxy. reflexivity.
Qed.

Lemma too_close_apart (m : Q) (c : Candidate) (kept : list Candidate) :
  Forall (fun k => apart m k c) kept -> too_close m c kept = false.
Proof.
  unfold too_close. induction 1 as [| k kept [_ Hk] Hrest IH]; simpl; [reflexivity |].
  rewrite IH, orb_false_r. unfold PyReal.Rltb.
  destruct (Rlt_dec _ _) as [Hlt | _]; [| reflexivity].
  unfold dist in Hk. lra.
Qed.

Lemma pairs_app_inv {A : Type} (P : A -> A -> Prop) (l : list A) (x : A) (l' : list A) :
  ForallOrdPairs P (l ++ x :: l') ->
  Forall (fun k => P k x) l /\ ForallOrdPairs P ((l ++ [x]) ++ l').
Proof.
  intros H. split.
  - induction l as [| y l IH]; simpl in *; [constructor |].
    inversion H as [| ? ? Hy Hl]; subst. constructor; [| auto].
    rewrite List.Forall_forall in Hy. apply Hy. apply in_or_app. simpl. auto.
  - rewrite <- app_assoc. exact H.
Qed.

Lemma dedup_loop_keeps_all (m : Q) (s kept : list Candidate) :
  ForallOrdPairs (apart m) (kept ++ s) -> dedup_loop m s kept = kept ++ s.
Proof.
  revert kept. induction s as [| c rest IH]; simpl; intros kept H.
  - rewrite app_nil_r. reflexivity.
  - apply pairs_app_inv in H as [Hc H].
    rewrite (too_close_apart m c kept Hc).
    rewrite IH by exact H. rewrite <- app_assoc. reflexivity.
Qed.

Lemma dedup_loop_head (m : Q) (s : list Candidate) (b : Candidate)
    (l : list Candidate) :
  exists rest, dedup_loop m s (b :: l) = b :: rest.
Proof.
  revert l. induction s as [| x s IH]; intros l; cbn [dedup_loop]; [eauto |].
  destruct (too_close m x (b :: l)); [apply IH |]. apply (IH (l ++ [x])).
Qed.

Lemma deduplicate_sorted (candidates : list Candidate) (m : Q) :
  StronglySorted desc (_deduplicate_by_distance candidates m).
Proof.
  unfold _deduplicate_by_distance. destruct candidates as [| c cs]; [constructor |].
  apply dedup_loop_sorted. apply (sorted_by_score_desc_sorted (c :: cs)).
Qed.

(** X11. [_deduplicate_by_distance] only returns candidates it was given,
    returns them in descending score order, and for a non-empty input keeps
    a candidate of the highest score; in particular it never returns an
    empty list for a non-empty input. *)
Theorem deduplicate_keeps_best (candidates : list Candidate) (m : Q) :
  Forall (fun k => In k candidates) (_deduplicate_by_distance candidates m) /\
  StronglySorted desc (_deduplicate_by_distance candidates m) /\
  (candidates <> [] ->
   exists best rest,
     _deduplicate_by_distance candidates m = best :: rest /\
     Forall (fun c => score c <= score best) candidates).
Proof.
  split; [| split; [apply deduplicate_sorted |]].
  - apply List.Forall_forall. intros k Hk.
    unfold _deduplicate_by_distance in Hk. destruct candidates as [| c cs]; [destruct Hk |].
    apply dedup_loop_subset in Hk as [[] | Hk].
    apply (proj1 (in_sorted_by_score_desc k (c :: cs))). exact Hk.
  - intros Hne. unfold _deduplicate_by_distance.
    destruct candidates as [| c cs]; [congruence |].
    pose proof (sorted_by_score_desc_sorted (c :: cs)) as Hs.
    pose proof (in_sorted_by_score_desc) as Hin.
    destruct (sorted_by_score_desc (c :: cs)) as [| b bs] eqn:Hsort.
    { exfalso. specialize (Hin c (c :: cs)). rewrite Hsort in Hin.
      apply (proj2 Hin). simpl. auto. }
    simpl. 
    assert (Hkeep : In b (dedup_loop m bs [b])).
    { apply dedup_loop_keeps. simpl. auto. }
    pose proof (dedup_loop_sorted m bs [b] Hs) as Hds.
    destruct (dedup_loop_head m bs b []) as [rest Hrest].
    exists b, rest. split; [exact Hrest |].
    apply List.Forall_forall. intros x Hx.
    apply (proj2 (Hin x (c :: cs))) in Hx. rewrite Hsort in Hx.
    destruct Hx as [<- | Hx]; [lra |].
    inversion Hs as [| ? ? _ Hf]; subst.
    rewrite List.Forall_forall in Hf. auto.
Qed.

(** X12. Deduplicating twice changes nothing:
    [_deduplicate_by_distance] is idempotent, and sorting its result by
    score again (as [generate_candidates] does) leaves it as it is. *)
Theorem deduplicate_idempotent (candidates : list Candidate) (m : Q) :
  _deduplicate_by_distance (_deduplicate_by_distance candidates m) m
  = _deduplicate_by_distance candidates m /\
  sorted_by_score_desc (_deduplicate_by_distance candidates m)
  = _deduplicate_by_distance candidates m.
Proof.
  pose proof (deduplicate_sorted candidates m) as Hs.
  pose proof (deduplicate_apart candidates m) as Ha.
  split; [| apply sorted_is_fixed, Hs].
  set (d := _deduplicate_by_distance candidates m) in *.
  unfold _deduplicate_by_distance at 1.
  destruct d as [| x xs] eqn:Hd; [reflexivity |].
  rewrite (sorted_is_fixed _ Hs).
  apply (dedup_loop_keeps_all m (x :: xs) []). exact Ha.
Qed.

Lemma length_add_ranks (i : Z) (l : list Candidate) :
  length (add_ranks i l) = length l.
Proof. revert i. induction l as [| x l IH]; intros i; simpl; congruence. Qed.

Lemma scores_add_ranks (i : Z) (l : list Candidate) :
  map score (add_ranks i l) = map score l.
Proof. revert i. induction l as [| x l IH]; intros i; simpl; [| rewrite IH]; reflexivity. Qed.

Lemma ranks_add_ranks (i : Z) (l : list Candidate) :
  map rank (add_ranks i l)
  = map (fun n => Some (i + 1 + Z.of_nat n)%Z) (seq 0 (length l)).
Proof.
  revert i. induction l as [| x l IH]; intros i; simpl; [reflexivity |].
  rewrite IH, <- seq_shift, map_map. f_equal; [f_equal; lia |].
  apply map_ext. intros n. f_equal. lia.
Qed.

Lemma sorted_scores_firstn (n : nat) (l : list Candidate) :
  StronglySorted desc l -> StronglySorted desc (firstn n l).
Proof.
  intros H. revert n. induction H as [| x l Hl IH Hx]; intros [| n]; simpl;
    try constructor; [apply IH |].
  apply List.Forall_forall. intros y Hy. apply in_firstn in Hy.
  rewrite List.Forall_forall in Hx. auto.
Qed.

Lemma sorted_map_score (l : list Candidate) :
  StronglySorted desc l -> StronglySorted (fun a b : Q => b <= a) (map score l).
Proof.
  induction 1 as [| x l Hl IH Hx]; simpl; constructor; [exact IH |].
  apply List.Forall_forall. intros q Hq. apply in_map_iff in Hq as (y & <- & Hy).
  rewrite List.Forall_forall in Hx. auto.
Qed.

(** X13. The list [generate_candidates] returns is in descending score
    order, carries the ranks 1, 2, 3, ... in that order, and has at most
    [limit] entries for a non-negative [limit]. *)
Theorem generated_candidates_ranked (top_areas : list Area)
    (candidates_for_area : Area -> list Candidate) (limit : Z) :
  let result := generate_candidates top_areas candidates_for_area limit in
  StronglySorted (fun a b : Q => b <= a) (map score result) /\
  map rank result = map (fun n => Some (1 + Z.of_nat n)%Z) (seq 0 (length result)) /\
  ((0 <= limit)%Z -> (Z.of_nat (length result) <= limit)%Z).
Proof.
  intros result. subst result. unfold generate_candidates.
  destruct top_areas as [| a0 areas].
  { simpl. repeat split; [constructor | lia]. }
  set (all_candidates := flat_map candidates_for_area (a0 :: areas)).
  repeat split.
  - rewrite scores_add_ranks. apply sorted_map_score.
    unfold slice_to. destruct (0 <=? limit)%Z;
      apply sorted_scores_firstn, sorted_by_score_desc_sorted.
  - rewrite ranks_add_ranks, length_add_ranks. reflexivity.
  - intros Hl. rewrite length_add_ranks. unfold slice_to.
    apply Z.leb_le in Hl as Hl'. rewrite Hl'.
    rewrite length_firstn. lia.
Qed.

End MoreDeduplication.

Section CandidateScores.
Import AddressGenerator CandidateScoring.

Lemma closest_pop_range (lat lng : Q) (l : list (Q * Q * Z)) (md : option R) (cp : Z) :
  (7500 <= cp <= 18000)%Z ->
  Forall (fun a => (7500 <= snd a <= 18000)%Z) l ->
  (7500 <= snd (closest lat lng l md cp) <= 18000)%Z.
Proof.
  intros Hcp Hl. revert md cp Hcp.
  induction Hl as [| [[alat alng] pop] l Hp Hl IH]; intros md cp Hcp; simpl; [exact Hcp |].
  destruct (match md with
            | Some d => PyReal.Rltb (_haversine_distance lat lng alat alng) d
            | None => true
            end); apply IH; [exact Hp | exact Hcp].
Qed.

Lemma hardcoded_population_range (lat lng : Q) :
  (7500 <= _get_hardcoded_population lat lng <= 18000)%Z.
Proof.
  unfold _get_hardcoded_population.
  pose proof (closest_pop_range lat lng areas None 8000) as H.
  destruct (closest lat lng areas None 8000) as [md cp]. simpl in H.
  assert (Hcp : (7500 <= cp <= 18000)%Z).
  { apply H; [lia |]. unfold areas. repeat constructor; simpl; lia. }
  destruct md as [d |]; [destruct (PyReal.Rltb d 2) |]; lia.
Qed.

Lemma population_score_range (lat lng : Q) :
  30 <= pop_score (_get_population_score lat lng) <= 72 /\
  pop_coverage (_get_population_score lat lng) = 1.
Proof.
  unfold _get_population_score.
  pose proof (hardcoded_population_range lat lng) as Hp.
  set (p := _get_hardcoded_population lat lng) in *. clearbody p.
  destruct (0 <? p)%Z eqn:Hpos; [| apply Z.ltb_ge in Hpos; lia].
  simpl. split; [| reflexivity].
  assert (Hq : inject_Z p / 25000 * 100 == inject_Z p * (1 # 250)) by (field).
  assert (Hlo : inject_Z 7500 <= inject_Z p) by (rewrite <- Zle_Qle; lia).
  assert (Hhi : inject_Z p <= inject_Z 18000) by (rewrite <- Zle_Qle; lia).
  change (inject_Z 7500) with 7500 in Hlo. change (inject_Z 18000) with 18000 in Hhi.
  unfold min. qcase; rewrite ?Hq in *; lra.
Qed.

Lemma score_candidate_result (lat lng : Q) (address concept : string)
    (include_crime : bool) :
  exists d, _score_candidate lat lng address concept include_crime = Some d /\
    sd_decision d = "PASS"%string /\ 51 <= sd_score d <= 64 /\
    sd_confidence d == 95 # 100.
Proof.
  unfold _score_candidate.
  destruct (population_score_range lat lng) as [Hps Hcov].
  rewrite Hcov.
  set (ps := pop_score (_get_population_score lat lng)) in *. clearbody ps.
  eexists. split; [reflexivity |]. simpl.
  set (cs := max (100 - (9 # 10) * (333 # 10)) 0).
  assert (Hcs : cs == 7003 # 100) by (vm_compute; reflexivity).
  set (ts := min (max (50 - inject_Z 250 / 10) 0 + max (50 - inject_Z 120 / 6) 0) 100).
  assert (Hts : ts == 55) by (vm_compute; reflexivity).
  clearbody cs ts.
  set (total := ps * (28 # 100) + cs * (15 # 100) + ts * (20 # 100)
                + 70 * (22 # 100) + 60 * (10 # 100)).
  assert (Htotal : 51 <= total <= 64) by (unfold total; rewrite Hcs, Hts; lra).
  clearbody total.
  split; [| split].
  - destruct (Qleb 85 total) eqn:H85; [apply Qleb_true in H85; lra |].
    destruct (Qleb 70 total) eqn:H70; [apply Qleb_true in H70; lra |].
    reflexivity.
  - split.
    + change 51 with (inject_Z 51). apply round_nd_lower. apply Htotal.
    + change 64 with (inject_Z 64). apply round_nd_upper. apply Htotal.
  - vm_compute. reflexivity.
Qed.

(** X14. With the placeholder competition, transit, income and traffic
    scores, [_score_candidate] returns a result for every sample point, and
    that result is always labelled "PASS": its score lies between 51 and 64
    (below the 70 needed for "NEGOTIATE") and its confidence is 0.95.  The
    result is the same with and without [include_crime]: the crime weight
    is set but never enters the score. *)
Theorem score_candidate_always_pass (lat lng : Q) (address concept : string)
    (include_crime : bool) :
  exists d, _score_candidate lat lng address concept include_crime = Some d /\
    sd_decision d = "PASS"%string /\ 51 <= sd_score d <= 64 /\
    sd_confidence d == 95 # 100 /\
    _score_candidate lat lng address concept (negb include_crime) = Some d.
Proof.
  destruct (score_candidate_result lat lng address concept include_crime)
    as (d & Hd & Hdec & Hs & Hc).
  exists d. split; [exact Hd |]. split; [exact Hdec |].
  split; [exact Hs |]. split; [exact Hc |].
  rewrite <- Hd. reflexivity.
Qed.

Lemma sample_single (self : AddressGenerator) (area : Area) (concept : string)
    (include_crime : bool) (dlat dlng : Q) :
  exists c, sample self area concept include_crime dlat dlng = [c] /\
    lat c = area_lat area + dlat /\ lng c = area_lng area + dlng /\
    area_id c = Some (area_area_id area) /\ rank c = None /\
    decision c = "PASS"%string /\ 51 <= score c <= 64 /\ address c <> ""%string.
Proof.
  unfold sample.
  destruct (reverse_geocode_nonempty self (area_lat area + dlat) (area_lng area + dlng))
    as (a & -> & Ha).
  assert (Hne : nonempty a = true).
  { unfold nonempty. apply negb_true_iff. apply String.eqb_neq. exact Ha. }
  rewrite Hne. cbn [negb].
  destruct (score_candidate_result (area_lat area + dlat) (area_lng area + dlng)
              a concept include_crime) as (d & -> & Hdec & Hs & _).
  eexists. split; [reflexivity |]. simpl. repeat split; auto; apply Hs.
Qed.

(** X15. [_generate_candidates_for_area] yields exactly nine candidates for
    every area, one per point of the 3 x 3 grid of offsets -0.003, 0, 0.003
    around the area centre (latitude outer, longitude inner), each with a
    non-empty address, the area's id, no rank yet and the decision "PASS". *)
Theorem area_candidates_grid (self : AddressGenerator) (area : Area)
    (concept : string) (include_crime : bool) :
  let cs := _generate_candidates_for_area self area concept include_crime in
  map (fun c => (lat c, lng c)) cs
  = map (fun d => (area_lat area + fst d, area_lng area + snd d))
        (list_prod offsets offsets) /\
  length cs = 9%nat /\
  Forall (fun c => address c <> ""%string /\ area_id c = Some (area_area_id area) /\
                   rank c = None /\ decision c = "PASS"%string) cs.
Proof.
  intros cs. subst cs. unfold _generate_candidates_for_area, offsets.
  cbn [flat_map list_prod map app fst snd].
  repeat match goal with
  | |- context [sample self area concept include_crime ?a ?b] =>
      let c := fresh "c" in
      let H := fresh "H" in
      destruct (sample_single self area concept include_crime a b)
        as (c & -> & H);
      destruct H as (? & ? & ? & ? & ? & _ & ?)
  end.
  cbn [app map length].
  split; [repeat f_equal; congruence |]. split; [reflexivity |].
  repeat constructor; assumption.
Qed.

Lemma Forall_add_ranks_pass (i : Z) (l : list Candidate) :
  Forall (fun c => decision c = "PASS"%string /\ score c <= 64) l ->
  Forall (fun c => decision c = "PASS"%string /\ score c <= 64) (add_ranks i l).
Proof.
  intros H. revert i. induction H as [| x l Hx Hl IH]; intros i; simpl;
    constructor; auto.
Qed.

(** X16. End to end: whatever the areas, the limit and the geocoder, every
    candidate [generate_candidates] returns from the candidates of
    [_generate_candidates_for_area] carries the decision "PASS" and a score
    of at most 64; no "MAKE_OFFER" or "NEGOTIATE" is ever produced. *)
Theorem generated_candidates_all_pass (self : AddressGenerator)
    (top_areas : list Area) (concept : string) (include_crime : bool) (limit : Z) :
  Forall (fun c => decision c = "PASS"%string /\ score c <= 64)
    (generate_candidates top_areas
       (fun area => _generate_candidates_for_area self area concept include_crime)
       limit).
Proof.
  unfold generate_candidates. destruct top_areas as [| a0 areas]; [constructor |].
  apply Forall_add_ranks_pass.
  apply List.Forall_forall. intros c Hc.
  unfold slice_to in Hc.
  assert (Hin : In c (sorted_by_score_desc
                        (_deduplicate_by_distance
                           (flat_map (fun area => _generate_candidates_for_area self area
                                                    concept include_crime)
                                     (a0 :: areas)) 80))).
  { destruct (0 <=? limit)%Z; eapply in_firstn; exact Hc. }
  apply (proj1 (in_sorted_by_score_desc _ _)) in Hin.
  unfold _deduplicate_by_distance in Hin.
  destruct (flat_map _ (a0 :: areas)) as [| x xs] eqn:Hall; [destruct Hin |].
  apply dedup_loop_subset in Hin as [[] | Hin].
  apply (proj1 (in_sorted_by_score_desc _ _)) in Hin. rewrite <- Hall in Hin.
  apply in_flat_map in Hin as (area & _ & Hin).
  unfold _generate_candidates_for_area in Hin.
  apply in_flat_map in Hin as (dlat & _ & Hin).
  apply in_flat_map in Hin as (dlng & _ & Hin).
  destruct (sample_single self area concept include_crime dlat dlng)
    as (c' & Hs & _ & _ & _ & _ & Hdec & Hsc & _).
  rewrite Hs in Hin. destruct Hin as [<- | []]. split; [exact Hdec | apply Hsc].
Qed.

End CandidateScores.

(** ** Outcome learning *)

Section MoreLearning.
Import Database ConceptLearner.

Lemma in_insert_asc (x y : Q) (l : list Q) :
  In y (insert_asc x l) <-> y = x \/ In y l.
Proof.
  induction l as [| z l IH]; simpl; [intuition |].
  destruct (Qleb x z); simpl; [intuition |]. rewrite IH. intuition.
Qed.

Lemma in_sorted (y : Q) (l : list Q) : In y (sorted l) <-> In y l.
Proof.
  induction l as [| x l IH]; simpl; [tauto |].
  rewrite in_insert_asc, IH. intuition.
Qed.

Lemma nth_sorted_bounds (lo hi : Q) (data : list Q) (i : nat) :
  Forall (fun x => lo <= x <= hi) data -> (i < length data)%nat ->
  lo <= nth i (sorted data) 0 <= hi.
Proof.
  intros Hall Hi. rewrite List.Forall_forall in Hall. apply Hall.
  apply (proj1 (in_sorted _ data)). apply nth_In. rewrite length_sorted. exact Hi.
Qed.

Lemma median_between (lo hi m : Q) (data : list Q) :
  Forall (fun x => lo <= x <= hi) data -> median data = Ok m -> lo <= m <= hi.
Proof.
  intros Hall. unfold median. rewrite length_sorted.
  destruct (Nat.eqb (length data) 0) eqn:H0; [discriminate |].
  apply Nat.eqb_neq in H0.
  destruct (Nat.eqb (length data mod 2) 1) eqn:Hodd.
  - intros [= <-].
    assert (Hlt : (length data / 2 < length data)%nat) by (apply Nat.div_lt; lia).
    apply (nth_sorted_bounds lo hi data (length data / 2) Hall Hlt).
  - intros [= <-].
    assert (Hmod : (length data mod 2 = 0)%nat).
    { apply Nat.eqb_neq in Hodd.
      pose proof (Nat.mod_upper_bound (length data) 2). lia. }
    assert (Hhalf : (1 <= length data / 2 < length data)%nat).
    { pose proof (Nat.div_mod_eq (length data) 2). lia. }
    assert (H1 : lo <= nth (length data / 2 - 1) (sorted data) 0 <= hi)
      by (apply nth_sorted_bounds; [exact Hall | lia]).
    assert (H2 : lo <= nth (length data / 2) (sorted data) 0 <= hi)
      by (apply nth_sorted_bounds; [exact Hall | lia]).
    change (fst (Nat.divmod (length data) 1 0 1)) with (length data / 2)%nat.
    revert H1 H2.
    generalize (nth (length data / 2 - 1) (sorted data) 0).
    generalize (nth (length data / 2) (sorted data) 0).
    intros a b H1 H2. qhalf. lra.
Qed.

Lemma int_between (lo hi : Z) (x : Q) :
  inject_Z lo <= x <= inject_Z hi -> (lo <= int x <= hi)%Z.
Proof.
  unfold int, Qle, inject_Z. destruct x as [a b]. simpl.
  intros [Hlo Hhi].
  pose proof (Z.quot_rem' a (Z.pos b)) as Hqr.
  destruct (Z_le_gt_dec 0 a) as [Hpos | Hneg].
  - pose proof (Z.rem_bound_pos a (Z.pos b)). nia.
  - pose proof (Z.rem_bound_pos_neg a (Z.pos b)). nia.
Qed.

(** X17. The retrained base revenue stays within the data: after a
    retraining that runs on at least five outcomes whose actual revenues
    all lie within [lo, hi] (whole numbers), the concept's base revenue,
    the truncated median of those revenues, lies within [lo, hi] as well. *)
Theorem retrained_base_revenue_in_range (db db' : DB) (concept_id : string)
    (now : Z) (c : Concept) (lo hi : Z) :
  first (fun c0 => String.eqb (c_id c0) concept_id) (concepts db) = Some c ->
  (5 <= length (outcomes_of db concept_id))%nat ->
  Forall (fun o => inject_Z lo <= actual_revenue_eur o <= inject_Z hi)
         (outcomes_of db concept_id) ->
  _retrain_concept db concept_id now = Ok db' ->
  exists c', first (fun c0 => String.eqb (c_id c0) concept_id) (concepts db') = Some c' /\
             (lo <= base_revenue_eur c' <= hi)%Z.
Proof.
  intros Hc Hn Hall Hdb.
  destruct (retrain_concept_Ok db db' concept_id now c Hc Hn Hdb)
    as (m & mape & w & Hm & Hcs).
  eexists. split.
  - rewrite Hcs. apply first_update_concept; [reflexivity | exact Hc].
  - simpl. apply int_between. eapply median_between; [| exact Hm].
    apply List.Forall_forall. intros x Hx.
    apply in_map_iff in Hx as (o & <- & Ho).
    rewrite List.Forall_forall in Hall. auto.
Qed.

Lemma retrained_base_revenue_in_range_witness :
  exists db' c',
    _retrain_concept (Examples.session_with Examples.six_revenues) "c1" 0 = Ok db' /\
    first (fun c0 => String.eqb (c_id c0) "c1") (concepts db') = Some c' /\
    (90000 <= base_revenue_eur c' <= 150000)%Z.
Proof.
  destruct (_retrain_concept (Examples.session_with Examples.six_revenues) "c1" 0)
    as [db' | e] eqn:Hdb; [| vm_compute in Hdb; discriminate].
  destruct (retrained_base_revenue_in_range
              (Examples.session_with Examples.six_revenues) db' "c1" 0
              Examples.burger_concept 90000 150000) as (c' & Hc' & Hb).
  - reflexivity.
  - vm_compute. lia.
  - vm_compute. repeat constructor; discriminate.
  - exact Hdb.
  - exists db', c'. auto.
Defined.

(** X18. The uncertainty band chosen at retraining is always between 0.10
    and 0.20, and for a fixed number of outcomes it never shrinks when the
    mean absolute percentage error grows. *)
Theorem new_variance_monotone (mape mape' : Q) (n : nat) :
  mape <= mape' ->
  new_variance mape n <= new_variance mape' n /\
  (10 # 100) <= new_variance mape n <= (20 # 100).
Proof.
  intros Hm. unfold new_variance, max.
  assert (Hn : 0 <= inject_Z (Z.of_nat n)).
  { change 0 with (inject_Z 0). rewrite <- Zle_Qle. lia. }
  set (k := inject_Z (Z.of_nat n)) in *. clearbody k.
  repeat split; qcases; lra.
Qed.

Lemma new_variance_monotone_witness :
  new_variance 12 7 <= new_variance 25 7.
Proof.
  apply (new_variance_monotone 12 25 7). discriminate.
Defined.

Lemma first_update_concept_other (rows : list Concept) (id id' : string)
    (f : Concept -> Concept) :
  (forall c0, c_id (f c0) = c_id c0) -> id' <> id ->
  first (fun c0 => String.eqb (c_id c0) id') (update_concept rows id f)
  = first (fun c0 => String.eqb (c_id c0) id') rows.
Proof.
  intros Hid Hne. unfold first.
  induction rows as [| c0 rows IH]; simpl; [reflexivity |].
  destruct (String.eqb (c_id c0) id) eqn:He; simpl.
  - rewrite Hid. apply String.eqb_eq in He.
    assert (Hn : String.eqb (c_id c0) id' = false).
    { apply String.eqb_neq. congruence. }
    rewrite Hn. reflexivity.
  - rewrite IH. reflexivity.
Qed.

Lemma retrain_effects (db db' : DB) (concept_id : string) (now : Z) :
  _retrain_concept db concept_id now = Ok db' ->
  (first (fun c0 => String.eqb (c_id c0) concept_id) (concepts db) = None \/
   (length (outcomes_of db concept_id) < 5)%nat -> db' = db) /\
  predictions db' = predictions db /\
  next_outcome_id db' = next_outcome_id db /\
  length (outcomes db') = length (outcomes db) /\
  (forall id', id' <> concept_id ->
     first (fun c0 => String.eqb (c_id c0) id') (concepts db')
     = first (fun c0 => String.eqb (c_id c0) id') (concepts db) /\
     outcomes_of db' id' = outcomes_of db id') /\
  (forall c, first (fun c0 => String.eqb (c_id c0) concept_id) (concepts db) = Some c ->
     (5 <= length (outcomes_of db concept_id))%nat ->
     (exists c', first (fun c0 => String.eqb (c_id c0) concept_id) (concepts db')
                 = Some c' /\
        outcomes_count c' = outcomes_count c /\ last_trained_at c' = Some now) /\
     Forall (fun o => used_in_training o = true) (outcomes_of db' concept_id)).
Proof.
  unfold _retrain_concept.
  destruct (first (fun c0 => String.eqb (c_id c0) concept_id) (concepts db))
    as [c |] eqn:Hc.
  2: { intros [= <-]. repeat split; auto; discriminate. }
  destruct (Z.of_nat (length (outcomes_of db concept_id))
            <? MIN_OUTCOMES_FOR_TRAINING)%Z eqn:Hlt.
  { apply Z.ltb_lt in Hlt. unfold MIN_OUTCOMES_FOR_TRAINING in Hlt.
    intros [= <-]. repeat split; auto; try discriminate.
    - intros. lia.
    - intros. lia. }
  apply Z.ltb_ge in Hlt. unfold MIN_OUTCOMES_FOR_TRAINING in Hlt.
  intros H.
  apply bind_Ok in H as (m & Hm & H).
  apply bind_Ok in H as (mape & Hmape & H).
  apply bind_Ok in H as (w & Hw & H).
  injection H as <-. simpl.
  split; [intros [Hn | Hn]; [discriminate | lia] |].
  split; [reflexivity |]. split; [reflexivity |].
  split; [apply length_map |]. split.
  - intros id' Hne. split.
    + apply first_update_concept_other; [reflexivity | exact Hne].
    + unfold outcomes_of. simpl.
      induction (outcomes db) as [| o os IH]; simpl; [reflexivity |].
      destruct (String.eqb (o_concept_id o) concept_id) eqn:He; simpl.
      * apply String.eqb_eq in He.
        assert (Hn : String.eqb (o_concept_id o) id' = false).
        { apply String.eqb_neq. congruence. }
        rewrite Hn. exact IH.
      * destruct (String.eqb (o_concept_id o) id'); [f_equal |]; exact IH.
  - intros c0 [= <-] _. split.
    + eexists. split; [apply first_update_concept; [reflexivity | exact Hc] |].
      simpl. auto.
    + unfold outcomes_of. simpl. apply List.Forall_forall. intros o Ho.
      apply filter_In in Ho as [Ho Hf].
      apply in_map_iff in Ho as (o' & Ho' & _).
      destruct (String.eqb (o_concept_id o') concept_id) eqn:He; subst o;
        [reflexivity | congruence].
Qed.

(** X19. Retraining is a no-op when the concept does not exist or has fewer
    than 5 outcomes.  When it does run it leaves the predictions, every
    other concept and the outcomes of every other concept untouched, keeps
    the number of outcome rows and the concept's [outcomes_count], stamps
    [last_trained_at], and marks every outcome of the concept as used. *)
Theorem retrain_frame (db db' : DB) (concept_id : string) (now : Z) :
  _retrain_concept db concept_id now = Ok db' ->
  (first (fun c0 => String.eqb (c_id c0) concept_id) (concepts db) = None \/
   (length (outcomes_of db concept_id) < 5)%nat -> db' = db) /\
  predictions db' = predictions db /\
  next_outcome_id db' = next_outcome_id db /\
  length (outcomes db') = length (outcomes db) /\
  (forall id', id' <> concept_id ->
     first (fun c0 => String.eqb (c_id c0) id') (concepts db')
     = first (fun c0 => String.eqb (c_id c0) id') (concepts db) /\
     outcomes_of db' id' = outcomes_of db id') /\
  (forall c, first (fun c0 => String.eqb (c_id c0) concept_id) (concepts db) = Some c ->
     (5 <= length (outcomes_of db concept_id))%nat ->
     (exists c', first (fun c0 => String.eqb (c_id c0) concept_id) (concepts db')
                 = Some c' /\
        outcomes_count c' = outcomes_count c /\ last_trained_at c' = Some now) /\
     Forall (fun o => used_in_training o = true) (outcomes_of db' concept_id)).
Proof. apply retrain_effects. Qed.

Lemma retrain_frame_witness :
  exists db',
    _retrain_concept (Examples.session_with Examples.five_revenues) "c1" 42 = Ok db' /\
    predictions db' = [] /\
    Forall (fun o => used_in_training o = true) (outcomes_of db' "c1").
Proof.
  destruct (_retrain_concept (Examples.session_with Examples.five_revenues) "c1" 42)
    as [db' | e] eqn:Hdb; [| vm_compute in Hdb; discriminate].
  destruct (retrain_frame _ _ _ _ Hdb) as (_ & Hp & _ & _ & _ & Hc).
  exists db'. split; [reflexivity |]. split; [exact Hp |].
  apply (Hc Examples.burger_concept); [reflexivity | vm_compute; lia].
Defined.

End MoreLearning.

Section RecordingOutcomes.
Import Database ConceptLearner.

(** X20. The learning path of [record_outcome]: for a prediction linked to
    an existing concept, with a non-zero predicted revenue and no earlier
    outcome, and fewer than 19 outcomes of the concept so far, the call
    returns; it stores exactly one more outcome row under the next id,
    reports the variance [(actual - predicted) / predicted * 100] rounded to
    two decimals, raises the concept's [outcomes_count] by one, and reports
    [triggered_retraining] exactly when the new count is at least 5. *)
Theorem record_outcome_linked (db : DB) (prediction_id : Z) (actual_revenue : Q)
    (opened_at now : Z) (p : Prediction) (cid : string) (c : Concept) :
  first (fun p => (p_id p =? prediction_id)%Z) (predictions db) = Some p ->
  p_concept_id p = Some cid -> cid <> ""%string ->
  ~ p_revenue_mid p == 0 ->
  existsb (fun o => (o_prediction_id o =? prediction_id)%Z) (outcomes db) = false ->
  first (fun c0 => String.eqb (c_id c0) cid) (concepts db) = Some c ->
  (length (outcomes_of db cid) < 19)%nat ->
  exists db' r,
    record_outcome db prediction_id actual_revenue opened_at now = Ok (db', r) /\
    training_outcome_id r = Some (next_outcome_id db) /\
    r_variance_pct r
    = round_nd ((actual_revenue - p_revenue_mid p) / p_revenue_mid p * 100) 2 /\
    r_outcomes_count r = Some (outcomes_count c + 1)%Z /\
    triggered_retraining r = (5 <=? outcomes_count c + 1)%Z /\
    length (outcomes db') = S (length (outcomes db)) /\
    exists c', first (fun c0 => String.eqb (c_id c0) cid) (concepts db') = Some c' /\
               outcomes_count c' = (outcomes_count c + 1)%Z.
Proof.
  intros Hp Hcid Hne Hmid Hdup Hc Hn.
  unfold record_outcome. rewrite Hp, Hcid.
  assert (Ht : truthy (Some cid) = true).
  { simpl. apply negb_true_iff. apply String.eqb_neq. exact Hne. }
  rewrite Ht. rewrite div_nonzero by exact Hmid. cbn [mbind res_bind bind].
  rewrite Hdup. cbn [concepts]. rewrite Hc.
  set (new := {| o_id := next_outcome_id db; o_concept_id := cid;
                 o_prediction_id := prediction_id |}).
  set (db2 := {| predictions := _; concepts := update_concept (concepts db) cid _;
                 outcomes := _; next_outcome_id := _ |}).
  assert (Hc2 : first (fun c0 => String.eqb (c_id c0) cid) (concepts db2)
                = Some (set_outcomes_count (outcomes_count c + 1) c)).
  { apply first_update_concept; [reflexivity | exact Hc]. }
  assert (Hlen2 : length (outcomes db2) = S (length (outcomes db))).
  { unfold db2. cbn [outcomes]. rewrite List.length_app. simpl. lia. }
  destruct (MIN_OUTCOMES_FOR_TRAINING <=? outcomes_count c + 1)%Z eqn:Htrig.
  - assert (Hn2 : (length (outcomes_of db2 cid) < 20)%nat).
    { unfold outcomes_of, db2. cbn [outcomes]. rewrite List.filter_app, List.length_app.
      unfold outcomes_of in Hn. simpl. destruct (String.eqb cid cid); simpl; lia. }
    destruct (retrain_concept_returns db2 cid now Hn2) as [db3 Hdb3].
    rewrite Hdb3. cbn [mbind res_bind bind].
    destruct (retrain_effects db2 db3 cid now Hdb3)
      as (Hnoop & _ & _ & Hlen3 & _ & Hrun).
    assert (Hc3 : exists c', first (fun c0 => String.eqb (c_id c0) cid) (concepts db3)
                             = Some c' /\
                             outcomes_count c' = (outcomes_count c + 1)%Z).
    { destruct (le_lt_dec 5 (length (outcomes_of db2 cid))) as [Hge | Hlt].
      - destruct (Hrun _ Hc2 Hge) as [(c' & Hc' & Hcount & _) _].
        exists c'. split; [exact Hc' |]. rewrite Hcount. reflexivity.
      - rewrite (Hnoop (or_intror Hlt)). eexists. split; [exact Hc2 |]. reflexivity. }
    eexists. eexists. split; [reflexivity |]. simpl.
    repeat split; try reflexivity; try assumption.
    + unfold MIN_OUTCOMES_FOR_TRAINING in Htrig. symmetry. exact Htrig.
    + rewrite Hlen3. exact Hlen2.
  - eexists. eexists. split; [reflexivity |]. simpl.
    repeat split; try reflexivity; try assumption.
    + unfold MIN_OUTCOMES_FOR_TRAINING in Htrig. symmetry. exact Htrig.
    + eexists. split; [exact Hc2 |]. reflexivity.
Qed.

Lemma record_outcome_linked_witness :
  exists db' r,
    record_outcome (MoreExamples.linked_session 100000 "c1") 7 120000 0 0
    = Ok (db', r) /\
    training_outcome_id r = Some 1%Z /\
    r_variance_pct r = round_nd ((120000 - 100000) / 100000 * 100) 2 /\
    r_outcomes_count r = Some 1%Z /\
    triggered_retraining r = false /\
    length (outcomes db') = 1%nat.
Proof.
  destruct (record_outcome_linked (MoreExamples.linked_session 100000 "c1")
              7 120000 0 0 (MoreExamples.linked_prediction 100000 "c1") "c1"
              Examples.burger_concept)
    as (db' & r & Hr & Hid & Hv & Hn & Ht & Hl & _);
    [reflexivity | reflexivity | discriminate | discriminate | reflexivity
    | reflexivity | simpl; lia |].
  exists db', r. repeat split; assumption.
Defined.

(** X21. The failures of the learning path of [record_outcome]: a linked
    prediction whose predicted revenue is 0 raises [ZeroDivisionError]
    before anything is stored, and a link to a concept that does not exist
    raises [AttributeError]. *)
Theorem record_outcome_linked_failures (db : DB) (prediction_id : Z)
    (actual_revenue : Q) (opened_at now : Z) (p : Prediction) (cid : string) :
  first (fun p => (p_id p =? prediction_id)%Z) (predictions db) = Some p ->
  p_concept_id p = Some cid -> cid <> ""%string ->
  (p_revenue_mid p == 0 ->
   record_outcome db prediction_id actual_revenue opened_at now
   = Raise ZeroDivisionError) /\
  (~ p_revenue_mid p == 0 ->
   existsb (fun o => (o_prediction_id o =? prediction_id)%Z) (outcomes db) = false ->
   first (fun c0 => String.eqb (c_id c0) cid) (concepts db) = None ->
   record_outcome db prediction_id actual_revenue opened_at now
   = Raise AttributeError).
Proof.
  intros Hp Hcid Hne.
  assert (Ht : truthy (Some cid) = true).
  { simpl. apply negb_true_iff. apply String.eqb_neq. exact Hne. }
  unfold record_outcome. rewrite Hp, Hcid, Ht. split.
  - intros Hz. unfold div. apply Qeq_bool_iff in Hz. unfold Qeqb. rewrite Hz.
    reflexivity.
  - intros Hmid Hdup Hc. rewrite div_nonzero by exact Hmid.
    cbn [mbind res_bind bind]. rewrite Hdup. cbn [concepts]. rewrite Hc. reflexivity.
Qed.

Lemma record_outcome_linked_failures_witness :
  record_outcome (MoreExamples.linked_session 0 "c1") 7 120000 0 0
  = Raise ZeroDivisionError /\
  record_outcome (MoreExamples.linked_session 100000 "gone") 7 120000 0 0
  = Raise AttributeError.
Proof.
  split.
  - apply (record_outcome_linked_failures (MoreExamples.linked_session 0 "c1")
             7 120000 0 0 (MoreExamples.linked_prediction 0 "c1") "c1");
      [reflexivity | reflexivity | discriminate | reflexivity].
  - apply (record_outcome_linked_failures (MoreExamples.linked_session 100000 "gone")
             7 120000 0 0 (MoreExamples.linked_prediction 100000 "gone") "gone");
      [reflexivity | reflexivity | discriminate | discriminate
      | reflexivity | reflexivity].
Defined.

End RecordingOutcomes.

Section WeightLearning.
Import Database ConceptLearner.

Lemma pairs_all_none (x : list value) (y : list Q) :
  Forall (fun v => v = None) x ->
  flat_map (fun p : value * Q => match fst p with
                                 | Some xi => [(xi, snd p)]
                                 | None => []
                                 end) (combine x y) = [].
Proof.
  intros H. revert y. induction H as [| v x -> Hx IH]; intros [| q y]; simpl; auto.
Qed.

Lemma sum_from (l : list Q) (a : Q) : fold_left Qplus l a == a + sum l.
Proof.
  unfold sum. revert a. induction l as [| x l IH]; intros a; simpl; [ring |].
  rewrite (IH (a + x)), (IH (0 + x)). ring.
Qed.

Lemma sum_cons (x : Q) (l : list Q) : sum (x :: l) == x + sum l.
Proof. unfold sum at 1. simpl. rewrite sum_from. ring. Qed.

Lemma sum_all_zero (l : list Q) : Forall (fun x => x == 0) l -> sum l == 0.
Proof.
  induction 1 as [| x l Hx Hl IH]; [reflexivity |].
  rewrite sum_cons, Hx, IH. ring.
Qed.

Lemma sum_constant (c : Q) (l : list Q) :
  Forall (fun x => x == c) l -> sum l == c * len l.
Proof.
  induction 1 as [| x l Hx Hl IH].
  - change (0 == c * 0). ring.
  - cbv beta in Hx. rewrite sum_cons. unfold len in *. simpl length.
    rewrite Hx, IH.
    rewrite Nat2Z.inj_succ, <- Z.add_1_r, inject_Z_plus. ring.
Qed.

Lemma len_pos {A : Type} (l : list A) : (2 <= length l)%nat -> 0 < len l.
Proof.
  intros H. unfold len. change 0 with (inject_Z 0). rewrite <- Zlt_Qlt. lia.
Qed.

(** X22. Degenerate inputs of [_calculate_correlation] give correlation 0:
    series of different lengths, fewer than two points, no factor value
    that is not [None], and a factor series that is constant (zero
    variance). *)
Theorem correlation_degenerate (x : list value) (y : list Q) :
  (length x <> length y -> _calculate_correlation x y = 0%R) /\
  ((length x < 2)%nat -> _calculate_correlation x y = 0%R) /\
  (Forall (fun v => v = None) x -> _calculate_correlation x y = 0%R) /\
  (forall c, Forall (fun v => exists q, v = Some q /\ q == c) x ->
             _calculate_correlation x y = 0%R).
Proof.
  unfold _calculate_correlation. repeat split.
  - intros Hne. apply Nat.eqb_neq in Hne. rewrite Hne. reflexivity.
  - intros Hlt. apply Nat.ltb_lt in Hlt. rewrite Hlt, orb_true_r. reflexivity.
  - intros Hnone. destruct (_ || _); [reflexivity |].
    rewrite pairs_all_none by exact Hnone. reflexivity.
  - intros c Hc. destruct (_ || _); [reflexivity |].
    cbv zeta.
    match goal with
    | |- context [Nat.ltb (length ?p) 2] => set (pairs := p)
    end.
    destruct (Nat.ltb (length pairs) 2) eqn:Hlen; [reflexivity |].
    apply Nat.ltb_ge in Hlen.
    assert (Hx : Forall (fun q => q == c) (map fst pairs)).
    { unfold pairs. clear Hlen pairs. revert y.
      induction Hc as [| v x (q & -> & Hq) Hx IH]; intros [| q' y]; simpl;
        try constructor; auto. }
    assert (Hl : 0 < len (map fst pairs)).
    { apply len_pos. rewrite length_map. exact Hlen. }
    assert (Hmean : sum (map fst pairs) / len (map fst pairs) == c).
    { rewrite (sum_constant c _ Hx). field. intros He. lra. }
    assert (Hvar : sum (map (fun xi => (xi - sum (map fst pairs) / len (map fst pairs))
                                       * (xi - sum (map fst pairs) / len (map fst pairs)))
                            (map fst pairs)) == 0).
    { apply sum_all_zero. apply List.Forall_forall. intros t Ht.
      apply in_map_iff in Ht as (xi & <- & Hxi).
      rewrite List.Forall_forall in Hx. rewrite (Hx xi Hxi), Hmean. ring. }
    match goal with
    | |- context [sqrt (Q2R ?v)] =>
        assert (Hden : sqrt (Q2R v) = 0%R)
    end.
    { match goal with
      | |- sqrt (Q2R ?v) = _ => assert (Hv : v == 0) by (rewrite Hvar; ring)
      end.
      apply Qeq_eqR in Hv. rewrite Hv.
      replace (Q2R 0) with 0%R by (unfold Q2R; simpl; lra). apply sqrt_0. }
    rewrite Hden. unfold PyReal.Reqb.
    destruct (Req_EM_T 0 0); [reflexivity | congruence].
Qed.

End WeightLearning.

Section MoreJobs.
Import JobManager JobStream.

Lemma dom_insert_known {V : Type} (m : gmap string V) (id : string) (v v' : V) :
  m !! id = Some v -> dom (<[id := v']> m) = dom m.
Proof.
  intros Hm. rewrite dom_insert_L. apply set_eq. intros k.
  rewrite elem_of_union, elem_of_singleton. split; [| auto].
  intros [-> | Hk]; [| exact Hk]. apply elem_of_dom. eauto.
Qed.

Lemma queues_put (self : JobManager) (id : string) (items : list (option Event)) :
  dom (job_queues (put self id items)) = dom (job_queues self).
Proof.
  unfold put. destruct (job_queues self !! id) as [q |] eqn:Hq; [| reflexivity].
  cbn [job_queues]. apply (dom_insert_known _ _ _ _ Hq).
Qed.

Lemma step_consistent (self : JobManager) (op : Op) :
  consistent self -> consistent (step self op).
Proof.
  unfold consistent. intros Hc. destruct op; cbn [step].
  - unfold create_job. cbn [fst jobs job_queues]. rewrite !dom_insert_L, Hc.
    reflexivity.
  - unfold mark_running, get_job.
    destruct (jobs self !! id) as [j |] eqn:Hj; [| exact Hc].
    unfold set_jobs. cbn [jobs job_queues].
    rewrite (dom_insert_known _ _ _ _ Hj). exact Hc.
  - unfold emit_stage_update.
    destruct (jobs self !! id) as [j |] eqn:Hj; [| exact Hc].
    cbv zeta. rewrite queues_put, jobs_put. unfold set_jobs. cbn [jobs job_queues].
    rewrite (dom_insert_known _ _ _ _ Hj). exact Hc.
  - unfold complete_job.
    destruct (jobs self !! id) as [j |] eqn:Hj; [| exact Hc].
    cbv zeta. rewrite queues_put, jobs_put. unfold set_jobs. cbn [jobs job_queues].
    rewrite (dom_insert_known _ _ _ _ Hj). exact Hc.
  - unfold fail_job.
    destruct (jobs self !! id) as [j |] eqn:Hj; [| exact Hc].
    cbv zeta. rewrite queues_put, jobs_put. unfold set_jobs. cbn [jobs job_queues].
    rewrite (dom_insert_known _ _ _ _ Hj). exact Hc.
  - unfold queue_get.
    destruct (job_queues self !! id) as [[| e q] |] eqn:Hq; try exact Hc.
    cbn [jobs job_queues]. rewrite (dom_insert_known _ _ _ _ Hq). exact Hc.
  - unfold cleanup_expired_jobs. cbn [jobs job_queues].
    apply set_eq. intros k. rewrite !elem_of_dom.
    unfold is_Some. split.
    + intros (j & Hj). apply map_lookup_filter_Some in Hj as (Hj & He).
      cbn [snd] in He.
      assert (Hk : k ∈ dom (job_queues self)).
      { rewrite <- Hc. apply elem_of_dom. eauto. }
      apply elem_of_dom in Hk as (q & Hq).
      exists q. apply map_lookup_filter_Some. split; [exact Hq |].
      cbn [fst]. apply map_lookup_filter_None. right. intros j' Hj'.
      cbn [snd]. rewrite Hj in Hj'. injection Hj' as <-. rewrite He. discriminate.
    + intros (q & Hq). apply map_lookup_filter_Some in Hq as (Hq & He).
      cbn [fst] in He.
      assert (Hk : k ∈ dom (jobs self)).
      { rewrite Hc. apply elem_of_dom. eauto. }
      apply elem_of_dom in Hk as (j & Hj).
      exists j. apply map_lookup_filter_Some. split; [exact Hj |].
      cbn [snd]. destruct (expired now j) eqn:Hx; [| reflexivity].
      exfalso.
      assert (Hin : filter (fun kv : string * Job => expired now (snd kv) = true)
                           (jobs self) !! k = Some j).
      { apply map_lookup_filter_Some. split; [exact Hj | exact Hx]. }
      rewrite Hin in He. discriminate.
Qed.

(** X23. Every call of the manager keeps the registry and the queue table
    on the same keys, so after any sequence of calls a job can be looked up
    exactly when it has an event queue: no update of a known job is lost
    for want of a queue, and no queue outlives its job. *)
Theorem queues_follow_registry (self : JobManager) (ops : list Op) :
  consistent self ->
  consistent (run self ops) /\
  forall id, is_Some (get_job (run self ops) id)
             <-> is_Some (job_queues (run self ops) !! id).
Proof.
  intros Hc.
  assert (H : consistent (run self ops)).
  { unfold run. revert self Hc. induction ops as [| op ops IH]; intros self Hc.
    - exact Hc.
    - cbn [fold_left]. apply IH. apply step_consistent. exact Hc. }
  split; [exact H |].
  intros id. unfold get_job. rewrite <- !elem_of_dom. rewrite H. reflexivity.
Qed.

Lemma queues_follow_registry_witness :
  consistent (run Examples.fresh_manager Examples.quiet_calls) /\
  forall id, is_Some (get_job (run Examples.fresh_manager Examples.quiet_calls) id)
             <-> is_Some (job_queues (run Examples.fresh_manager Examples.quiet_calls) !! id).
Proof.
  apply (queues_follow_registry Examples.fresh_manager Examples.quiet_calls).
  unfold consistent. cbn [Examples.fresh_manager jobs job_queues].
  rewrite !dom_empty_L. reflexivity.
Defined.

Lemma stream_events_app (q items : list (option Event)) (es : list Event) :
  stream_events q = (es, false) ->
  stream_events (q ++ items)
  = (es ++ fst (stream_events items), snd (stream_events items)).
Proof.
  revert es. induction q as [| [e |] q IH]; intros es H; cbn [stream_events app] in *.
  - injection H as <-. destruct (stream_events items); reflexivity.
  - destruct (stream_events q) as [es' ended] eqn:Hq.
    injection H as <- ->. rewrite (IH es' eq_refl). reflexivity.
  - discriminate.
Qed.

Lemma stream_events_ended (q items : list (option Event)) (es : list Event) :
  stream_events q = (es, true) -> stream_events (q ++ items) = (es, true).
Proof.
  revert es. induction q as [| [e |] q IH]; intros es H; cbn [stream_events app] in *.
  - discriminate.
  - destruct (stream_events q) as [es' ended] eqn:Hq.
    injection H as <- ->. rewrite (IH es' eq_refl). reflexivity.
  - exact H.
Qed.

Lemma stream_put (self : JobManager) (id : string) (q items : list (option Event)) :
  job_queues self !! id = Some q ->
  stream_job_events (put self id items) id = stream_events (q ++ items).
Proof.
  intros Hq. unfold stream_job_events, put. rewrite Hq. cbn [job_queues].
  rewrite lookup_insert_eq. reflexivity.
Qed.

(** X24. What a stream consumer receives.  For a registered job whose
    queue holds the events [es] and no end-of-stream signal yet, a stage
    update adds exactly its event at the end and leaves the stream open;
    [complete_job] and [fail_job] add the completion, respectively failure,
    event and end the stream. *)
Theorem stream_receives_in_order (self : JobManager) (id : string) (j : Job)
    (q : list (option Event)) (es : list Event) :
  jobs self !! id = Some j ->
  job_queues self !! id = Some q ->
  stream_events q = (es, false) ->
  (forall stage status metrics ms cached now,
     stream_job_events
       (emit_stage_update self id stage status metrics ms cached now) id
     = (es ++ [StageEvent id stage status (default ∅ metrics) ms cached], false)) /\
  (forall result degraded now,
     stream_job_events (complete_job self id result degraded now) id
     = (es ++ [CompletionEvent id result], true)) /\
  (forall error now,
     stream_job_events (fail_job self id error now) id
     = (es ++ [FailureEvent id error], true)).
Proof.
  intros Hj Hq Hs. repeat split; intros.
  - unfold emit_stage_update. rewrite Hj. cbv zeta.
    rewrite (stream_put _ id q) by exact Hq.
    rewrite (stream_events_app _ _ es Hs). reflexivity.
  - unfold complete_job. rewrite Hj. cbv zeta.
    rewrite (stream_put _ id q) by exact Hq.
    rewrite (stream_events_app _ _ es Hs). reflexivity.
  - unfold fail_job. rewrite Hj. cbv zeta.
    rewrite (stream_put _ id q) by exact Hq.
    rewrite (stream_events_app _ _ es Hs). reflexivity.
Qed.

(** X25. Nothing is delivered after the end of a stream: once the queue of
    a registered job holds the end-of-stream signal, later stage updates,
    completions and failures change the job's record but the consumer
    still receives the same events. *)
Theorem stream_closed_after_end (self : JobManager) (id : string) (j : Job)
    (q : list (option Event)) (es : list Event) :
  jobs self !! id = Some j ->
  job_queues self !! id = Some q ->
  stream_events q = (es, true) ->
  (forall stage status metrics ms cached now,
     stream_job_events
       (emit_stage_update self id stage status metrics ms cached now) id
     = (es, true)) /\
  (forall payload degraded now,
     stream_job_events (complete_job self id payload degraded now) id = (es, true) /\
     option_map result (get_job (complete_job self id payload degraded now) id)
     = Some (Some payload)) /\
  (forall error now,
     stream_job_events (fail_job self id error now) id = (es, true) /\
     option_map status (get_job (fail_job self id error now) id)
     = Some JobStatus.FAILED).
Proof.
  intros Hj Hq Hs. repeat split; intros.
  - unfold emit_stage_update. rewrite Hj. cbv zeta.
    rewrite (stream_put _ id q) by exact Hq.
    apply stream_events_ended. exact Hs.
  - unfold complete_job. rewrite Hj. cbv zeta.
    rewrite (stream_put _ id q) by exact Hq.
    apply stream_events_ended. exact Hs.
  - unfold complete_job, get_job. rewrite Hj. cbv zeta.
    rewrite jobs_put. unfold set_jobs. cbn [jobs].
    rewrite lookup_insert_eq. reflexivity.
  - unfold fail_job. rewrite Hj. cbv zeta.
    rewrite (stream_put _ id q) by exact Hq.
    apply stream_events_ended. exact Hs.
  - unfold fail_job, get_job. rewrite Hj. cbv zeta.
    rewrite jobs_put. unfold set_jobs. cbn [jobs].
    rewrite lookup_insert_eq. reflexivity.
Qed.

Lemma stream_receives_in_order_witness :
  stream_job_events
    (emit_stage_update MoreExamples.one_job_manager "job-1" "GEO" "running"
       None (Some 0%Z) false 1) "job-1"
  = ([StageEvent "job-1" "GEO" "running" ∅ (Some 0%Z) false], false) /\
  stream_job_events
    (complete_job MoreExamples.one_job_manager "job-1" "{}" None 2) "job-1"
  = ([CompletionEvent "job-1" "{}"], true).
Proof.
  destruct (stream_receives_in_order MoreExamples.one_job_manager "job-1"
              (default (with_status (mkJob "" "" "" "" 0 false 0 0 ∅ [] None None None) "")
                       (get_job MoreExamples.one_job_manager "job-1"))
              [] [])
    as (He & Hc & _);
    [vm_compute; reflexivity | vm_compute; reflexivity | reflexivity |].
  split; [apply (He "GEO"%string "running"%string None (Some 0%Z) false 1%Z)
         | apply (Hc "{}"%string None 2%Z)].
Defined.

Lemma stream_closed_after_end_witness :
  stream_job_events
    (emit_stage_update
       (complete_job MoreExamples.one_job_manager "job-1" "{}" None 2)
       "job-1" "REVENUE" "done" None (Some 0%Z) false 3) "job-1"
  = ([CompletionEvent "job-1" "{}"], true).
Proof.
  destruct (stream_closed_after_end
              (complete_job MoreExamples.one_job_manager "job-1" "{}" None 2) "job-1"
              (default (with_status (mkJob "" "" "" "" 0 false 0 0 ∅ [] None None None) "")
                       (get_job (complete_job MoreExamples.one_job_manager
                                   "job-1" "{}" None 2) "job-1"))
              [Some (CompletionEvent "job-1" "{}"); None]
              [CompletionEvent "job-1" "{}"])
    as (He & _);
    [vm_compute; reflexivity | vm_compute; reflexivity | reflexivity |].
  apply (He "REVENUE"%string "done"%string None (Some 0%Z) false 3%Z).
Defined.

Lemma expired_mono (t1 t2 : Z) (j : Job) :
  (t1 <= t2)%Z -> expired t1 j = true -> expired t2 j = true.
Proof. unfold expired. rewrite !Z.ltb_lt. lia. Qed.

(** X26. Sweeps compose: a sweep at [t1] followed by a sweep at a later
    time [t2] leaves the manager exactly as one sweep at [t2]; in
    particular a repeated sweep at the same time changes nothing more.
    After a sweep at [now] the jobs that can be looked up are exactly the
    earlier ones whose expiry is not before [now]. *)
Theorem sweeps_compose (self : JobManager) (t1 t2 : Z) :
  (t1 <= t2)%Z ->
  cleanup_expired_jobs (cleanup_expired_jobs self t1) t2 = cleanup_expired_jobs self t2 /\
  forall id j, get_job (cleanup_expired_jobs self t2) id = Some j
               <-> get_job self id = Some j /\ (t2 <= expires_at j)%Z.
Proof.
  intros Ht. split.
  - unfold cleanup_expired_jobs. cbn [jobs job_queues ttl_seconds]. f_equal.
    + apply map_eq. intros k. apply option_eq. intros j.
      rewrite !map_lookup_filter_Some. cbn [snd]. split.
      * intros ((Hj & _) & H2). auto.
      * intros (Hj & H2). repeat split; try assumption.
        destruct (expired t1 j) eqn:H1; [| reflexivity].
        rewrite (expired_mono t1 t2 j Ht H1) in H2. discriminate.
    + apply map_eq. intros k. apply option_eq. intros q.
      rewrite !map_lookup_filter_Some. cbn [fst]. split.
      * intros ((Hq & H1) & H2). split; [exact Hq |].
        apply map_lookup_filter_None. apply map_lookup_filter_None in H1, H2.
        destruct (jobs self !! k) as [j |] eqn:Hj; [right | left; reflexivity].
        intros j' [= <-]. cbn [snd].
        destruct H1 as [H1 | H1]; [discriminate |].
        specialize (H1 j eq_refl). cbn [snd] in H1.
        destruct H2 as [H2 | H2].
        -- apply map_lookup_filter_None in H2 as [H2 | H2]; [congruence |].
           exfalso. apply (H2 j Hj). cbn [snd].
           destruct (expired t1 j); [contradiction H1; reflexivity | reflexivity].
        -- apply H2. apply map_lookup_filter_Some. split; [exact Hj |].
           cbn [snd]. destruct (expired t1 j); [contradiction H1; reflexivity | reflexivity].
      * intros (Hq & H2). apply map_lookup_filter_None in H2.
        repeat split; try assumption.
        -- apply map_lookup_filter_None.
           destruct (jobs self !! k) as [j |] eqn:Hj; [right | left; reflexivity].
           intros j' [= <-]. cbn [snd]. intros H1.
           destruct H2 as [H2 | H2]; [discriminate |].
           apply (H2 j eq_refl). cbn [snd]. exact (expired_mono t1 t2 j Ht H1).
        -- apply map_lookup_filter_None.
           destruct (filter (fun kv : string * Job => expired t1 (snd kv) = false)
                            (jobs self) !! k) as [j |] eqn:Hj;
             [right | left; reflexivity].
           intros j' [= <-]. cbn [snd].
           apply map_lookup_filter_Some in Hj as (Hj & _).
           destruct H2 as [H2 | H2]; [congruence |].
           exact (H2 j Hj).
  - intros id j. unfold get_job, cleanup_expired_jobs. cbn [jobs].
    rewrite map_lookup_filter_Some. cbn [snd]. unfold expired.
    rewrite Z.ltb_ge. reflexivity.
Qed.

Lemma sweeps_compose_witness :
  cleanup_expired_jobs (cleanup_expired_jobs MoreExamples.one_job_manager 1800) 5000
  = cleanup_expired_jobs MoreExamples.one_job_manager 5000 /\
  forall id j, get_job (cleanup_expired_jobs MoreExamples.one_job_manager 5000) id = Some j
               <-> get_job MoreExamples.one_job_manager id = Some j /\
                   (5000 <= expires_at j)%Z.
Proof. apply (sweeps_compose MoreExamples.one_job_manager 1800 5000). lia. Defined.

Lemma keeps_job_neq (a b : string) : negb (String.eqb a b) = true -> a <> b.
Proof. intros H ->. rewrite String.eqb_refl in H. discriminate. Qed.

Lemma step_keeps_parameters (self : JobManager) (id : string) (op : Op) (j' : Job) :
  keeps_job id op = true ->
  get_job (step self op) id = Some j' ->
  exists j, get_job self id = Some j /\
            city j' = city j /\ concept j' = concept j /\ limit j' = limit j /\
            include_crime j' = include_crime j /\ created_at j' = created_at j /\
            expires_at j' = expires_at j.
Proof.
  unfold get_job. intros Hk Hj'. destruct op; cbn [step keeps_job] in *.
  - apply keeps_job_neq in Hk. unfold create_job in Hj'. cbn [fst jobs] in Hj'.
    rewrite lookup_insert_ne in Hj' by exact Hk. eauto 10.
  - unfold mark_running, get_job in Hj'.
    destruct (jobs self !! id0) as [j |] eqn:Hj; [| eauto 10].
    unfold set_jobs in Hj'. cbn [jobs] in Hj'.
    destruct (decide (id0 = id)) as [-> | Hne].
    + rewrite lookup_insert_eq in Hj'. injection Hj' as <-. exists j. auto 10.
    + rewrite lookup_insert_ne in Hj' by exact Hne. eauto 10.
  - unfold emit_stage_update in Hj'.
    destruct (jobs self !! id0) as [j |] eqn:Hj; [| eauto 10].
    cbv zeta in Hj'. rewrite jobs_put in Hj'. unfold set_jobs in Hj'. cbn [jobs] in Hj'.
    destruct (decide (id0 = id)) as [-> | Hne].
    + rewrite lookup_insert_eq in Hj'. injection Hj' as <-. exists j. auto 10.
    + rewrite lookup_insert_ne in Hj' by exact Hne. eauto 10.
  - unfold complete_job in Hj'.
    destruct (jobs self !! id0) as [j |] eqn:Hj; [| eauto 10].
    cbv zeta in Hj'. rewrite jobs_put in Hj'. unfold set_jobs in Hj'. cbn [jobs] in Hj'.
    destruct (decide (id0 = id)) as [-> | Hne].
    + rewrite lookup_insert_eq in Hj'. injection Hj' as <-. exists j. auto 10.
    + rewrite lookup_insert_ne in Hj' by exact Hne. eauto 10.
  - unfold fail_job in Hj'.
    destruct (jobs self !! id0) as [j |] eqn:Hj; [| eauto 10].
    cbv zeta in Hj'. rewrite jobs_put in Hj'. unfold set_jobs in Hj'. cbn [jobs] in Hj'.
    destruct (decide (id0 = id)) as [-> | Hne].
    + rewrite lookup_insert_eq in Hj'. injection Hj' as <-. exists j. auto 10.
    + rewrite lookup_insert_ne in Hj' by exact Hne. eauto 10.
  - unfold queue_get in Hj'.
    destruct (job_queues self !! id0) as [[| e q] |]; cbn [jobs] in Hj'; eauto 10.
  - unfold cleanup_expired_jobs in Hj'. cbn [jobs] in Hj'.
    apply map_lookup_filter_Some in Hj' as (Hj' & _). eauto 10.
Qed.

(** X27. No call revives a job or moves its deadline.  Through any
    sequence of calls that does not create job [id] again, a job found
    under [id] afterwards was already registered before, with the same
    city, concept, limit, crime flag, creation time and expiry time:
    progress and completion never extend the time to live. *)
Theorem job_deadline_is_fixed (ops : list Op) (self : JobManager) (id : string)
    (j' : Job) :
  forallb (keeps_job id) ops = true ->
  get_job (run self ops) id = Some j' ->
  exists j, get_job self id = Some j /\
            city j' = city j /\ concept j' = concept j /\ limit j' = limit j /\
            include_crime j' = include_crime j /\ created_at j' = created_at j /\
            expires_at j' = expires_at j.
Proof.
  unfold run. revert self. induction ops as [| op ops IH]; intros self Hk Hj'.
  - cbn [fold_left] in Hj'. exists j'. auto 10.
  - cbn [forallb] in Hk. apply andb_true_iff in Hk as (Hop & Hk).
    cbn [fold_left] in Hj'.
    destruct (IH _ Hk Hj') as (j1 & Hj1 & E1 & E2 & E3 & E4 & E5 & E6).
    destruct (step_keeps_parameters self id op j1 Hop Hj1)
      as (j & Hj & F1 & F2 & F3 & F4 & F5 & F6).
    exists j. repeat split; try assumption; congruence.
Qed.

Lemma job_deadline_is_fixed_witness :
  exists j' j,
    get_job (run MoreExamples.one_job_manager
               [MarkRunning "job-1";
                EmitStageUpdate "job-1" "GEO" "done" None (Some 12%Z) false 5000;
                CompleteJob "job-1" "{}" None 6000]) "job-1" = Some j' /\
    get_job MoreExamples.one_job_manager "job-1" = Some j /\
    status j' = "complete"%string /\
    expires_at j' = expires_at j.
Proof.
  pose (ops := [MarkRunning "job-1";
                EmitStageUpdate "job-1" "GEO" "done" None (Some 12%Z) false 5000;
                CompleteJob "job-1" "{}" None 6000]).
  pose (j' := default (with_status (mkJob "" "" "" "" 0 false 0 0 ∅ [] None None None) "")
                      (get_job (run MoreExamples.one_job_manager ops) "job-1")).
  assert (Hj' : get_job (run MoreExamples.one_job_manager ops) "job-1" = Some j')
    by (vm_compute; reflexivity).
  destruct (job_deadline_is_fixed ops MoreExamples.one_job_manager "job-1" j'
              eq_refl Hj') as (j & Hj & _ & _ & _ & _ & _ & He).
  exists j', j.
  split; [exact Hj' |]. split; [exact Hj |]. split; [vm_compute; reflexivity | exact He].
Defined.

End MoreJobs.

Section MoreTrust.
Import TrustMetrics.

Lemma count_present_range {V : Type} (d : gmap string V) (present : V -> bool)
    (fields : list string) :
  0 <= count_present d present fields <= len fields.
Proof.
  unfold count_present, len. split.
  - change 0 with (inject_Z 0). rewrite <- Zle_Qle. lia.
  - rewrite <- Zle_Qle. apply inj_le. apply List.filter_length_le.
Qed.

Lemma ratio_range (a n : Q) : 0 < n -> 0 <= a <= n -> 0 <= a / n <= 1.
Proof.
  intros Hn [Ha1 Ha2]. split.
  - apply Qle_shift_div_l; [exact Hn | lra].
  - apply Qle_shift_div_r; [exact Hn | lra].
Qed.

Lemma round_nd_unit (x : Q) : 0 <= x <= 1 -> 0 <= round_nd x 2 <= 1.
Proof.
  intros [H0 H1]. split.
  - apply (round_nd_lower x 2 0). exact H0.
  - apply (round_nd_upper x 2 1). exact H1.
Qed.

(** X28. [calculate_coverage] always returns a valid [DataCoverage]: for
    every feature dictionary, whatever keys it has and whichever of them
    are [None], the four coverage figures lie between 0 and 1, so the
    schema's bounds can never reject it. *)
Theorem coverage_always_valid (features : gmap string value) :
  DataCoverage_valid (calculate_coverage features).
Proof.
  unfold calculate_coverage. cbv zeta.
  set (present := fun v : value => bool_decide (is_Some v)).
  pose proof (count_present_range features present
                ["population_1km"; "population_density"; "median_income"]%string) as Hd.
  pose proof (count_present_range features present
                ["competitors_count"; "competitors_per_1k_residents"]%string) as Hc.
  pose proof (count_present_range features present
                ["nearest_metro_distance_m"; "nearest_tram_distance_m";
                 "walkability_poi_count"]%string) as Ht.
  apply ratio_range in Hd; [| reflexivity].
  apply ratio_range in Hc; [| reflexivity].
  apply ratio_range in Ht; [| reflexivity].
  unfold DataCoverage_valid.
  cbn [demographics competition transit overall].
  repeat split; try (apply round_nd_unit; assumption);
    apply round_nd_unit; lra.
Qed.

Lemma real_round_lower (x : R) (a : Z) : (IZR a <= x)%R -> (a <= PyReal.round x)%Z.
Proof.
  intros Hx. unfold PyReal.round.
  destruct (base_Int_part x) as [Hlo Hhi].
  assert (Hf : (a <= Int_part x)%Z).
  { apply Z.lt_succ_r. apply lt_IZR. rewrite succ_IZR. lra. }
  unfold PyReal.Rltb.
  destruct (Rlt_dec _ _); [lia |].
  destruct (Rlt_dec _ _); [lia |].
  destruct (Z.even _); lia.
Qed.

Lemma real_round_nd_lower (x : R) (a : Z) :
  (IZR a <= x * 100)%R -> inject_Z a / 100 <= PyReal.round_nd x 2.
Proof.
  intros Hx. unfold PyReal.round_nd.
  change (inject_Z (10 ^ Z.of_nat 2)) with 100.
  change (IZR (10 ^ Z.of_nat 2)) with 100%R.
  apply Qmult_le_compat_r; [| discriminate].
  rewrite <- Zle_Qle. apply real_round_lower. exact Hx.
Qed.

Lemma consistency_ge_0 (score_components : gmap string Q) :
  (0 <= consistency score_components)%R.
Proof.
  unfold consistency, PyReal.max, PyReal.Rltb.
  destruct (Rlt_dec _ _); lra.
Qed.

Lemma completeness_range (score_components : gmap string Q) :
  0 <= completeness score_components <= 1.
Proof.
  unfold completeness. apply ratio_range; [reflexivity |].
  apply count_present_range.
Qed.

(** X29. The confidence of [calculate_confidence] is a fraction: never
    above 1, whatever the inputs, and never below 0 when the overall
    coverage is not negative; and with an overall coverage of 1 it is at
    least 0.4, whatever the score components. *)
Theorem confidence_is_a_fraction (score_components : gmap string Q)
    (coverage : DataCoverage) :
  calculate_confidence score_components coverage <= 1 /\
  (0 <= overall coverage -> 0 <= calculate_confidence score_components coverage) /\
  (overall coverage == 1 -> 4 # 10 <= calculate_confidence score_components coverage).
Proof.
  pose proof (consistency_le_1 score_components) as Hc1.
  pose proof (consistency_ge_0 score_components) as Hc0.
  pose proof (completeness_range score_components) as [Hm0 Hm1].
  assert (Hm : (0 <= Q2R (completeness score_components * (3 # 10)))%R).
  { replace 0%R with (Q2R 0) by (unfold Q2R; simpl; lra). apply Qle_Rle. lra. }
  unfold calculate_confidence. cbv zeta. repeat split.
  - assert (E : 1 == inject_Z 100 / 100) by reflexivity.
    rewrite E. apply real_round_nd_upper.
    unfold PyReal.min, PyReal.Rltb. destruct (Rlt_dec _ _); lra.
  - intros Hov.
    assert (E : 0 == inject_Z 0 / 100) by reflexivity.
    rewrite E. apply real_round_nd_lower.
    assert (Hcov : (0 <= Q2R (overall coverage * (4 # 10)))%R).
    { replace 0%R with (Q2R 0) by (unfold Q2R; simpl; lra). apply Qle_Rle. lra. }
    unfold PyReal.min, PyReal.Rltb. destruct (Rlt_dec _ _); lra.
  - intros Hov.
    apply (Qle_trans _ (inject_Z 40 / 100)); [discriminate |].
    apply real_round_nd_lower.
    assert (Hcov : (Q2R (overall coverage * (4 # 10)) = 4 / 10)%R).
    { replace (4 / 10)%R with (Q2R (4 # 10)) by (unfold Q2R; simpl; lra).
      apply Qeq_eqR. rewrite Hov. reflexivity. }
    unfold PyReal.min, PyReal.Rltb. destruct (Rlt_dec _ _); lra.
Qed.

End MoreTrust.

Section LearnedWeights.
Import Database Scorer ConceptLearner.

Lemma real_round_error (x : R) :
  (IZR (PyReal.round x) - 1 / 2 <= x <= IZR (PyReal.round x) + 1 / 2)%R.
Proof.
  unfold PyReal.round, PyReal.Rltb.
  destruct (base_Int_part x) as [Hlo Hhi].
  destruct (Rlt_dec _ _) as [H1 | H1]; [lra |].
  destruct (Rlt_dec _ _) as [H2 | H2]; [rewrite plus_IZR; lra |].
  destruct (Z.even _); [lra | rewrite plus_IZR; lra].
Qed.

Lemma hundredths_le (a b : Z) : inject_Z a / 100 <= inject_Z b / 100 <-> (a <= b)%Z.
Proof.
  rewrite Zle_Qle. unfold Qdiv. change (/ 100) with (1 # 100). split; intros H; lra.
Qed.

Lemma hundredths_eq (a b : Z) : inject_Z a / 100 == inject_Z b / 100 <-> a = b.
Proof.
  split.
  - intros H. apply Z.le_antisymm; apply hundredths_le; rewrite H; apply Qle_refl.
  - intros ->. reflexivity.
Qed.

Lemma hundredths_plus (a b : Z) :
  inject_Z a / 100 + inject_Z b / 100 == inject_Z (a + b) / 100.
Proof. rewrite inject_Z_plus. field. Qed.

Lemma round_exact (x : Q) (z : Z) : x == inject_Z z -> round x = z.
Proof.
  intros H. apply Z.le_antisymm.
  - apply round_upper. rewrite H. apply Qle_refl.
  - apply round_lower. rewrite H. apply Qle_refl.
Qed.

Lemma round_nd_exact (x : Q) (z : Z) :
  x == inject_Z z / 100 -> round_nd x 2 = inject_Z z / 100.
Proof.
  intros H. unfold round_nd. change (inject_Z (10 ^ Z.of_nat 2)) with 100.
  rewrite (round_exact (x * 100) z); [reflexivity |].
  rewrite H. field.
Qed.

(** [max] with a key function returns a key of largest value. *)
Lemma max_key_spec (best : string * Q) (l : list (string * Q)) :
  exists kv, In kv (best :: l) /\ max_key best l = fst kv /\
             Forall (fun kv' => snd kv' <= snd kv) (best :: l).
Proof.
  revert best. induction l as [| kv l IH]; intros best.
  - exists best. cbn [max_key]. repeat split; [left; reflexivity |].
    constructor; [apply Qle_refl | constructor].
  - cbn [max_key]. destruct (Qltb (snd best) (snd kv)) eqn:Hlt.
    + apply Qltb_true in Hlt.
      destruct (IH kv) as (m & Hin & Hk & Hall).
      exists m. split; [right; exact Hin |]. split; [exact Hk |].
      inversion Hall as [| ? ? Hkv Hl]; subst.
      constructor; [lra |]. constructor; assumption.
    + apply Qltb_false in Hlt.
      destruct (IH best) as (m & Hin & Hk & Hall).
      exists m. split; [destruct Hin as [<- | Hin]; [left; reflexivity | right; right; exact Hin] |].
      split; [exact Hk |].
      inversion Hall as [| ? ? Hb Hl]; subst.
      constructor; [exact Hb |]. constructor; [lra | exact Hl].
Qed.

Lemma correlations_of_names (outcomes : list ConceptTrainingOutcome) (revs : list Q)
    (cs : list (string * R)) :
  correlations_of outcomes revs feature_names = Ok cs ->
  exists r1 r2 r3 r4 r5 : R,
    cs = [("population"%string, r1); ("income"%string, r2); ("access"%string, r3);
          ("competition"%string, r4); ("walkability"%string, r5)] /\
    (0 <= r1)%R /\ (0 <= r2)%R /\ (0 <= r3)%R /\ (0 <= r4)%R /\ (0 <= r5)%R.
Proof.
  unfold feature_names. cbn [correlations_of].
  destruct (collect "population" outcomes) as [x1 | e]; [| discriminate].
  destruct (collect "income" outcomes) as [x2 | e]; [| discriminate].
  destruct (collect "access" outcomes) as [x3 | e]; [| discriminate].
  destruct (collect "competition" outcomes) as [x4 | e]; [| discriminate].
  destruct (collect "walkability" outcomes) as [x5 | e]; [| discriminate].
  cbn [mbind res_bind bind]. intros [= <-].
  do 5 eexists. split; [reflexivity |].
  repeat split; apply Rabs_pos.
Qed.

Ltac eval_string_eqb :=
  repeat match goal with
  | |- context [String.eqb ?a ?b] =>
      let v := eval vm_compute in (String.eqb a b) in
      change (String.eqb a b) with v
  end.

Lemma normalised_round_nonneg (r T : R) :
  (0 <= r)%R -> (0 < T)%R -> (0 <= PyReal.round (r / T * 100))%Z.
Proof.
  intros Hr HT. apply real_round_lower.
  apply Rmult_le_pos; [| lra]. unfold Rdiv.
  apply Rmult_le_pos; [exact Hr |]. left. apply Rinv_0_lt_compat. exact HT.
Qed.

Lemma optimize_weights_result (outcomes : list ConceptTrainingOutcome)
    (current_weights w : Weights) :
  _optimize_weights outcomes current_weights = Ok (Some w) ->
  exists k1 k2 k3 k4 k5 : Z,
    (0 <= k1)%Z /\ (0 <= k2)%Z /\ (0 <= k3)%Z /\ (0 <= k4)%Z /\ (0 <= k5)%Z /\
    (k1 + k2 + k3 + k4 + k5 = 100)%Z /\
    w = {| w_population := inject_Z k1 / 100; w_income := inject_Z k2 / 100;
           w_access := inject_Z k3 / 100; w_competition := inject_Z k4 / 100;
           w_walkability := inject_Z k5 / 100 |}.
Proof.
  unfold _optimize_weights.
  destruct (_ <? _)%Z; [discriminate |]. cbv zeta.
  match goal with
  | |- context [correlations_of outcomes ?revs feature_names] =>
      destruct (correlations_of outcomes revs feature_names) as [cs | e] eqn:Hcs;
        [| discriminate]
  end.
  cbn [mbind res_bind bind].
  apply correlations_of_names in Hcs
    as (r1 & r2 & r3 & r4 & r5 & -> & H1 & H2 & H3 & H4 & H5).
  cbn [map fst snd].
  set (T := PyReal.sum [r1; r2; r3; r4; r5]).
  assert (ET : T = (r1 + r2 + r3 + r4 + r5)%R).
  { unfold T, PyReal.sum. cbn [fold_left]. ring. }
  clearbody T.
  unfold PyReal.Reqb. destruct (Req_EM_T T 0) as [| HT]; [discriminate |].
  assert (HTpos : (0 < T)%R) by lra.
  unfold PyReal.round_nd.
  change (inject_Z (10 ^ Z.of_nat 2)) with 100.
  change (IZR (10 ^ Z.of_nat 2)) with 100%R.
  pose proof (real_round_error (r1 / T * 100)) as E1.
  pose proof (real_round_error (r2 / T * 100)) as E2.
  pose proof (real_round_error (r3 / T * 100)) as E3.
  pose proof (real_round_error (r4 / T * 100)) as E4.
  pose proof (real_round_error (r5 / T * 100)) as E5.
  pose proof (normalised_round_nonneg r1 T H1 HTpos) as P1.
  pose proof (normalised_round_nonneg r2 T H2 HTpos) as P2.
  pose proof (normalised_round_nonneg r3 T H3 HTpos) as P3.
  pose proof (normalised_round_nonneg r4 T H4 HTpos) as P4.
  pose proof (normalised_round_nonneg r5 T H5 HTpos) as P5.
  assert (Hone : (r1 / T + r2 / T + r3 / T + r4 / T + r5 / T = 1)%R).
  { rewrite ET. field. lra. }
  set (k1 := PyReal.round (r1 / T * 100)) in *.
  set (k2 := PyReal.round (r2 / T * 100)) in *.
  set (k3 := PyReal.round (r3 / T * 100)) in *.
  set (k4 := PyReal.round (r4 / T * 100)) in *.
  set (k5 := PyReal.round (r5 / T * 100)) in *.
  clearbody k1 k2 k3 k4 k5.
  assert (Hsum : (98 <= k1 + k2 + k3 + k4 + k5 <= 102)%Z).
  { set (a1 := (r1 / T)%R) in *. set (a2 := (r2 / T)%R) in *.
    set (a3 := (r3 / T)%R) in *. set (a4 := (r4 / T)%R) in *.
    set (a5 := (r5 / T)%R) in *.
    clearbody a1 a2 a3 a4 a5.
    assert (97 < k1 + k2 + k3 + k4 + k5)%Z by (apply lt_IZR; rewrite !plus_IZR; lra).
    assert (k1 + k2 + k3 + k4 + k5 < 103)%Z by (apply lt_IZR; rewrite !plus_IZR; lra).
    lia. }
  clear E1 E2 E3 E4 E5 Hone.
  set (S := sum _).
  assert (ES : S == inject_Z (k1 + k2 + k3 + k4 + k5) / 100).
  { unfold S, sum. cbn [fold_left]. rewrite !inject_Z_plus. field. }
  clearbody S.
  destruct (Qeqb S 1) eqn:HS; cbn [negb].
  - apply Qeqb_true in HS. rewrite ES in HS.
    assert (H100 : (k1 + k2 + k3 + k4 + k5 = 100)%Z).
    { apply hundredths_eq. rewrite HS. reflexivity. }
    intros [= <-]. exists k1, k2, k3, k4, k5.
    repeat (split; [assumption |]).
    unfold to_weights, lookup_weight. cbn [List.find fst snd]. eval_string_eqb.
    reflexivity.
  - clear HS.
    destruct (max_key_spec ("population"%string, inject_Z k1 / 100)
                [("income"%string, inject_Z k2 / 100);
                 ("access"%string, inject_Z k3 / 100);
                 ("competition"%string, inject_Z k4 / 100);
                 ("walkability"%string, inject_Z k5 / 100)])
      as (m & Hin & -> & Hall).
    repeat match goal with
    | H : Forall _ (_ :: _) |- _ =>
        let Hh := fresh "Hle" in
        apply Forall_cons_1 in H as [Hh H]; cbn [snd] in Hh
    end.
    clear Hall.
    assert (Hadj : forall km : Z,
              inject_Z km / 100 + (1 - S)
              == inject_Z (km + 100 - (k1 + k2 + k3 + k4 + k5)) / 100).
    { intros km. rewrite ES. unfold Zminus.
      rewrite !inject_Z_plus, inject_Z_opp, !inject_Z_plus. field. }
    cbn [In] in Hin.
    destruct Hin as [<- | [<- | [<- | [<- | [<- | []]]]]];
      cbn [fst snd] in *;
      apply (proj1 (hundredths_le _ _)) in Hle, Hle0, Hle1, Hle2, Hle3;
      unfold to_weights, lookup_weight; eval_string_eqb;
      cbn [List.find fst snd]; eval_string_eqb; cbn [List.find fst snd];
      rewrite (round_nd_exact _ _ (Hadj _));
      intros [= <-].
    + exists (k1 + 100 - (k1 + k2 + k3 + k4 + k5))%Z, k2, k3, k4, k5.
      repeat (split; [lia |]). reflexivity.
    + exists k1, (k2 + 100 - (k1 + k2 + k3 + k4 + k5))%Z, k3, k4, k5.
      repeat (split; [lia |]). reflexivity.
    + exists k1, k2, (k3 + 100 - (k1 + k2 + k3 + k4 + k5))%Z, k4, k5.
      repeat (split; [lia |]). reflexivity.
    + exists k1, k2, k3, (k4 + 100 - (k1 + k2 + k3 + k4 + k5))%Z, k5.
      repeat (split; [lia |]). reflexivity.
    + exists k1, k2, k3, k4, (k5 + 100 - (k1 + k2 + k3 + k4 + k5))%Z.
      repeat (split; [lia |]). reflexivity.
Qed.

(** X30. Learned weights are always acceptable weights.  Whenever
    [_optimize_weights] returns new weights, each of the five is a whole
    number of hundredths between 0 and 1 and together they sum to exactly
    1, so they pass the validation the concept API applies to weights a
    customer enters by hand. *)
Theorem learned_weights_sum_to_one (outcomes : list ConceptTrainingOutcome)
    (current_weights w : Weights) :
  _optimize_weights outcomes current_weights = Ok (Some w) ->
  total_weight w == 1 /\ weights_accepted w.
Proof.
  intros H.
  apply optimize_weights_result in H
    as (k1 & k2 & k3 & k4 & k5 & P1 & P2 & P3 & P4 & P5 & Hs & ->).
  assert (Ht : total_weight
                 {| w_population := inject_Z k1 / 100; w_income := inject_Z k2 / 100;
                    w_access := inject_Z k3 / 100; w_competition := inject_Z k4 / 100;
                    w_walkability := inject_Z k5 / 100 |} == 1).
  { unfold total_weight. cbn [w_population w_income w_access w_competition w_walkability].
    rewrite !hundredths_plus, Hs. reflexivity. }
  split; [exact Ht |].
  assert (Hr : forall k, (0 <= k <= 100)%Z -> 0 <= inject_Z k / 100 <= 1).
  { intros k [Hk0 Hk1]. split.
    - apply (Qle_trans _ (inject_Z 0 / 100)); [discriminate |].
      apply (proj2 (hundredths_le 0 k)). exact Hk0.
    - apply (Qle_trans _ (inject_Z 100 / 100)); [| discriminate].
      apply (proj2 (hundredths_le k 100)). exact Hk1. }
  unfold weights_accepted. rewrite Ht.
  cbn [w_population w_income w_access w_competition w_walkability].
  repeat split; try (apply Hr; lia); discriminate.
Qed.

Lemma pairs_all_some (xs y : list Q) :
  flat_map (fun p : value * Q => match fst p with
                                 | Some xi => [(xi, snd p)]
                                 | None => []
                                 end) (combine (map Some xs) y)
  = combine xs y.
Proof.
  revert y. induction xs as [| x xs IH]; intros [| q y]; cbn; try reflexivity.
  rewrite IH. reflexivity.
Qed.

Lemma map_fst_combine (xs y : list Q) :
  length xs = length y -> map fst (combine xs y) = xs.
Proof.
  revert y. induction xs as [| x xs IH]; intros [| q y] H; cbn in *;
    try reflexivity; try discriminate.
  rewrite IH by congruence. reflexivity.
Qed.

Lemma map_snd_combine (xs y : list Q) :
  length xs = length y -> map snd (combine xs y) = y.
Proof.
  revert y. induction xs as [| x xs IH]; intros [| q y] H; cbn in *;
    try reflexivity; try discriminate.
  rewrite IH by congruence. reflexivity.
Qed.

(** A series without [None] whose covariance with the revenues is not 0
    has a correlation other than 0. *)
Lemma correlation_nonzero (xs y : list Q) :
  length xs = length y -> (2 <= length xs)%nat ->
  ~ sum (map (fun p => (fst p - sum xs / len xs) * (snd p - sum y / len y))
             (combine xs y)) == 0 ->
  0 < sum (map (fun xi => (xi - sum xs / len xs) * (xi - sum xs / len xs)) xs)
      * sum (map (fun yi => (yi - sum y / len y) * (yi - sum y / len y)) y) ->
  _calculate_correlation (map Some xs) y <> 0%R.
Proof.
  intros Hlen H2 Hnum Hden. unfold _calculate_correlation.
  rewrite length_map, Hlen, Nat.eqb_refl. cbn [negb orb].
  destruct (Nat.ltb (length y) 2) eqn:Hy; [apply Nat.ltb_lt in Hy; lia |].
  cbv zeta. rewrite pairs_all_some.
  rewrite length_combine, Hlen, Nat.min_id, Hy.
  rewrite (map_fst_combine xs y Hlen), (map_snd_combine xs y Hlen).
  match goal with
  | |- context [sqrt (Q2R ?v)] =>
      assert (Hs : (0 < sqrt (Q2R v))%R)
  end.
  { apply sqrt_lt_R0. replace 0%R with (Q2R 0) by (unfold Q2R; simpl; lra).
    apply Qlt_Rlt. exact Hden. }
  unfold PyReal.Reqb. destruct (Req_EM_T _ 0) as [He | _]; [lra |].
  intros Hz. apply Hnum.
  apply eqR_Qeq. replace (Q2R 0) with 0%R by (unfold Q2R; simpl; lra).
  unfold Rdiv in Hz. apply Rmult_integral in Hz as [Hz | Hz]; [exact Hz |].
  exfalso. apply (Rinv_neq_0_compat _ (Rgt_not_eq _ _ Hs)). exact Hz.
Qed.

Lemma optimize_weights_returns (outcomes : list ConceptTrainingOutcome)
    (current_weights : Weights) (cs : list (string * R)) :
  (Z.of_nat (length outcomes) <? MIN_OUTCOMES_FOR_WEIGHTS)%Z = false ->
  correlations_of outcomes
    (flat_map (fun o => match usable_features o with
                        | Some _ => [actual_revenue_eur o]
                        | None => []
                        end) outcomes) feature_names = Ok cs ->
  PyReal.sum (map snd cs) <> 0%R ->
  exists w, _optimize_weights outcomes current_weights = Ok (Some w).
Proof.
  intros Hn Hcs HT. unfold _optimize_weights. rewrite Hn. cbv zeta. rewrite Hcs.
  cbn [mbind res_bind bind].
  unfold PyReal.Reqb. destruct (Req_EM_T _ 0) as [He | _]; [contradiction |].
  destruct (negb _); [| eexists; reflexivity].
  destruct cs; eexists; reflexivity.
Qed.

Lemma learned_weights_sum_to_one_witness :
  exists w,
    _optimize_weights (MoreExamples.learning_outcomes 20) Examples.generous_weights
    = Ok (Some w) /\
    total_weight w == 1 /\ weights_accepted w.
Proof.
  pose (xs := map (fun n => inject_Z (Z.of_nat n) * 100) (seq 1 20)).
  pose (ys := map (fun n => 90000 + inject_Z (Z.of_nat n) * 1000) (seq 1 20)).
  assert (Hrevs : flat_map (fun o => match usable_features o with
                                     | Some _ => [actual_revenue_eur o]
                                     | None => []
                                     end) (MoreExamples.learning_outcomes 20) = ys)
    by (vm_compute; reflexivity).
  assert (Hpop : collect "population" (MoreExamples.learning_outcomes 20)
                 = Ok (map Some xs)) by (vm_compute; reflexivity).
  assert (Hinc : exists v, collect "income" (MoreExamples.learning_outcomes 20) = Ok v)
    by (vm_compute; eexists; reflexivity).
  assert (Hacc : exists v, collect "access" (MoreExamples.learning_outcomes 20) = Ok v)
    by (vm_compute; eexists; reflexivity).
  assert (Hcom : exists v, collect "competition" (MoreExamples.learning_outcomes 20) = Ok v)
    by (vm_compute; eexists; reflexivity).
  assert (Hwal : exists v, collect "walkability" (MoreExamples.learning_outcomes 20) = Ok v)
    by (vm_compute; eexists; reflexivity).
  destruct Hinc as [v2 Hinc], Hacc as [v3 Hacc], Hcom as [v4 Hcom], Hwal as [v5 Hwal].
  assert (Hc : _calculate_correlation (map Some xs) ys <> 0%R).
  { apply correlation_nonzero.
    - reflexivity.
    - vm_compute. lia.
    - intros H. vm_compute in H. discriminate.
    - vm_compute. reflexivity. }
  destruct (optimize_weights_returns (MoreExamples.learning_outcomes 20)
              Examples.generous_weights
              [("population"%string, Rabs (_calculate_correlation (map Some xs) ys));
               ("income"%string, Rabs (_calculate_correlation v2 ys));
               ("access"%string, Rabs (_calculate_correlation v3 ys));
               ("competition"%string, Rabs (_calculate_correlation v4 ys));
               ("walkability"%string, Rabs (_calculate_correlation v5 ys))])
    as [w Hw].
  - reflexivity.
  - rewrite Hrevs. unfold feature_names. cbn [correlations_of].
    rewrite Hpop, Hinc, Hacc, Hcom, Hwal. reflexivity.
  - cbn [map snd]. unfold PyReal.sum. cbn [fold_left].
    pose proof (Rabs_pos_lt _ Hc).
    pose proof (Rabs_pos (_calculate_correlation v2 ys)).
    pose proof (Rabs_pos (_calculate_correlation v3 ys)).
    pose proof (Rabs_pos (_calculate_correlation v4 ys)).
    pose proof (Rabs_pos (_calculate_correlation v5 ys)).
    lra.
  - exists w. split; [exact Hw |].
    apply (learned_weights_sum_to_one _ _ _ Hw).
Defined.

End LearnedWeights.
